(** * Verification of the document-editing engine (package [editor])

    A shallow embedding of [src/editor/commands.go], [src/editor/xml_editor.go]
    and the entry points of [src/editor/editor_cmd.go], followed by
    the helpers of the spelling check ([src/unnamed/part_000]) and the
    editing-time statistics ([src/statistics/statistics.go]).

    - Go's [int] is a 64-bit two's-complement integer: it is modelled as [Z]
      with the wrap-around of every arithmetic operation written out.
    - Go strings are byte sequences: [string], with [len] the number of bytes.
    - A Go run-time panic (index or slice bounds out of range, [make] with a
      negative capacity) is the outcome [None] of the option monad.
    - The commands hold a pointer to their editor; the embedding threads the
      editor through as explicit state.  All console output ([fmt.Printf]) is
      left out. *)

From Stdlib Require Import ZArith Lia Ascii String List DecimalString.
From stdpp Require Import base option list strings gmap.

#[local] Open Scope Z_scope.

(** ** Go primitives *)

Module Go.

Definition int_min : Z := - 2 ^ 63.
Definition int_max : Z := 2 ^ 63 - 1.

(** Two's-complement wrap-around of a 64-bit [int]. *)
Definition wrap (z : Z) : Z := (z + 2 ^ 63) mod 2 ^ 64 - 2 ^ 63.

Definition add (a b : Z) : Z := wrap (a + b).
Definition sub (a b : Z) : Z := wrap (a - b).

Definition is_int (z : Z) : Prop := int_min <= z <= int_max.

(** [len] of a slice and of a string. *)
Definition len {A} (l : list A) : Z := Z.of_nat (List.length l).
Definition slen (s : string) : Z := Z.of_nat (String.length s).

(** [s[i]] on a slice: panics out of range. *)
Definition index {A} (l : list A) (i : Z) : option A :=
  if (i <? 0) || (len l <=? i) then None else l !! Z.to_nat i.

(** [s[i] = v] on a slice: panics out of range. *)
Definition set {A} (l : list A) (i : Z) (v : A) : option (list A) :=
  if (i <? 0) || (len l <=? i) then None else Some (<[Z.to_nat i := v]> l).

(** [s[:hi]], [s[lo:]] and [s[lo:hi]] on a slice whose capacity is its length. *)
Definition slice_to {A} (l : list A) (hi : Z) : option (list A) :=
  if (hi <? 0) || (len l <? hi) then None else Some (take (Z.to_nat hi) l).

Definition slice_from {A} (l : list A) (lo : Z) : option (list A) :=
  if (lo <? 0) || (len l <? lo) then None else Some (drop (Z.to_nat lo) l).

Definition slice {A} (l : list A) (lo hi : Z) : option (list A) :=
  if (lo <? 0) || (hi <? lo) || (len l <? hi) then None
  else Some (take (Z.to_nat (hi - lo)) (drop (Z.to_nat lo) l)).

(** The first [n] bytes of a string, and the string without them. *)
Fixpoint stake (n : nat) (s : string) : string :=
  match n, s with
  | S n', String c s' => String c (stake n' s')
  | _, _ => EmptyString
  end.

Fixpoint sdrop (n : nat) (s : string) : string :=
  match n, s with
  | S n', String _ s' => sdrop n' s'
  | _, _ => s
  end.

(** [s[:hi]] and [s[lo:]] on a string. *)
Definition sslice_to (s : string) (hi : Z) : option string :=
  if (hi <? 0) || (slen s <? hi) then None else Some (stake (Z.to_nat hi) s).

Definition sslice_from (s : string) (lo : Z) : option string :=
  if (lo <? 0) || (slen s <? lo) then None else Some (sdrop (Z.to_nat lo) s).

(** [make([]T, 0, n)]: panics on a negative capacity. *)
Definition make_cap (n : Z) : option unit :=
  if n <? 0 then None else Some tt.

Definition newline : ascii := ascii_of_nat 10.
Definition nl : string := String newline EmptyString.

(** [strings.Split(s, "\n")]: the pieces between newline bytes, never an
    empty slice. *)
Fixpoint Split_nl (s : string) : list string :=
  match s with
  | EmptyString => [EmptyString]
  | String c s' =>
      if Ascii.eqb c newline then EmptyString :: Split_nl s'
      else match Split_nl s' with
           | p :: ps => String c p :: ps
           | [] => [String c EmptyString]
           end
  end.

End Go.

(** ** The text buffer and its commands ([commands.go], lines 71-352) *)

Module Text.

(** Modelled from the spec: the [TextEditor] struct is declared in a file that
    is not under [src/]; the commands only touch its [lines] slice and its
    [isModified] flag ("an ordered, mutable sequence of line strings"). *)
Record TextEditor := mkTextEditor {
  lines : list string;
  isModified : bool
}.

Record InsertCommand := mkInsertCommand {
  ins_line : Z;
  ins_col : Z;
  ins_text : string;
  ins_prevLine : string;
  ins_splitLines : list string;
  ins_executed : bool
}.

Definition NewInsertCommand (line col : Z) (text : string) : InsertCommand :=
  {| ins_line := line; ins_col := col; ins_text := text;
     ins_prevLine := ""; ins_splitLines := []; ins_executed := false |}.

(** [InsertCommand.validate] *)
Definition InsertCommand_validate (ed : TextEditor) (cmd : InsertCommand)
  : option bool :=
  let lineCount := Go.len (lines ed) in
  if lineCount =? 0 then
    Some ((ins_line cmd =? 1) && (ins_col cmd =? 1))
  else if (ins_line cmd <? 1) || (lineCount <? ins_line cmd) then
    Some false
  else
    targetLine ← Go.index (lines ed) (Go.sub (ins_line cmd) 1);
    Some ((1 <=? ins_col cmd)
          && (ins_col cmd <=? Go.add (Go.slen targetLine) 1)).

(** [InsertCommand.Execute] *)
Definition InsertCommand_Execute (ed : TextEditor) (cmd : InsertCommand)
  : option (TextEditor * InsertCommand) :=
  ok ← InsertCommand_validate ed cmd;
  if negb ok then Some (ed, cmd) else
  let lineIdx := Go.sub (ins_line cmd) 1 in
  let colIdx := Go.sub (ins_col cmd) 1 in
  prevLine ← Go.index (lines ed) lineIdx;
  let splitLines := Go.Split_nl (ins_text cmd) in
  let cmd' := {| ins_line := ins_line cmd; ins_col := ins_col cmd;
                 ins_text := ins_text cmd; ins_prevLine := prevLine;
                 ins_splitLines := splitLines; ins_executed := true |} in
  if Go.len splitLines =? 1 then
    pre ← Go.sslice_to prevLine colIdx;
    post ← Go.sslice_from prevLine colIdx;
    lines' ← Go.set (lines ed) lineIdx (pre +:+ ins_text cmd +:+ post);
    Some ({| lines := lines'; isModified := true |}, cmd')
  else
    pre ← Go.sslice_to prevLine colIdx;
    first ← Go.index splitLines 0;
    let firstPart := pre +:+ first in
    middleParts ← Go.slice splitLines 1 (Go.sub (Go.len splitLines) 1);
    last ← Go.index splitLines (Go.sub (Go.len splitLines) 1);
    post ← Go.sslice_from prevLine colIdx;
    let lastPart := last +:+ post in
    _ ← Go.make_cap (Go.add (Go.add (Go.len (lines ed)) (Go.len middleParts)) 1);
    before ← Go.slice_to (lines ed) lineIdx;
    after ← Go.slice_from (lines ed) (Go.add lineIdx 1);
    Some ({| lines := before ++ [firstPart] ++ middleParts ++ [lastPart] ++ after;
             isModified := true |}, cmd').

(** [InsertCommand.Undo] *)
Definition InsertCommand_Undo (ed : TextEditor) (cmd : InsertCommand)
  : option (TextEditor * InsertCommand) :=
  if negb (ins_executed cmd) then Some (ed, cmd) else
  let lineIdx := Go.sub (ins_line cmd) 1 in
  if Go.len (ins_splitLines cmd) =? 1 then
    lines' ← Go.set (lines ed) lineIdx (ins_prevLine cmd);
    Some ({| lines := lines'; isModified := true |}, cmd)
  else
    let removeCount := Go.sub (Go.len (ins_splitLines cmd)) 1 in
    _ ← Go.make_cap (Go.sub (Go.len (lines ed)) removeCount);
    before ← Go.slice_to (lines ed) lineIdx;
    after ← Go.slice_from (lines ed) (Go.add (Go.add lineIdx 1) removeCount);
    Some ({| lines := before ++ [ins_prevLine cmd] ++ after;
             isModified := true |}, cmd).

Definition InsertCommand_IsExecuted (cmd : InsertCommand) : bool :=
  ins_executed cmd.

Record DeleteCommand := mkDeleteCommand {
  del_line : Z;
  del_col : Z;
  del_length : Z;
  del_prevLine : string;
  del_executed : bool
}.

Definition NewDeleteCommand (line col length : Z) : DeleteCommand :=
  {| del_line := line; del_col := col; del_length := length;
     del_prevLine := ""; del_executed := false |}.

(** [DeleteCommand.validate] *)
Definition DeleteCommand_validate (ed : TextEditor) (cmd : DeleteCommand)
  : option bool :=
  let lineCount := Go.len (lines ed) in
  if (del_line cmd <? 1) || (lineCount <? del_line cmd) then Some false else
  targetLine ← Go.index (lines ed) (Go.sub (del_line cmd) 1);
  let lineLen := Go.slen targetLine in
  let colIdx := Go.sub (del_col cmd) 1 in
  if (colIdx <? 0) || (lineLen <=? colIdx) || (del_length cmd <=? 0) then
    Some false
  else if lineLen <? Go.add colIdx (del_length cmd) then Some false
  else Some true.

(** [DeleteCommand.Execute] *)
Definition DeleteCommand_Execute (ed : TextEditor) (cmd : DeleteCommand)
  : option (TextEditor * DeleteCommand) :=
  ok ← DeleteCommand_validate ed cmd;
  if negb ok then Some (ed, cmd) else
  let lineIdx := Go.sub (del_line cmd) 1 in
  let colIdx := Go.sub (del_col cmd) 1 in
  prevLine ← Go.index (lines ed) lineIdx;
  pre ← Go.sslice_to prevLine colIdx;
  post ← Go.sslice_from prevLine (Go.add colIdx (del_length cmd));
  lines' ← Go.set (lines ed) lineIdx (pre +:+ post);
  Some ({| lines := lines'; isModified := true |},
        {| del_line := del_line cmd; del_col := del_col cmd;
           del_length := del_length cmd; del_prevLine := prevLine;
           del_executed := true |}).

(** [DeleteCommand.Undo] *)
Definition DeleteCommand_Undo (ed : TextEditor) (cmd : DeleteCommand)
  : option (TextEditor * DeleteCommand) :=
  if negb (del_executed cmd) then Some (ed, cmd) else
  lines' ← Go.set (lines ed) (Go.sub (del_line cmd) 1) (del_prevLine cmd);
  Some ({| lines := lines'; isModified := true |}, cmd).

Definition DeleteCommand_IsExecuted (cmd : DeleteCommand) : bool :=
  del_executed cmd.

Record ReplaceCommand := mkReplaceCommand {
  rep_line : Z;
  rep_col : Z;
  rep_length : Z;
  rep_text : string;
  rep_deleteCmd : DeleteCommand;
  rep_insertCmd : InsertCommand;
  rep_executed : bool
}.

Definition NewReplaceCommand (line col length : Z) (text : string)
  : ReplaceCommand :=
  {| rep_line := line; rep_col := col; rep_length := length; rep_text := text;
     rep_deleteCmd := NewDeleteCommand line col length;
     rep_insertCmd := NewInsertCommand line col text;
     rep_executed := false |}.

Definition set_rep (cmd : ReplaceCommand) (d : DeleteCommand)
    (i : InsertCommand) (e : bool) : ReplaceCommand :=
  {| rep_line := rep_line cmd; rep_col := rep_col cmd;
     rep_length := rep_length cmd; rep_text := rep_text cmd;
     rep_deleteCmd := d; rep_insertCmd := i; rep_executed := e |}.

(** [ReplaceCommand.Execute] *)
Definition ReplaceCommand_Execute (ed : TextEditor) (cmd : ReplaceCommand)
  : option (TextEditor * ReplaceCommand) :=
  '(ed1, d1) ← DeleteCommand_Execute ed (rep_deleteCmd cmd);
  if negb (DeleteCommand_IsExecuted d1) then
    Some (ed1, set_rep cmd d1 (rep_insertCmd cmd) (rep_executed cmd))
  else
    '(ed2, i2) ← InsertCommand_Execute ed1 (rep_insertCmd cmd);
    Some (ed2, set_rep cmd d1 i2 (InsertCommand_IsExecuted i2)).

(** [ReplaceCommand.Undo] *)
Definition ReplaceCommand_Undo (ed : TextEditor) (cmd : ReplaceCommand)
  : option (TextEditor * ReplaceCommand) :=
  if negb (rep_executed cmd) then Some (ed, cmd) else
  '(ed1, i1) ← InsertCommand_Undo ed (rep_insertCmd cmd);
  '(ed2, d2) ← DeleteCommand_Undo ed1 (rep_deleteCmd cmd);
  Some ({| lines := lines ed2; isModified := true |},
        set_rep cmd d2 i1 (rep_executed cmd)).

Definition ReplaceCommand_IsExecuted (cmd : ReplaceCommand) : bool :=
  rep_executed cmd.

(** The sizes a Go program can hold: the number of lines and the length of
    every line are below the largest [int]. *)
Definition fits (ed : TextEditor) : bool :=
  (Go.len (lines ed) <=? Go.int_max)
  && forallb (λ l, Go.slen l <? Go.int_max) (lines ed).

(** [z] is a value of type [int]. *)
Definition is_intb (z : Z) : bool := (Go.int_min <=? z) && (z <=? Go.int_max).

(** A [ReplaceCommand] as [NewReplaceCommand] builds it: both sub-commands
    carry the coordinates of the replace, which are [int]s. *)
Definition replace_wf (cmd : ReplaceCommand) : bool :=
  (del_line (rep_deleteCmd cmd) =? ins_line (rep_insertCmd cmd))
  && (del_col (rep_deleteCmd cmd) =? ins_col (rep_insertCmd cmd))
  && is_intb (del_line (rep_deleteCmd cmd))
  && is_intb (del_col (rep_deleteCmd cmd))
  && is_intb (del_length (rep_deleteCmd cmd)).

(** Sizes within which an insert of [text] cannot overflow an [int]. *)
Definition insert_fits (ed : TextEditor) (text : string) : bool :=
  fits ed && (Go.len (lines ed) + Go.slen text + 1 <? Go.int_max).

(** An insert followed at once by its undo: the line sequence that results. *)
Definition insert_then_undo (ed : TextEditor) (line col : Z) (text : string)
  : option (list string) :=
  '(ed1, c1) ← InsertCommand_Execute ed (NewInsertCommand line col text);
  '(ed2, _) ← InsertCommand_Undo ed1 c1;
  Some (lines ed2).

(** Sample buffers. *)
Definition empty_buffer : TextEditor := {| lines := []; isModified := false |}.
Definition buffer_X : TextEditor := {| lines := ["X"]; isModified := false |}.
Definition buffer_Hello : TextEditor := {| lines := ["Hello"]; isModified := false |}.

End Text.

(** ** The XML tree, its index and its commands
       ([xml_editor.go], [commands.go] lines 354-835, [editor_cmd.go]) *)

Module Xml.

(** A [*XMLElement] is an address into the heap of allocated elements; [nil]
    is [None].  Elements are never freed, so the heap only grows. *)
Abbreviation addr := nat (only parsing).

Record XMLElement := mkXMLElement {
  tag : string;
  id : string;
  attrs : gmap string string;
  text : string;
  parent : option addr;
  children : list addr
}.

Record InsertBeforeCommand := mkInsertBeforeCommand {
  ib_tag : string;
  ib_newId : string;
  ib_targetId : string;
  ib_text : string;
  ib_insertedElem : option addr;
  ib_success : bool
}.

Record AppendChildCommand := mkAppendChildCommand {
  ac_tag : string;
  ac_newId : string;
  ac_parentId : string;
  ac_text : string;
  ac_insertedElem : option addr;
  ac_success : bool
}.

Record EditIdCommand := mkEditIdCommand {
  ei_oldId : string;
  ei_newId : string;
  ei_prevId : string;
  ei_success : bool
}.

Record EditTextCommand := mkEditTextCommand {
  et_elementId : string;
  et_text : string;
  et_prevText : string;
  et_success : bool
}.

(** [xd_deletedIdMap] is [None] for the nil map of a fresh command. *)
Record XmlDeleteCommand := mkXmlDeleteCommand {
  xd_elementId : string;
  xd_deletedElem : option addr;
  xd_parentElem : option addr;
  xd_index : Z;
  xd_success : bool;
  xd_deletedIdMap : option (gmap string addr)
}.

(** The [Command] interface, closed over the five XML command types. *)
Inductive Command :=
  | CInsertBefore (c : InsertBeforeCommand)
  | CAppendChild (c : AppendChildCommand)
  | CEditId (c : EditIdCommand)
  | CEditText (c : EditTextCommand)
  | CXmlDelete (c : XmlDeleteCommand).

(** [XmlEditor], with the heap its pointers point into.  The fields
    [filePath], [lines], [logEnabled], [logFilters] and [workspaceApi] play no
    part in the commands and are left out.  The top of a stack is the end of
    its list, as with Go's [append]. *)
Record XmlEditor := mkXmlEditor {
  heap : list XMLElement;
  root : option addr;
  idMap : gmap string addr;
  isModified : bool;
  undoStack : list Command;
  redoStack : list Command
}.

Definition with_heap (x : XmlEditor) (h : list XMLElement) : XmlEditor :=
  {| heap := h; root := root x; idMap := idMap x; isModified := isModified x;
     undoStack := undoStack x; redoStack := redoStack x |}.

Definition with_idMap (x : XmlEditor) (m : gmap string addr) : XmlEditor :=
  {| heap := heap x; root := root x; idMap := m; isModified := isModified x;
     undoStack := undoStack x; redoStack := redoStack x |}.

Definition with_isModified (x : XmlEditor) (b : bool) : XmlEditor :=
  {| heap := heap x; root := root x; idMap := idMap x; isModified := b;
     undoStack := undoStack x; redoStack := redoStack x |}.

Definition with_stacks (x : XmlEditor) (u r : list Command) : XmlEditor :=
  {| heap := heap x; root := root x; idMap := idMap x;
     isModified := isModified x; undoStack := u; redoStack := r |}.

Definition with_id (e : XMLElement) (i : string) : XMLElement :=
  {| tag := tag e; id := i; attrs := attrs e; text := text e;
     parent := parent e; children := children e |}.

Definition with_text (e : XMLElement) (t : string) : XMLElement :=
  {| tag := tag e; id := id e; attrs := attrs e; text := t;
     parent := parent e; children := children e |}.

Definition with_children (e : XMLElement) (cs : list addr) : XMLElement :=
  {| tag := tag e; id := id e; attrs := attrs e; text := text e;
     parent := parent e; children := cs |}.

(** Dereference of a pointer; [nil] panics. *)
Definition deref (h : list XMLElement) (p : option addr) : option XMLElement :=
  a ← p; h !! a.

(** [strings.ReplaceAll(s, old, new)] for a one-byte [old]. *)
Fixpoint ReplaceAll1 (s : string) (old : ascii) (new : string) : string :=
  match s with
  | EmptyString => EmptyString
  | String c s' =>
      if Ascii.eqb c old then new +:+ ReplaceAll1 s' old new
      else String c (ReplaceAll1 s' old new)
  end.

(** The double quote character. *)
Definition dquote : ascii := ascii_of_nat 34.

(** [escapeXML] *)
Definition escapeXML (s : string) : string :=
  let s := ReplaceAll1 s "&" "&amp;" in
  let s := ReplaceAll1 s "<" "&lt;" in
  let s := ReplaceAll1 s ">" "&gt;" in
  let s := ReplaceAll1 s dquote "&quot;" in
  let s := ReplaceAll1 s "'" "&apos;" in
  s.

(** The loop [for i, child := range children { if child.id == target ... }]:
    the first position whose element has identifier [target], or [-1]. *)
Fixpoint index_by_id (h : list XMLElement) (cs : list addr) (target : string)
    (i : Z) : option Z :=
  match cs with
  | [] => Some (-1)
  | a :: cs' =>
      child ← h !! a;
      if String.eqb (id child) target then Some i
      else index_by_id h cs' target (i + 1)
  end.

(** The loop [for i, child := range children { if child == elem ... }]. *)
Fixpoint index_by_addr (cs : list addr) (elem : addr) (i : Z) : Z :=
  match cs with
  | [] => -1
  | a :: cs' => if Nat.eqb a elem then i else index_by_addr cs' elem (i + 1)
  end.

(** [append(s[:index], append([]T{e}, s[index:]...)...)] *)
Definition splice_in (cs : list addr) (index : Z) (e : addr)
  : option (list addr) :=
  before ← Go.slice_to cs index;
  after ← Go.slice_from cs index;
  Some (before ++ [e] ++ after).

(** [append(s[:index], s[index+1:]...)] *)
Definition splice_out (cs : list addr) (index : Z) : option (list addr) :=
  before ← Go.slice_to cs index;
  after ← Go.slice_from cs (Go.add index 1);
  Some (before ++ after).

Definition NewInsertBeforeCommand (tag newId targetId text : string)
  : InsertBeforeCommand :=
  {| ib_tag := tag; ib_newId := newId; ib_targetId := targetId;
     ib_text := text; ib_insertedElem := None; ib_success := false |}.

(** [InsertBeforeCommand.Execute] *)
Definition InsertBeforeCommand_Execute (x : XmlEditor) (c : InsertBeforeCommand)
  : option (XmlEditor * InsertBeforeCommand) :=
  match idMap x !! ib_newId c with
  | Some _ => Some (x, c)
  | None =>
  match idMap x !! ib_targetId c with
  | None => Some (x, c)
  | Some targetElem =>
  t ← heap x !! targetElem;
  match parent t with
  | None => Some (x, c)
  | Some p =>
  pn ← heap x !! p;
  index ← index_by_id (heap x) (children pn) (ib_targetId c) 0;
  if index =? -1 then Some (x, c) else
  let newElem := {| tag := ib_tag c; id := ib_newId c; text := ib_text c;
                    attrs := <["id" := escapeXML (ib_newId c)]> ∅;
                    parent := Some p; children := [] |} in
  let a := List.length (heap x) in
  cs ← splice_in (children pn) index a;
  let h := <[p := with_children pn cs]> (heap x ++ [newElem]) in
  Some (with_isModified
          (with_idMap (with_heap x h) (<[ib_newId c := a]> (idMap x))) true,
        {| ib_tag := ib_tag c; ib_newId := ib_newId c;
           ib_targetId := ib_targetId c; ib_text := ib_text c;
           ib_insertedElem := Some a; ib_success := true |})
  end end end.

(** The undo shared, line for line, by [InsertBeforeCommand.Undo] and
    [AppendChildCommand.Undo]: unlink the first child of the inserted
    element's parent that carries [newId], and drop [newId] from the index. *)
Definition undo_insert (x : XmlEditor) (insertedElem : addr) (newId : string)
  : option (option XmlEditor) :=
  e ← heap x !! insertedElem;
  match parent e with
  | None => Some None
  | Some p =>
      pn ← heap x !! p;
      index ← index_by_id (heap x) (children pn) newId 0;
      h ← (if index =? -1 then Some (heap x)
           else cs ← splice_out (children pn) index;
                Some (<[p := with_children pn cs]> (heap x)));
      Some (Some (with_isModified
                    (with_idMap (with_heap x h) (delete newId (idMap x))) true))
  end.

(** [InsertBeforeCommand.Undo] *)
Definition InsertBeforeCommand_Undo (x : XmlEditor) (c : InsertBeforeCommand)
  : option (XmlEditor * InsertBeforeCommand) :=
  match ib_success c, ib_insertedElem c with
  | true, Some e =>
      r ← undo_insert x e (ib_newId c);
      match r with
      | None => Some (x, c)
      | Some x' =>
          Some (x', {| ib_tag := ib_tag c; ib_newId := ib_newId c;
                       ib_targetId := ib_targetId c; ib_text := ib_text c;
                       ib_insertedElem := ib_insertedElem c;
                       ib_success := false |})
      end
  | _, _ => Some (x, c)
  end.

Definition InsertBeforeCommand_IsExecuted (c : InsertBeforeCommand) : bool :=
  ib_success c.

(** [XmlEditor.findNodeById]: a depth-first search from [node].  The recursion
    follows the [children] pointers; [fuel] bounds its depth, and [None] is
    the outcome of a search that runs out of it (or meets a dangling
    pointer).  The result [Some None] is Go's [nil]. *)
Fixpoint findNodeById_fuel (fuel : nat) (h : list XMLElement)
    (node : option addr) (targetId : string) : option (option addr) :=
  match fuel with
  | O => None
  | S fuel' =>
      match node with
      | None => Some None
      | Some a =>
          n ← h !! a;
          if String.eqb (id n) targetId then Some (Some a)
          else
            (fix scan (cs : list addr) : option (option addr) :=
               match cs with
               | [] => Some None
               | child :: cs' =>
                   found ← findNodeById_fuel fuel' h (Some child) targetId;
                   match found with
                   | Some _ => Some found
                   | None => scan cs'
                   end
               end) (children n)
      end
  end.

(** A tree of [n] elements is at most [n] deep. *)
Definition findNodeById (x : XmlEditor) (node : option addr)
    (targetId : string) : option (option addr) :=
  findNodeById_fuel (S (List.length (heap x))) (heap x) node targetId.

Definition NewAppendChildCommand (tag newId parentId text : string)
  : AppendChildCommand :=
  {| ac_tag := tag; ac_newId := newId; ac_parentId := parentId;
     ac_text := text; ac_insertedElem := None; ac_success := false |}.

Definition ac_set (c : AppendChildCommand) (e : option addr) (s : bool)
  : AppendChildCommand :=
  {| ac_tag := ac_tag c; ac_newId := ac_newId c; ac_parentId := ac_parentId c;
     ac_text := ac_text c; ac_insertedElem := e; ac_success := s |}.

(** [AppendChildCommand.Execute] *)
Definition AppendChildCommand_Execute (x : XmlEditor) (c : AppendChildCommand)
  : option (XmlEditor * AppendChildCommand) :=
  found ← match idMap x !! ac_parentId c with
          | Some p => Some (Some p)
          | None => findNodeById x (root x) (ac_parentId c)
          end;
  match found with
  | None => Some (x, ac_set c (ac_insertedElem c) false)
  | Some parentElem =>
  match idMap x !! ac_newId c with
  | Some _ => Some (x, c)
  | None =>
  let newElem := {| tag := ac_tag c; id := ac_newId c; text := ac_text c;
                    attrs := <["id" := ac_newId c]> ∅;
                    parent := Some parentElem; children := [] |} in
  let a := List.length (heap x) in
  pn ← heap x !! parentElem;
  let h := <[parentElem := with_children pn (children pn ++ [a])]>
             (heap x ++ [newElem]) in
  Some (with_isModified
          (with_idMap (with_heap x h) (<[ac_newId c := a]> (idMap x))) true,
        ac_set c (Some a) true)
  end end.

(** [AppendChildCommand.Undo] *)
Definition AppendChildCommand_Undo (x : XmlEditor) (c : AppendChildCommand)
  : option (XmlEditor * AppendChildCommand) :=
  match ac_success c, ac_insertedElem c with
  | true, Some e =>
      r ← undo_insert x e (ac_newId c);
      match r with
      | None => Some (x, c)
      | Some x' => Some (x', ac_set c (ac_insertedElem c) false)
      end
  | _, _ => Some (x, c)
  end.

Definition AppendChildCommand_IsExecuted (c : AppendChildCommand) : bool :=
  ac_success c.

Definition NewEditIdCommand (oldId newId : string) : EditIdCommand :=
  {| ei_oldId := oldId; ei_newId := newId; ei_prevId := "";
     ei_success := false |}.

Definition ei_set (c : EditIdCommand) (p : string) (s : bool)
  : EditIdCommand :=
  {| ei_oldId := ei_oldId c; ei_newId := ei_newId c; ei_prevId := p;
     ei_success := s |}.

(** [EditIdCommand.Execute] *)
Definition EditIdCommand_Execute (x : XmlEditor) (c : EditIdCommand)
  : option (XmlEditor * EditIdCommand) :=
  match idMap x !! ei_oldId c with
  | None => Some (x, c)
  | Some elem =>
  if decide (Some elem = root x) then Some (x, ei_set c (ei_prevId c) false)
  else
  match idMap x !! ei_newId c with
  | Some _ => Some (x, c)
  | None =>
  e ← heap x !! elem;
  let h := <[elem := with_id e (ei_newId c)]> (heap x) in
  let m := <[ei_newId c := elem]> (delete (ei_oldId c) (idMap x)) in
  Some (with_isModified (with_idMap (with_heap x h) m) true,
        ei_set c (id e) true)
  end end.

(** [EditIdCommand.Undo] *)
Definition EditIdCommand_Undo (x : XmlEditor) (c : EditIdCommand)
  : option (XmlEditor * EditIdCommand) :=
  if negb (ei_success c) || String.eqb (ei_prevId c) "" then Some (x, c) else
  match idMap x !! ei_newId c with
  | None => Some (x, c)
  | Some elem =>
      e ← heap x !! elem;
      let h := <[elem := with_id e (ei_prevId c)]> (heap x) in
      let m := <[ei_prevId c := elem]> (delete (ei_newId c) (idMap x)) in
      Some (with_isModified (with_idMap (with_heap x h) m) true,
            ei_set c (ei_prevId c) false)
  end.

Definition EditIdCommand_IsExecuted (c : EditIdCommand) : bool :=
  ei_success c.

Definition NewEditTextCommand (elementId text : string) : EditTextCommand :=
  {| et_elementId := elementId; et_text := text; et_prevText := "";
     et_success := false |}.

Definition et_set (c : EditTextCommand) (p : string) (s : bool)
  : EditTextCommand :=
  {| et_elementId := et_elementId c; et_text := et_text c; et_prevText := p;
     et_success := s |}.

(** [EditTextCommand.Execute] *)
Definition EditTextCommand_Execute (x : XmlEditor) (c : EditTextCommand)
  : option (XmlEditor * EditTextCommand) :=
  match idMap x !! et_elementId c with
  | None => Some (x, c)
  | Some elem =>
      e ← heap x !! elem;
      let h := <[elem := with_text e (et_text c)]> (heap x) in
      Some (with_isModified (with_heap x h) true, et_set c (text e) true)
  end.

(** [EditTextCommand.Undo] *)
Definition EditTextCommand_Undo (x : XmlEditor) (c : EditTextCommand)
  : option (XmlEditor * EditTextCommand) :=
  if negb (et_success c) || String.eqb (et_prevText c) "" then Some (x, c) else
  match idMap x !! et_elementId c with
  | None => Some (x, c)
  | Some elem =>
      e ← heap x !! elem;
      let h := <[elem := with_text e (et_prevText c)]> (heap x) in
      Some (with_isModified (with_heap x h) true,
            et_set c (et_prevText c) false)
  end.

Definition EditTextCommand_IsExecuted (c : EditTextCommand) : bool :=
  et_success c.

Definition NewXmlDeleteCommand (elementId : string) : XmlDeleteCommand :=
  {| xd_elementId := elementId; xd_deletedElem := None; xd_parentElem := None;
     xd_index := 0; xd_success := false; xd_deletedIdMap := None |}.

(** [XmlDeleteCommand.recursiveSaveNodes], on the map under construction.
    An element with an empty identifier returns at once: its children are not
    visited. *)
Fixpoint recursiveSaveNodes_fuel (fuel : nat) (h : list XMLElement)
    (m : gmap string addr) (elem : option addr) : option (gmap string addr) :=
  match fuel with
  | O => None
  | S fuel' =>
      match elem with
      | None => Some m
      | Some a =>
          n ← h !! a;
          if String.eqb (id n) "" then Some m
          else
            (fix each (cs : list addr) (m : gmap string addr)
               : option (gmap string addr) :=
               match cs with
               | [] => Some m
               | child :: cs' =>
                   m' ← recursiveSaveNodes_fuel fuel' h m (Some child);
                   each cs' m'
               end) (children n) (<[id n := a]> m)
      end
  end.

(** [XmlDeleteCommand.recursiveDeleteIdMap], on the index: children first,
    then the element itself; the same early return on an empty identifier. *)
Fixpoint recursiveDeleteIdMap_fuel (fuel : nat) (h : list XMLElement)
    (m : gmap string addr) (elem : option addr) : option (gmap string addr) :=
  match fuel with
  | O => None
  | S fuel' =>
      match elem with
      | None => Some m
      | Some a =>
          n ← h !! a;
          if String.eqb (id n) "" then Some m
          else
            m' ← (fix each (cs : list addr) (m : gmap string addr)
                    : option (gmap string addr) :=
                    match cs with
                    | [] => Some m
                    | child :: cs' =>
                        m' ← recursiveDeleteIdMap_fuel fuel' h m (Some child);
                        each cs' m'
                    end) (children n) m;
            Some (delete (id n) m')
      end
  end.

(** [XmlDeleteCommand.Execute] *)
Definition XmlDeleteCommand_Execute (x : XmlEditor) (c : XmlDeleteCommand)
  : option (XmlEditor * XmlDeleteCommand) :=
  match idMap x !! xd_elementId c with
  | None => Some (x, c)
  | Some elem =>
  if decide (Some elem = root x) then Some (x, c) else
  let fuel := S (List.length (heap x)) in
  deletedIdMap ← recursiveSaveNodes_fuel fuel (heap x) ∅ (Some elem);
  e ← heap x !! elem;
  let parentElem := parent e in
  pn ← deref (heap x) parentElem;
  let index := index_by_addr (children pn) elem 0 in
  if index =? -1 then
    Some (x, {| xd_elementId := xd_elementId c; xd_deletedElem := Some elem;
                xd_parentElem := parentElem; xd_index := index;
                xd_success := false; xd_deletedIdMap := Some deletedIdMap |})
  else
  p ← parentElem;
  cs ← splice_out (children pn) index;
  let h := <[p := with_children pn cs]> (heap x) in
  m ← recursiveDeleteIdMap_fuel fuel h (idMap x) (Some elem);
  Some (with_isModified (with_idMap (with_heap x h) m) true,
        {| xd_elementId := xd_elementId c; xd_deletedElem := Some elem;
           xd_parentElem := parentElem; xd_index := index;
           xd_success := true; xd_deletedIdMap := Some deletedIdMap |})
  end.

(** [XmlDeleteCommand.Undo].  The loop over [deletedIdMap] that stores every
    saved pair into the index is the left-biased union of the two maps.
    [children[:index]] with [index] beyond the length is outside the model
    ([None]): Go allows it up to the capacity of the slice. *)
Definition XmlDeleteCommand_Undo (x : XmlEditor) (c : XmlDeleteCommand)
  : option (XmlEditor * XmlDeleteCommand) :=
  match xd_success c, xd_deletedElem c, xd_parentElem c, xd_deletedIdMap c with
  | true, Some deletedElem, Some p, Some deletedIdMap =>
      if xd_index c =? -1 then Some (x, c) else
      pn ← heap x !! p;
      cs ← splice_in (children pn) (xd_index c) deletedElem;
      let h := <[p := with_children pn cs]> (heap x) in
      Some (with_isModified
              (with_idMap (with_heap x h) (deletedIdMap ∪ idMap x)) true,
            {| xd_elementId := xd_elementId c;
               xd_deletedElem := xd_deletedElem c;
               xd_parentElem := xd_parentElem c; xd_index := xd_index c;
               xd_success := false; xd_deletedIdMap := xd_deletedIdMap c |})
  | _, _, _, _ => Some (x, c)
  end.

Definition XmlDeleteCommand_IsExecuted (c : XmlDeleteCommand) : bool :=
  xd_success c.

(** Dynamic dispatch through the [Command] interface. *)
Definition Command_Execute (x : XmlEditor) (cmd : Command)
  : option (XmlEditor * Command) :=
  match cmd with
  | CInsertBefore c =>
      '(x', c') ← InsertBeforeCommand_Execute x c; Some (x', CInsertBefore c')
  | CAppendChild c =>
      '(x', c') ← AppendChildCommand_Execute x c; Some (x', CAppendChild c')
  | CEditId c =>
      '(x', c') ← EditIdCommand_Execute x c; Some (x', CEditId c')
  | CEditText c =>
      '(x', c') ← EditTextCommand_Execute x c; Some (x', CEditText c')
  | CXmlDelete c =>
      '(x', c') ← XmlDeleteCommand_Execute x c; Some (x', CXmlDelete c')
  end.

Definition Command_Undo (x : XmlEditor) (cmd : Command)
  : option (XmlEditor * Command) :=
  match cmd with
  | CInsertBefore c =>
      '(x', c') ← InsertBeforeCommand_Undo x c; Some (x', CInsertBefore c')
  | CAppendChild c =>
      '(x', c') ← AppendChildCommand_Undo x c; Some (x', CAppendChild c')
  | CEditId c =>
      '(x', c') ← EditIdCommand_Undo x c; Some (x', CEditId c')
  | CEditText c =>
      '(x', c') ← EditTextCommand_Undo x c; Some (x', CEditText c')
  | CXmlDelete c =>
      '(x', c') ← XmlDeleteCommand_Undo x c; Some (x', CXmlDelete c')
  end.

Definition Command_IsExecuted (cmd : Command) : bool :=
  match cmd with
  | CInsertBefore c => InsertBeforeCommand_IsExecuted c
  | CAppendChild c => AppendChildCommand_IsExecuted c
  | CEditId c => EditIdCommand_IsExecuted c
  | CEditText c => EditTextCommand_IsExecuted c
  | CXmlDelete c => XmlDeleteCommand_IsExecuted c
  end.

(** [XmlEditor.ExecuteCommand] *)
Definition ExecuteCommand (x : XmlEditor) (command : Command)
  : option XmlEditor :=
  '(x1, command') ← Command_Execute x command;
  Some (with_isModified (with_stacks x1 (undoStack x1 ++ [command']) []) true).

(** [XmlEditor.Undo] *)
Definition Undo (x : XmlEditor) : option XmlEditor :=
  match last (undoStack x) with
  | None => Some x
  | Some cmd =>
      '(x1, cmd') ← Command_Undo x cmd;
      Some (with_stacks x1 (removelast (undoStack x1)) (redoStack x1 ++ [cmd']))
  end.

(** [XmlEditor.Redo] *)
Definition Redo (x : XmlEditor) : option XmlEditor :=
  match last (redoStack x) with
  | None => Some x
  | Some cmd =>
      '(x1, cmd') ← Command_Execute x cmd;
      Some (with_stacks x1 (undoStack x1 ++ [cmd']) (removelast (redoStack x1)))
  end.

(** [XmlEditor.IsModified] and [XmlEditor.MarkAsModified] *)
Definition IsModified (x : XmlEditor) : bool := isModified x.

Definition MarkAsModified (x : XmlEditor) (modified : bool) : XmlEditor :=
  with_isModified x modified.

(** The mutation entry points of [editor_cmd.go]; the observer notification
    they send when logging is on does not touch the document. *)
Definition InsertBefore (x : XmlEditor) (tag newId targetId text : string)
  : option XmlEditor :=
  ExecuteCommand x (CInsertBefore (NewInsertBeforeCommand tag newId targetId text)).

Definition AppendChild (x : XmlEditor) (tag newId parentId text : string)
  : option XmlEditor :=
  ExecuteCommand x (CAppendChild (NewAppendChildCommand tag newId parentId text)).

Definition EditId (x : XmlEditor) (oldId newId : string) : option XmlEditor :=
  ExecuteCommand x (CEditId (NewEditIdCommand oldId newId)).

Definition EditText (x : XmlEditor) (elementId text : string)
  : option XmlEditor :=
  ExecuteCommand x (CEditText (NewEditTextCommand elementId text)).

Definition Delete (x : XmlEditor) (elementId : string) : option XmlEditor :=
  ExecuteCommand x (CXmlDelete (NewXmlDeleteCommand elementId)).

(** [XmlEditor.buildIdMap]: the index of every element below [root] whose
    identifier is not empty, in depth-first order (a later element wins). *)
Fixpoint traverse_fuel (fuel : nat) (h : list XMLElement)
    (m : gmap string addr) (elem : addr) : option (gmap string addr) :=
  match fuel with
  | O => None
  | S fuel' =>
      n ← h !! elem;
      (fix each (cs : list addr) (m : gmap string addr)
         : option (gmap string addr) :=
         match cs with
         | [] => Some m
         | child :: cs' => m' ← traverse_fuel fuel' h m child; each cs' m'
         end) (children n)
        (if String.eqb (id n) "" then m else <[id n := elem]> m)
  end.

Definition buildIdMap (x : XmlEditor) (root : option addr)
  : option XmlEditor :=
  match root with
  | None => Some x
  | Some r =>
      m ← traverse_fuel (S (List.length (heap x))) (heap x) (idMap x) r;
      Some (with_idMap x m)
  end.

(** The elements of the tree below [elem], in document order. *)
Fixpoint subtree_fuel (fuel : nat) (h : list XMLElement) (elem : addr)
  : option (list addr) :=
  match fuel with
  | O => None
  | S fuel' =>
      n ← h !! elem;
      rest ← (fix each (cs : list addr) : option (list addr) :=
                match cs with
                | [] => Some []
                | child :: cs' =>
                    l ← subtree_fuel fuel' h child;
                    r ← each cs';
                    Some (l ++ r)
                end) (children n);
      Some (elem :: rest)
  end.

(** The elements of the document tree, from the root. *)
Definition tree_nodes (x : XmlEditor) : option (list addr) :=
  match root x with
  | None => Some []
  | Some r => subtree_fuel (S (List.length (heap x))) (heap x) r
  end.

(** The non-empty identifiers that occur in the document tree, with
    repetitions, in document order. *)
Definition tree_ids (x : XmlEditor) : option (list string) :=
  ns ← tree_nodes x;
  es ← mapM (λ a, heap x !! a) ns;
  Some (filter (λ i, i ≠ "") (id <$> es)).

(** The five mutation entry points of an XML document, as requests. *)
Inductive Mutation :=
  | MInsertBefore (tag newId targetId text : string)
  | MAppendChild (tag newId parentId text : string)
  | MEditId (oldId newId : string)
  | MEditText (elementId text : string)
  | MDelete (elementId : string).

(** The fresh command an entry point wraps. *)
Definition command_of (m : Mutation) : Command :=
  match m with
  | MInsertBefore tag newId targetId text =>
      CInsertBefore (NewInsertBeforeCommand tag newId targetId text)
  | MAppendChild tag newId parentId text =>
      CAppendChild (NewAppendChildCommand tag newId parentId text)
  | MEditId oldId newId => CEditId (NewEditIdCommand oldId newId)
  | MEditText elementId text => CEditText (NewEditTextCommand elementId text)
  | MDelete elementId => CXmlDelete (NewXmlDeleteCommand elementId)
  end.

(** The call of the entry point. *)
Definition mutate (x : XmlEditor) (m : Mutation) : option XmlEditor :=
  match m with
  | MInsertBefore tag newId targetId text =>
      InsertBefore x tag newId targetId text
  | MAppendChild tag newId parentId text => AppendChild x tag newId parentId text
  | MEditId oldId newId => EditId x oldId newId
  | MEditText elementId text => EditText x elementId text
  | MDelete elementId => Delete x elementId
  end.

End Xml.

(** ** Serialization and parsing ([xml_editor.go], lines 93-314) *)

Module XmlIO.
Import Xml.

(** [strings.Repeat("    ", indent)] *)
Fixpoint indentStr (indent : nat) : string :=
  match indent with
  | O => ""
  | S n => "    " +:+ indentStr n
  end.

(** The text [fmt.Sprintf] produces for one attribute: a space, the name, an
    equals sign and the escaped value between double quotes. *)
Definition attrStr (kv : string * string) : string :=
  " " +:+ kv.1 +:+ "=" +:+ String dquote (escapeXML kv.2 +:+ String dquote "").

Fixpoint concat_str (l : list string) : string :=
  match l with
  | [] => ""
  | s :: l' => s +:+ concat_str l'
  end.

Section Serialize.

(** Go iterates over a map in an order of its own choosing: [enum] is the
    order in which the serializer meets the attributes of an element. *)
Variable enum : gmap string string → list (string * string).

(** [XmlEditor.serializeNode]: the text it appends to the buffer.  The depth
    of the recursion is bounded by [fuel]; the indentation level, an [int]
    that grows by one per level, is a [nat]. *)
Fixpoint serializeNode_fuel (fuel : nat) (h : list XMLElement)
    (elem : option addr) (indent : nat) : option string :=
  match fuel with
  | O => None
  | S fuel' =>
      match elem with
      | None => Some ""
      | Some a =>
          e ← h !! a;
          let open := indentStr indent +:+ "<" +:+ tag e
                      +:+ concat_str (attrStr <$> enum (attrs e)) in
          if String.eqb (text e) "" && bool_decide (children e = []) then
            Some (open +:+ "/>" +:+ Go.nl)
          else
            kids ← (fix each (cs : list addr) : option string :=
                      match cs with
                      | [] => Some ""
                      | child :: cs' =>
                          s ← serializeNode_fuel fuel' h (Some child) (S indent);
                          r ← each cs';
                          Some (s +:+ r)
                      end) (children e);
            Some (open +:+ ">" +:+ Go.nl
                  +:+ (if String.eqb (text e) "" then ""
                       else indentStr (S indent) +:+ escapeXML (text e) +:+ Go.nl)
                  +:+ kids
                  +:+ indentStr indent +:+ "</" +:+ tag e +:+ ">" +:+ Go.nl)
      end
  end.

(** [xml.Header] *)
Definition Header : string :=
  "<?xml version=" +:+ String dquote ("1.0" +:+ String dquote
    (" encoding=" +:+ String dquote ("UTF-8" +:+ String dquote ("?>" +:+ Go.nl)))).

(** [XmlEditor.ToXML]: [None] is the error it returns for a nil root (or a
    recursion out of fuel, on a structure that is not a tree). *)
Definition ToXML (x : XmlEditor) : option string :=
  match root x with
  | None => None
  | Some r =>
      s ← serializeNode_fuel (S (List.length (heap x))) (heap x) (Some r) 0;
      Some (Header +:+ s)
  end.

End Serialize.

(** Whether [p] is a prefix of [s]. *)
Fixpoint has_prefix (p s : string) : bool :=
  match p, s with
  | EmptyString, _ => true
  | String a p', String b s' => Ascii.eqb a b && has_prefix p' s'
  | _, _ => false
  end.

(** Whether [p] occurs in [s]. *)
Fixpoint occurs (p s : string) : bool :=
  has_prefix p s ||
  match s with
  | EmptyString => false
  | String _ s' => occurs p s'
  end.

(** [XmlEditor.removeXMLComments]: every leftmost, shortest match of the
    regular expression [<!--[\s\S]*?-->] is deleted.  [skip] bytes of a match
    are still to be dropped; [inside] says that the closing [-->] of the
    match has not been reached. *)
Fixpoint removeComments (inside : bool) (skip : nat) (s : string) : string :=
  match s with
  | EmptyString => EmptyString
  | String c s' =>
      match skip with
      | S k => removeComments inside k s'
      | O =>
          if inside then
            if has_prefix "-->" s then removeComments false 2 s'
            else removeComments true 0 s'
          else if has_prefix "<!--" s && occurs "-->" (Go.sdrop 4 s) then
            removeComments true 3 s'
          else String c (removeComments false 0 s')
      end
  end.

Definition removeXMLComments (content : string) : string :=
  removeComments false 0 content.

(** *** The decoder of [encoding/xml]

    Modelled from the spec: [xml.NewDecoder] and [Decoder.Token] belong to
    Go's standard library, not to the repository ("stream-tokenize into
    start-tag/char-data/end-tag events").  The model covers a strict decoder
    on ASCII input without comments, directives, CDATA sections, numeric
    character references or namespace prefixes; what falls outside is
    [Unmodelled]. *)

Inductive Token :=
  | StartElement (name : string) (attr : list (string * string))
  | EndElement (name : string)
  | CharData (data : string)
  | ProcInst (target inst : string).

Inductive result (A : Type) :=
  | Ok (a : A)
  | SyntaxError
  | Unmodelled.
Arguments Ok {A} a.
Arguments SyntaxError {A}.
Arguments Unmodelled {A}.

Definition rbind {A B} (r : result A) (f : A → result B) : result B :=
  match r with
  | Ok a => f a
  | SyntaxError => SyntaxError
  | Unmodelled => Unmodelled
  end.

Definition in_range (lo hi : nat) (c : ascii) : bool :=
  (lo <=? nat_of_ascii c)%nat && (nat_of_ascii c <=? hi)%nat.

Definition is_letter (c : ascii) : bool :=
  in_range 65 90 c || in_range 97 122 c.

Definition is_digit (c : ascii) : bool := in_range 48 57 c.

(** [isNameByte] *)
Definition isNameByte (c : ascii) : bool :=
  is_letter c || is_digit c
  || Ascii.eqb c "_" || Ascii.eqb c ":" || Ascii.eqb c "." || Ascii.eqb c "-".

(** The ASCII characters that may start a name. *)
Definition isNameStart (c : ascii) : bool :=
  is_letter c || Ascii.eqb c "_" || Ascii.eqb c ":".

Definition non_ascii (c : ascii) : bool := (128 <=? nat_of_ascii c)%nat.

(** The white space [Decoder.space] skips. *)
Definition is_space (c : ascii) : bool :=
  Ascii.eqb c " " || in_range 9 10 c || in_range 13 13 c.

(** The longest prefix whose bytes satisfy [p], and the rest. *)
Fixpoint span (p : ascii → bool) (s : string) : string * string :=
  match s with
  | EmptyString => (EmptyString, EmptyString)
  | String c s' =>
      if p c then let '(a, b) := span p s' in (String c a, b)
      else (EmptyString, s)
  end.

Fixpoint contains_char (c : ascii) (s : string) : bool :=
  match s with
  | EmptyString => false
  | String b s' => Ascii.eqb b c || contains_char c s'
  end.

(** [Decoder.nsname], for names without a namespace prefix. *)
Definition nsname (s : string) : result (string * string) :=
  let '(n, rest) := span isNameByte s in
  match rest with
  | String c _ => if non_ascii c then Unmodelled else
      match n with
      | EmptyString => SyntaxError
      | String c0 _ =>
          if negb (isNameStart c0) then SyntaxError
          else if contains_char ":" n then Unmodelled
          else Ok (n, rest)
      end
  | EmptyString => SyntaxError
  end.

Definition space (s : string) : string := (span is_space s).2.

(** [Decoder.text]: character data up to the next [<], or an attribute value
    up to its closing quote, with the five predefined entities replaced.
    [b0] and [b1] are the two bytes read last; [skip] counts the bytes of an
    entity reference that are still to be passed over. *)
Fixpoint Decoder_text (quote : option ascii) (b0 b1 : ascii) (skip : nat) (s : string)
  : result (string * string) :=
  match s with
  | EmptyString =>
      match quote with Some _ => SyntaxError | None => Ok (EmptyString, EmptyString) end
  | String c s' =>
      match skip with
      | S k => Decoder_text quote b0 b1 k s'
      | O =>
          if Ascii.eqb b0 "]" && Ascii.eqb b1 "]" && Ascii.eqb c ">" then SyntaxError
          else if Ascii.eqb c "<" then
            match quote with Some _ => SyntaxError | None => Ok (EmptyString, s) end
          else if bool_decide (quote = Some c) then Ok (EmptyString, s')
          else if Ascii.eqb c "&" then
            let emit (r : ascii) (n : nat) :=
              rbind (Decoder_text quote zero zero n s') (λ '(d, rest), Ok (String r d, rest)) in
            if has_prefix "lt;" s' then emit "<"%char 3%nat
            else if has_prefix "gt;" s' then emit ">"%char 3%nat
            else if has_prefix "amp;" s' then emit "&"%char 4%nat
            else if has_prefix "apos;" s' then emit "'"%char 5%nat
            else if has_prefix "quot;" s' then emit dquote 5%nat
            else if has_prefix "#" s' then Unmodelled
            else SyntaxError
          else if non_ascii c then Unmodelled
          else if in_range 13 13 c then
            rbind (Decoder_text quote b1 c 0 s') (λ '(d, rest), Ok (String Go.newline d, rest))
          else if in_range 13 13 b1 && in_range 10 10 c then Decoder_text quote b1 c 0 s'
          else if negb (in_range 32 127 c || in_range 9 10 c) then SyntaxError
          else rbind (Decoder_text quote b1 c 0 s') (λ '(d, rest), Ok (String c d, rest))
      end
  end.

(** The attribute loop of [Decoder.rawToken]: the attributes in the order
    they are written, whether the tag is self-closing, and the rest.  Every
    attribute consumes input, so [fuel], the length of the input, suffices. *)
Fixpoint attributes (fuel : nat) (s : string)
  : result (list (string * string) * bool * string) :=
  match fuel with
  | O => Unmodelled
  | S fuel' =>
      match space s with
      | EmptyString => SyntaxError
      | String c s1 =>
          if Ascii.eqb c "/" then
            match s1 with
            | String c1 s2 => if Ascii.eqb c1 ">" then Ok ([], true, s2) else SyntaxError
            | EmptyString => SyntaxError
            end
          else if Ascii.eqb c ">" then Ok ([], false, s1)
          else
            rbind (nsname (String c s1)) (λ '(name, s2),
            match space s2 with
            | String c2 s3 =>
                if negb (Ascii.eqb c2 "=") then SyntaxError else
                match space s3 with
                | String q s4 =>
                    if Ascii.eqb q dquote || Ascii.eqb q "'" then
                      rbind (Decoder_text (Some q) zero zero 0 s4) (λ '(v, s5),
                      rbind (attributes fuel' s5) (λ '(l, empty, s6),
                      Ok ((name, v) :: l, empty, s6)))
                    else SyntaxError
                | EmptyString => SyntaxError
                end
            | EmptyString => SyntaxError
            end)
      end
  end.

(** The instruction data up to [?>]. *)
Fixpoint until_pi_end (s : string) : result (string * string) :=
  match s with
  | EmptyString => SyntaxError
  | String c s' =>
      if has_prefix "?>" s then Ok (EmptyString, Go.sdrop 1 s')
      else rbind (until_pi_end s') (λ '(d, rest), Ok (String c d, rest))
  end.

(** The content of the declaration that [xml.Header] carries. *)
Definition header_inst : string :=
  "version=" +:+ String dquote ("1.0" +:+ String dquote
    (" encoding=" +:+ String dquote ("UTF-8" +:+ String dquote ""))).

(** The state of a decoder: the input not yet read, the name of the
    self-closing element whose end is still to be reported, and the names of
    the open elements. *)
Record Decoder := mkDecoder {
  input : string;
  needClose : option string;
  stk : list string
}.

Definition NewDecoder (content : string) : Decoder :=
  {| input := content; needClose := None; stk := [] |}.

Inductive TokenResult :=
  | Tok (t : Token) (d : Decoder)
  | EOF
  | TokError
  | TokUnmodelled.

Definition lift {A} (r : result A) (k : A → TokenResult) : TokenResult :=
  match r with
  | Ok a => k a
  | SyntaxError => TokError
  | Unmodelled => TokUnmodelled
  end.

(** The end of an element must name the innermost open element. *)
Definition popElement (d : Decoder) (name rest : string) : TokenResult :=
  match stk d with
  | top :: stk' =>
      if String.eqb top name
      then Tok (EndElement name) {| input := rest; needClose := None; stk := stk' |}
      else TokError
  | [] => TokError
  end.

(** [Decoder.Token] *)
Definition Decoder_Token (d : Decoder) : TokenResult :=
  match needClose d with
  | Some name => popElement d name (input d)
  | None =>
      match input d with
      | EmptyString => match stk d with [] => EOF | _ => TokError end
      | String c s1 =>
          if negb (Ascii.eqb c "<") then
            lift (Decoder_text None zero zero 0 (input d)) (λ '(data, rest),
              Tok (CharData data) {| input := rest; needClose := None; stk := stk d |})
          else
            match s1 with
            | EmptyString => TokError
            | String c1 s2 =>
                if Ascii.eqb c1 "/" then
                  lift (nsname s2) (λ '(name, s3),
                    match space s3 with
                    | String c3 s4 =>
                        if Ascii.eqb c3 ">" then popElement d name s4 else TokError
                    | EmptyString => TokError
                    end)
                else if Ascii.eqb c1 "?" then
                  lift (nsname s2) (λ '(target, s3),
                  lift (until_pi_end (space s3)) (λ '(inst, s4),
                    if String.eqb target "xml" && negb (String.eqb inst header_inst)
                    then TokUnmodelled
                    else Tok (ProcInst target inst)
                           {| input := s4; needClose := None; stk := stk d |}))
                else if Ascii.eqb c1 "!" then TokUnmodelled
                else
                  lift (nsname s1) (λ '(name, s3),
                  lift (attributes (String.length s3) s3) (λ '(attr, empty, s4),
                    Tok (StartElement name attr)
                        {| input := s4;
                           needClose := if empty then Some name else None;
                           stk := name :: stk d |}))
            end
      end
  end.

(** [strings.TrimSpace] on ASCII text. *)
Definition is_white (c : ascii) : bool :=
  Ascii.eqb c " " || in_range 9 13 c.

Fixpoint TrimLeft (s : string) : string :=
  match s with
  | EmptyString => EmptyString
  | String c s' => if is_white c then TrimLeft s' else s
  end.

Fixpoint TrimRight (s : string) : string :=
  match s with
  | EmptyString => EmptyString
  | String c s' =>
      match TrimRight s' with
      | EmptyString => if is_white c then EmptyString else String c EmptyString
      | r => String c r
      end
  end.

Definition TrimSpace (s : string) : string := TrimRight (TrimLeft s).

(** The variables of the parsing loop, with the heap of the elements
    allocated so far. *)
Record ParseState := mkParseState {
  pheap : list XMLElement;
  proot : option addr;
  currentParent : option addr
}.

(** The body of the loop of [parseXMLContent] for one token. *)
Definition handle (t : Token) (st : ParseState) : option ParseState :=
  match t with
  | StartElement name attr =>
      let '(m, i) := foldl (λ '(m, i) '(k, v),
                              (<[k := v]> m, if String.eqb k "id" then v else i))
                           (∅, "") attr in
      let elem := {| tag := name; id := i; attrs := m; text := "";
                     parent := currentParent st; children := [] |} in
      let a := List.length (pheap st) in
      let h := pheap st ++ [elem] in
      match currentParent st with
      | None =>
          Some {| pheap := h; proot := Some a; currentParent := Some a |}
      | Some p =>
          pn ← h !! p;
          Some {| pheap := <[p := with_children pn (children pn ++ [a])]> h;
                  proot := proot st; currentParent := Some a |}
      end
  | CharData data =>
      let trimmed := TrimSpace data in
      match currentParent st with
      | Some p =>
          if String.eqb trimmed "" then Some st else
          pn ← pheap st !! p;
          Some {| pheap := <[p := with_text pn trimmed]> (pheap st);
                  proot := proot st; currentParent := currentParent st |}
      | None => Some st
      end
  | EndElement _ =>
      match currentParent st with
      | Some p =>
          pn ← pheap st !! p;
          Some {| pheap := pheap st; proot := proot st;
                  currentParent := parent pn |}
      | None => Some st
      end
  | ProcInst _ _ => Some st
  end.

(** What [parseXMLContent] returns: a root with the heap it points into, or
    an error. *)
Inductive Parsed :=
  | ParsedRoot (h : list XMLElement) (r : addr)
  | ParseError.

(** The loop of [parseXMLContent]; [None] when it runs out of [fuel], meets
    input the decoder model does not cover, or dereferences a dangling
    pointer. *)
Fixpoint parse_loop (fuel : nat) (d : Decoder) (st : ParseState)
  : option Parsed :=
  match fuel with
  | O => None
  | S fuel' =>
      match Decoder_Token d with
      | EOF =>
          match proot st with
          | Some r => Some (ParsedRoot (pheap st) r)
          | None => Some ParseError
          end
      | TokError => Some ParseError
      | TokUnmodelled => None
      | Tok t d' => st' ← handle t st; parse_loop fuel' d' st'
      end
  end.

(** [XmlEditor.parseXMLContent].  Every token but the end of a self-closing
    element consumes input, so twice the length of the content, and two, is
    fuel enough. *)
Definition parseXMLContent (content : string) : option Parsed :=
  let content := removeXMLComments content in
  if String.eqb content "" then Some ParseError else
  parse_loop (2 * String.length content + 2) (NewDecoder content)
    {| pheap := []; proot := None; currentParent := None |}.

(** *** Trees as values *)

(** An element with what the round-trip law compares: tag, attributes, text
    and the children in order. *)
#[local] Unset Elimination Schemes.
Inductive Tree :=
  | Node (tag : string) (attrs : gmap string string) (text : string)
         (kids : list Tree).
#[local] Set Elimination Schemes.

(** The tree below the element at [a]. *)
Fixpoint tree_at_fuel (fuel : nat) (h : list XMLElement) (a : addr)
  : option Tree :=
  match fuel with
  | O => None
  | S fuel' =>
      e ← h !! a;
      kids ← (fix each (cs : list addr) : option (list Tree) :=
                match cs with
                | [] => Some []
                | c :: cs' =>
                    t ← tree_at_fuel fuel' h c;
                    ts ← each cs';
                    Some (t :: ts)
                end) (children e);
      Some (Node (tag e) (attrs e) (text e) kids)
  end.

Definition tree_at (h : list XMLElement) (a : addr) : option Tree :=
  tree_at_fuel (S (List.length h)) h a.

Definition tree_of (x : XmlEditor) : option Tree :=
  r ← root x; tree_at (heap x) r.


End XmlIO.


(** ** The vocabulary of the round-trip law *)

Module XmlLaw.
Import Xml XmlIO.

(** Every byte of the string satisfies [p]. *)
Fixpoint all_chars (p : ascii → bool) (s : string) : bool :=
  match s with
  | EmptyString => true
  | String c s' => p c && all_chars p s'
  end.

(** The white space the serializer writes: spaces and newlines. *)
Definition is_ws (c : ascii) : bool := Ascii.eqb c " " || Ascii.eqb c Go.newline.

(** The string without its leading white space. *)
Fixpoint lstrip (s : string) : string :=
  match s with
  | EmptyString => EmptyString
  | String c s' => if is_ws c then lstrip s' else s
  end.

(** The leading white space of the string. *)
Fixpoint lead (s : string) : string :=
  match s with
  | EmptyString => EmptyString
  | String c s' => if is_ws c then String c (lead s') else EmptyString
  end.

(** A printable ASCII byte. *)
Definition plain (c : ascii) : bool := in_range 32 126 c.

(** The five characters [escapeXML] rewrites. *)
Definition special (c : ascii) : bool :=
  Ascii.eqb c "&" || Ascii.eqb c "<" || Ascii.eqb c ">"
  || Ascii.eqb c dquote || Ascii.eqb c "'".

(** The bytes of the names the law is stated for: ASCII letters, digits,
    underscore, dot and hyphen. *)
Definition name_char (c : ascii) : bool :=
  is_letter c || is_digit c
  || Ascii.eqb c "_" || Ascii.eqb c "." || Ascii.eqb c "-".

(** A name that starts with a letter or an underscore. *)
Definition xml_name (s : string) : bool :=
  match s with
  | EmptyString => false
  | String c s' => (is_letter c || Ascii.eqb c "_") && all_chars name_char s'
  end.

(** An attribute as the serializer can write it and the decoder read it. *)
Definition wf_attr (kv : string * string) : bool :=
  xml_name kv.1 && all_chars plain kv.2.

Section TreeText.

Variable enum : gmap string string → list (string * string).

(** The text of an element from its [<] to the [>] that ends it, at
    indentation level [n]. *)
Fixpoint body (n : nat) (t : Tree) : string :=
  match t with
  | Node tg ats tx kids =>
      String "<" (tg +:+ concat_str (attrStr <$> enum ats)
      +:+ (if String.eqb tx "" && bool_decide (kids = []) then "/>" else ">")
      +:+ (if String.eqb tx "" && bool_decide (kids = []) then ""
           else Go.nl
                +:+ (if String.eqb tx "" then ""
                     else indentStr (S n) +:+ escapeXML tx +:+ Go.nl)
                +:+ (fix each (ks : list Tree) : string :=
                       match ks with
                       | [] => ""
                       | k :: ks' =>
                           (indentStr (S n) +:+ body (S n) k +:+ Go.nl)
                           +:+ each ks'
                       end) kids
                +:+ indentStr n +:+ String "<" (String "/" (tg +:+ ">"))))
  end.

(** The lines of the children of an element whose level is [n]. *)
Fixpoint kids_str (n : nat) (ks : list Tree) : string :=
  match ks with
  | [] => ""
  | k :: ks' => (indentStr (S n) +:+ body (S n) k +:+ Go.nl) +:+ kids_str n ks'
  end.

End TreeText.

(** The number of elements of a tree. *)
Fixpoint size (t : Tree) : nat :=
  match t with
  | Node _ _ _ kids =>
      S ((fix sum (ks : list Tree) : nat :=
            match ks with
            | [] => O
            | k :: ks' => (size k + sum ks')%nat
            end) kids)
  end.

Fixpoint sizes (ks : list Tree) : nat :=
  match ks with
  | [] => O
  | k :: ks' => (size k + sizes ks')%nat
  end.

(** The addresses of the children when the first one is allocated at [a]:
    the parser allocates the elements in document order. *)
Fixpoint child_addrs (a : addr) (ks : list Tree) : list addr :=
  match ks with
  | [] => []
  | k :: ks' => a :: child_addrs (a + size k)%nat ks'
  end.

(** The elements the parser allocates for a tree whose root is placed at
    address [a] below the parent [par]. *)
Fixpoint alloc (a : addr) (par : option addr) (t : Tree) : list XMLElement :=
  match t with
  | Node tg ats tx kids =>
      {| tag := tg; id := default "" (ats !! "id"); attrs := ats; text := tx;
         parent := par; children := child_addrs (S a) kids |}
      :: (fix go (b : addr) (ks : list Tree) : list XMLElement :=
            match ks with
            | [] => []
            | k :: ks' => alloc b (Some a) k ++ go (b + size k)%nat ks'
            end) (S a) kids
  end.

Fixpoint alloc_list (b : addr) (par : option addr) (ks : list Tree)
  : list XMLElement :=
  match ks with
  | [] => []
  | k :: ks' => alloc b par k ++ alloc_list (b + size k)%nat par ks'
  end.

(** The trees the amended round-trip law speaks of: names are ASCII names,
    attribute values and texts are printable ASCII, and a text is one that
    [TrimSpace] leaves as it is. *)
Fixpoint wf_tree (t : Tree) : bool :=
  match t with
  | Node tg ats tx kids =>
      xml_name tg && forallb wf_attr (map_to_list ats)
      && all_chars plain tx && String.eqb (TrimSpace tx) tx
      && forallb wf_tree kids
  end.

(** One turn of the loop of [parseXMLContent] that reads a token. *)
Definition step (c : Decoder * ParseState) : option (Decoder * ParseState) :=
  match Decoder_Token c.1 with
  | Tok t d' => st' ← handle t c.2; Some (d', st')
  | _ => None
  end.

Inductive nsteps : nat → Decoder * ParseState → Decoder * ParseState → Prop :=
  | nsteps_O c : nsteps O c c
  | nsteps_S n c c' c'' : step c = Some c' → nsteps n c' c'' → nsteps (S n) c c''.

(** At most [k] turns lead from [c] to [c']. *)
Definition steps_le (k : nat) (c c' : Decoder * ParseState) : Prop :=
  ∃ j, (j ≤ k)%nat ∧ nsteps j c c'.

(** The heap after the element at [a] has been appended to the children of
    the current parent. *)
Definition attach (h : list XMLElement) (cur : option addr) (a : addr)
  : list XMLElement :=
  match cur with
  | Some p =>
      match h !! p with
      | Some pn => <[p := with_children pn (children pn ++ [a])]> h
      | None => h
      end
  | None => h
  end.

(** A configuration of the parsing loop. *)
Definition cfg (s : string) (nc : option string) (s0 : list string)
    (h : list XMLElement) (r cur : option addr) : Decoder * ParseState :=
  ({| input := s; needClose := nc; stk := s0 |},
   {| pheap := h; proot := r; currentParent := cur |}).

(** The element a start tag allocates. *)
Definition fresh_elem (tg : string) (ats : gmap string string)
    (cur : option addr) : XMLElement :=
  {| tag := tg; id := default "" (ats !! "id"); attrs := ats; text := "";
     parent := cur; children := [] |}.

(** An element under construction: its children so far are [cs]. *)
Definition partial_elem (tg : string) (ats : gmap string string) (tx : string)
    (cur : option addr) (cs : list addr) : XMLElement :=
  {| tag := tg; id := default "" (ats !! "id"); attrs := ats; text := tx;
     parent := cur; children := cs |}.

(** What the parser does on the serialized form of the tree [t]: from any
    state, it allocates the elements of [t] below the current parent and comes
    back to that parent. *)
Definition parses (enum : gmap string string → list (string * string))
    (t : Tree) : Prop :=
  ∀ n s rest s0 h r cur,
    wf_tree t = true →
    lstrip s = body enum n t +:+ rest →
    (∀ p, cur = Some p → (p < List.length h)%nat) →
    steps_le (5 * size t)
      (cfg s None s0 h r cur)
      (cfg rest None s0
           (attach h cur (List.length h) ++ alloc (List.length h) cur t)
           (match cur with None => Some (List.length h) | Some _ => r end)
           cur).

(** Every [<] of the string is followed by a byte other than [!]. *)
Fixpoint lt_ok (s : string) : bool :=
  match s with
  | EmptyString => true
  | String c s' =>
      (if Ascii.eqb c "<"
       then match s' with
            | String d _ => negb (Ascii.eqb d "!")
            | EmptyString => false
            end
       else true) && lt_ok s'
  end.

Definition not_lt (c : ascii) : bool := negb (Ascii.eqb c "<").

End XmlLaw.

(** ** Sample documents *)

Module Samples.
Import Xml XmlIO.

(** An element as the parser builds it: its [id] attribute, when it has one,
    is its identifier. *)
Definition elem (tag id text : string) (parent : option addr)
    (children : list addr) : XMLElement :=
  {| tag := tag; id := id;
     attrs := if decide (id = "") then ∅ else {["id" := id]};
     text := text; parent := parent; children := children |}.

Definition document (h : list XMLElement) (m : gmap string addr) : XmlEditor :=
  {| heap := h; root := Some 0%nat; idMap := m; isModified := false;
     undoStack := []; redoStack := [] |}.

(** [<root id="root"/>] *)
Definition doc_root : XmlEditor :=
  document [elem "root" "root" "" None []] {["root" := 0%nat]}.

(** [<root id="root">old</root>] *)
Definition doc_titled : XmlEditor :=
  document [elem "root" "root" "old" None []] {["root" := 0%nat]}.

(** [<root id="root"><t id="t"/></root>] *)
Definition doc_leaf : XmlEditor :=
  document [elem "root" "root" "" None [1%nat];
            elem "t" "t" "" (Some 0%nat) []]
           {["root" := 0%nat; "t" := 1%nat]}.

(** [<root id="root"><a id="a"><c id="c"/></a></root>] *)
Definition doc_chain : XmlEditor :=
  document [elem "root" "root" "" None [1%nat];
            elem "a" "a" "" (Some 0%nat) [2%nat];
            elem "c" "c" "" (Some 1%nat) []]
           {["root" := 0%nat; "a" := 1%nat; "c" := 2%nat]}.

(** [<root id="root"><a id="a"><b><c id="c"/></b></a></root>] *)
Definition doc_gap : XmlEditor :=
  document [elem "root" "root" "" None [1%nat];
            elem "a" "a" "" (Some 0%nat) [2%nat];
            elem "b" "" "" (Some 1%nat) [3%nat];
            elem "c" "c" "" (Some 2%nat) []]
           {["root" := 0%nat; "a" := 1%nat; "c" := 3%nat]}.

(** The three successful commands of the scenario of C8. *)
Definition duplicate_scenario : option XmlEditor :=
  x ← Delete doc_chain "a";
  x ← AppendChild x "x" "" "root" "";
  EditId x "" "c".


End Samples.

(** ** More of the text buffer: [AppendCommand] and the line algebra of an
    insert ([commands.go], lines 16-69 and 96-146) *)

Module TextMore.
Import Text.

(** [strings.Join(elems, sep)] *)
Fixpoint Join (elems : list string) (sep : string) : string :=
  match elems with
  | [] => ""
  | s :: rest =>
      match rest with
      | [] => s
      | _ :: _ => s +:+ sep +:+ Join rest sep
      end
  end.

Record AppendCommand := mkAppendCommand {
  app_text : string;
  app_prevLines : list string;
  app_executed : bool
}.

Definition NewAppendCommand (text : string) : AppendCommand :=
  {| app_text := text; app_prevLines := []; app_executed := false |}.

(** [AppendCommand.Execute]: [prevLines] is a fresh copy of the lines, so the
    [append] that follows cannot reach it. *)
Definition AppendCommand_Execute (ed : TextEditor) (cmd : AppendCommand)
  : TextEditor * AppendCommand :=
  ({| lines := lines ed ++ [app_text cmd]; isModified := true |},
   {| app_text := app_text cmd; app_prevLines := lines ed;
      app_executed := true |}).

(** [AppendCommand.Undo] *)
Definition AppendCommand_Undo (ed : TextEditor) (cmd : AppendCommand)
  : TextEditor * AppendCommand :=
  if negb (app_executed cmd) then (ed, cmd)
  else ({| lines := app_prevLines cmd; isModified := true |}, cmd).

Definition AppendCommand_IsExecuted (cmd : AppendCommand) : bool :=
  app_executed cmd.

(** The lines that [InsertCommand.Execute] puts in the place of the target
    line: [pre] and [post] are the two parts of the target line around the
    column, [parts] is the text split at its newlines. *)
Definition inserted (pre text post : string) : list string :=
  let parts := Go.Split_nl text in
  if Go.len parts =? 1 then [pre +:+ text +:+ post]
  else
    [pre +:+ default "" (parts !! 0%nat)]
    ++ take (Z.to_nat (Go.len parts - 1 - 1)) (drop 1 parts)
    ++ [default "" (parts !! Z.to_nat (Go.len parts - 1)) +:+ post].

(** The content of a buffer: its lines joined by newlines. *)
Definition content (ls : list string) : string := Join ls Go.nl.

End TextMore.

(** ** Showing a range of lines ([editor_cmd.go], lines 65-132) *)

Module EditorCmd.
Import Text XmlIO.

(** [fmt.Sprintf("%d", n)] *)
Definition Itoa (n : Z) : string := NilZero.string_of_int (Z.to_int n).






End EditorCmd.

(** ** The helpers of the spell checker ([unnamed/part_000], lines 65-78 and
    174-193) *)

Module SpellCheck.
Import XmlIO.

(** The loop of [ConvertOffsetToLineCol]: [n] bytes are still to be read. *)
Fixpoint scan (n : nat) (text : string) (row col : Z) : Z * Z :=
  match n, text with
  | S n', String c text' =>
      if Ascii.eqb c Go.newline then scan n' text' (Go.add row 1) 1
      else scan n' text' row (Go.add col 1)
  | _, _ => (row, col)
  end.

(** [ConvertOffsetToLineCol]: the loop runs while [i < offset] and
    [i < len(text)]. *)
Definition ConvertOffsetToLineCol (text : string) (offset : Z) : Z * Z :=
  scan (Z.to_nat offset) text 1 1.

(** The loop of [splitEnglishWords], byte by byte: a byte of a character
    outside ASCII is no letter, and the branch it takes does nothing when
    repeated, so that the bytes of one character act as the character. *)
Fixpoint split_loop (s cur : string) (out : list string) : list string :=
  match s with
  | EmptyString => if String.eqb cur "" then out else out ++ [cur]
  | String r s' =>
      if is_letter r then split_loop s' (cur +:+ String r "") out
      else if String.eqb cur "" then split_loop s' cur out
      else split_loop s' "" (out ++ [cur])
  end.

Definition splitEnglishWords (s : string) : list string :=
  split_loop s "" [].

(** The letters of a string, in order. *)
Fixpoint letters (s : string) : string :=
  match s with
  | EmptyString => EmptyString
  | String c s' => if is_letter c then String c (letters s') else letters s'
  end.

End SpellCheck.

(** ** The vocabulary of the laws of the XML commands *)

Module XmlMore.
Import Xml.

(** The identifier of the element at [a]. *)
Definition id_at (h : list XMLElement) (a : addr) : string :=
  default "" (id <$> h !! a).



(** The index that results from entering the elements of [l], in order,
    under their identifiers; an element without identifier is passed over. *)
Definition index_of (h : list XMLElement) (l : list addr)
    (m : gmap string addr) : gmap string addr :=
  foldl (λ m a, if String.eqb (id_at h a) "" then m else <[id_at h a := a]> m)
        m l.

(** The first element of [l] that carries the identifier [t]. *)
Definition first_with_id (h : list XMLElement) (t : string) (l : list addr)
  : option addr :=
  head (filter (λ a, id <$> h !! a = Some t) l).

(** The elements of the tree below [elem], in document order. *)
Definition subtree (x : XmlEditor) (elem : addr) : option (list addr) :=
  subtree_fuel (S (List.length (heap x))) (heap x) elem.

End XmlMore.

(** ** Opening and saving an XML document, and its log marker
    ([xml_editor.go], lines 55-91, 216-226 and 432-479) *)

Module XmlFile.
Import Xml XmlIO XmlLaw TextMore.

(** The fields of [XmlEditor] that the commands leave alone, around the part
    of it they work on ([core]). *)
Record XmlEditorFile := mkXmlEditorFile {
  core : XmlEditor;
  filePath : string;
  lines : list string;
  logEnabled : bool
}.

(** [strings.TrimSpace]: on a string of ASCII bytes it takes the white space
    off both ends.  On other bytes Go goes by Unicode characters: such a
    string is outside the model ([None]). *)
Definition strings_TrimSpace (s : string) : option string :=
  if all_chars (λ c, negb (non_ascii c)) s then Some (TrimSpace s) else None.

(** [&XMLElement{tag: "root", id: "root", attrs: {"id": "root"}}] *)
Definition default_root : XMLElement :=
  {| tag := "root"; id := "root"; attrs := {["id" := "root"]}; text := "";
     parent := None; children := [] |}.

(** The root that stands in for a document that does not parse. *)
Definition failed_root : XMLElement :=
  {| tag := "<解析失败>"; id := "no-id"; attrs := ∅; text := "";
     parent := None; children := [] |}.

(** An editor that no command has touched. *)
Definition untouched (h : list XMLElement) (r : addr) : XmlEditor :=
  {| heap := h; root := Some r; idMap := ∅; isModified := false;
     undoStack := []; redoStack := [] |}.

(** [NewXmlEditor].  The local [logEnabled] decides whether the first line is
    cut off the content; the field of that name is [false] either way. *)
Definition NewXmlEditor (path content : string) : option XmlEditorFile :=
  let lines0 := Go.Split_nl content in
  firstLine ← (if 0 <? Go.len lines0
               then l ← Go.index lines0 0; strings_TrimSpace l
               else Some "");
  let logEnabled := occurs "# log" firstLine in
  content ← (if logEnabled
             then rest ← Go.slice_from lines0 1; Some (Join rest Go.nl)
             else Some content);
  c ← (if negb (String.eqb content "") then
         p ← parseXMLContent content;
         match p with
         | ParseError => Some (untouched [failed_root] 0)
         | ParsedRoot h r => buildIdMap (untouched h r) (Some r)
         end
       else Some (untouched [default_root] 0));
  Some {| core := c; filePath := path; lines := lines0; logEnabled := false |}.

Section Content.

Variable enum : gmap string string → list (string * string).

(** [XmlEditor.GetContent]: the serialized tree, the empty string when
    [ToXML] reports that there is no root, and the log marker on a line of
    its own in front when logging is on. *)
Definition GetContent (f : XmlEditorFile) : option string :=
  content ← match root (core f) with
            | None => Some ""
            | Some _ => ToXML enum (core f)
            end;
  Some (if logEnabled f then "# log" +:+ Go.nl +:+ content else content).

End Content.

Definition set_lines (f : XmlEditorFile) (ls : list string) : XmlEditorFile :=
  {| core := core f; filePath := filePath f; lines := ls;
     logEnabled := logEnabled f |}.

Definition mark_modified (f : XmlEditorFile) : XmlEditorFile :=
  {| core := MarkAsModified (core f) true; filePath := filePath f;
     lines := lines f; logEnabled := logEnabled f |}.

(** [XmlEditor.addLogMarkerInMemory] *)
Definition addLogMarkerInMemory (f : XmlEditorFile) : option XmlEditorFile :=
  if Go.len (lines f) =? 0 then Some (mark_modified (set_lines f ["# log"]))
  else
    l ← Go.index (lines f) 0;
    firstLine ← strings_TrimSpace l;
    if negb (String.eqb firstLine "# log")
    then Some (mark_modified (set_lines f ("# log" :: lines f)))
    else Some (mark_modified f).

(** [XmlEditor.removeLogMarkerInMemory] *)
Definition removeLogMarkerInMemory (f : XmlEditorFile)
  : option XmlEditorFile :=
  if Go.len (lines f) =? 0 then Some f
  else
    l ← Go.index (lines f) 0;
    firstLine ← strings_TrimSpace l;
    if String.eqb firstLine "# log"
    then rest ← Go.slice_from (lines f) 1;
         Some (mark_modified (set_lines f rest))
    else Some f.

(** [XmlEditor.SetLogEnabled] *)
Definition SetLogEnabled (f : XmlEditorFile) (enabled : bool)
  : option XmlEditorFile :=
  let oldEnabled := logEnabled f in
  let f := {| core := core f; filePath := filePath f; lines := lines f;
              logEnabled := enabled |} in
  if Bool.eqb oldEnabled enabled then Some f
  else if enabled then addLogMarkerInMemory f
  else removeLogMarkerInMemory f.

Definition IsLogEnabled (f : XmlEditorFile) : bool := logEnabled f.

Definition GetFilePath (f : XmlEditorFile) : string := filePath f.

(** The first line of the serialized text. *)
Definition decl : string := Go.stake 38 Header.

End XmlFile.

(** ** The editing-time statistics ([statistics.go], lines 14-173) *)

Module Statistics.
Import EditorCmd.

(** A [time.Duration] is an [int64] count of nanoseconds. *)
Definition Second : Z := 1000000000.
Definition Millisecond : Z := 1000000.
Definition minDuration : Z := Go.int_min.
Definition maxDuration : Z := Go.int_max.

(** The conversion [uint64(x)]. *)
Definition uint64 (x : Z) : Z := x mod 2 ^ 64.

(** [lessThanHalf(x, y)] of package [time]: [uint64(x)+uint64(x) < uint64(y)] *)
Definition lessThanHalf (x y : Z) : bool :=
  uint64 (uint64 x + uint64 x) <? uint64 y.

(** [Duration.Round] of package [time]: to the nearest multiple of [m], a
    half away from zero, and to the nearest end of the range on overflow. *)
Definition Round (d m : Z) : Z :=
  if m <=? 0 then d else
  let r := Z.rem d m in
  if d <? 0 then
    let r := Go.sub 0 r in
    if lessThanHalf r m then Go.add d r
    else
      let d1 := Go.add (Go.sub d m) r in
      if d1 <? d then d1 else minDuration
  else
    if lessThanHalf r m then Go.sub d r
    else
      let d1 := Go.sub (Go.add d m) r in
      if d <? d1 then d1 else maxDuration.

(** [int(d.Seconds())].  [Seconds] adds, as [float64]s, the whole seconds
    and the remaining nanoseconds over 1e9: the whole seconds are below 2^53
    and so exact, the fraction is below 1 in size and far from rounding the
    sum to the next integer, and the conversion cuts it off. *)
Definition whole_seconds (d : Z) : Z := Z.quot d Second.

(** [formatDuration] *)
Definition formatDuration (d : Z) : string :=
  let totalSeconds := whole_seconds (Round d Second) in
  if totalSeconds <? 0 then "0秒" else
  let secondsPerMinute := 60 in
  let secondsPerHour := 60 * secondsPerMinute in
  let secondsPerDay := 24 * secondsPerHour in
  if totalSeconds <? secondsPerMinute then Itoa totalSeconds +:+ "秒"
  else if totalSeconds <? secondsPerHour then
    Itoa (Z.quot totalSeconds secondsPerMinute) +:+ "分钟"
  else if totalSeconds <? secondsPerDay then
    Itoa (Z.quot totalSeconds secondsPerHour) +:+ "小时"
    +:+ Itoa (Z.quot (Z.rem totalSeconds secondsPerHour) secondsPerMinute)
    +:+ "分钟"
  else
    Itoa (Z.quot totalSeconds secondsPerDay) +:+ "天"
    +:+ Itoa (Z.quot (Z.rem totalSeconds secondsPerDay) secondsPerHour)
    +:+ "小时".

(** A [time.Time] built by [time.UnixMilli] is a count of milliseconds;
    [Time.Sub] is the difference in nanoseconds, cut to the range of a
    [Duration]. *)
Definition Sub (t u : Z) : Z :=
  let d := (t - u) * Millisecond in
  if d <? minDuration then minDuration
  else if maxDuration <? d then maxDuration else d.

Record FileTimer := mkFileTimer {
  StartTime : Z;
  TotalTime : Z;
  IsActive : bool;
  IsClosed : bool
}.

(** [warnCh] is a channel with room for ten warnings: the list of those not
    read yet. *)
Record Statistics := mkStatistics {
  timers : gmap string FileTimer;
  warnCh : list string
}.

Definition NewStatistics : Statistics := {| timers := ∅; warnCh := [] |}.

(** The fields of [common.WorkspaceEvent] the module reads; [EventType] is
    the field [Type]. *)
Record WorkspaceEvent := mkWorkspaceEvent {
  FilePath : string;
  EventType : string;
  Timestamp : Z
}.

Definition EventFileActivated : string := "file_activated".
Definition EventFileSwitched : string := "file_switched".
Definition EventFileClosed : string := "file_closed".
Definition EventProgramExit : string := "program_exit".

Definition warning (filePath : string) : string :=
  "统计警告：文件" +:+ filePath +:+ "的计时时间为负，忽略本次时长".

(** [Statistics.Update].  [None]: the call does not return, because the send
    on the full channel waits for a reader while the lock is held. *)
Definition Update (s : Statistics) (state : WorkspaceEvent)
  : option Statistics :=
  let filePath := FilePath state in
  if String.eqb (EventType state) EventFileActivated then
    match timers s !! filePath with
    | Some timer =>
        let total := if IsClosed timer then 0 else TotalTime timer in
        Some {| timers := <[filePath :=
                  {| StartTime := Timestamp state; TotalTime := total;
                     IsActive := true; IsClosed := false |}]> (timers s);
                warnCh := warnCh s |}
    | None =>
        Some {| timers := <[filePath :=
                  {| StartTime := Timestamp state; TotalTime := 0;
                     IsActive := true; IsClosed := false |}]> (timers s);
                warnCh := warnCh s |}
    end
  else if String.eqb (EventType state) EventFileSwitched
          || String.eqb (EventType state) EventFileClosed then
    match timers s !! filePath with
    | None => Some s
    | Some timer =>
        if negb (IsActive timer) then Some s else
        let elapsed := Sub (Timestamp state) (StartTime timer) in
        if elapsed <? 0 then
          if Go.len (warnCh s) <? 10
          then Some {| timers := timers s;
                       warnCh := warnCh s ++ [warning filePath] |}
          else None
        else
          Some {| timers := <[filePath :=
                    {| StartTime := StartTime timer;
                       TotalTime := Go.add (TotalTime timer) elapsed;
                       IsActive := false;
                       IsClosed := String.eqb (EventType state) EventFileClosed
                                   || IsClosed timer |}]> (timers s);
                  warnCh := warnCh s |}
    end
  else if String.eqb (EventType state) EventProgramExit then
    Some {| timers :=
              (λ timer,
                 if IsActive timer then
                   {| StartTime := StartTime timer;
                      TotalTime := Go.add (TotalTime timer)
                                     (Sub (Timestamp state) (StartTime timer));
                      IsActive := false; IsClosed := IsClosed timer |}
                 else timer) <$> timers s;
            warnCh := warnCh s |}
  else Some s.

(** [Statistics.GetWarning]: the oldest unread warning, or the empty string. *)
Definition GetWarning (s : Statistics) : string * Statistics :=
  match warnCh s with
  | warn :: rest => (warn, {| timers := timers s; warnCh := rest |})
  | [] => ("", s)
  end.

(** [Statistics.ResetTimer]: [None] is the error for a file without timer. *)
Definition ResetTimer (s : Statistics) (filePath : string)
  : option Statistics :=
  match timers s !! filePath with
  | None => None
  | Some _ =>
      Some {| timers := <[filePath :=
                {| StartTime := -62135596800000; TotalTime := 0;
                   IsActive := false; IsClosed := false |}]> (timers s);
              warnCh := warnCh s |}
  end.

(** The time a file has been the active one, as the next activation will
    count it: nothing carries over from before a close. *)
Definition carried (s : Statistics) (filePath : string) : Z :=
  match timers s !! filePath with
  | Some timer => if IsClosed timer then 0 else TotalTime timer
  | None => 0
  end.

(** The events of a file becoming the active one at [t], and of its being
    switched away from or closed. *)
Definition activated (p : string) (t : Z) : WorkspaceEvent :=
  {| FilePath := p; EventType := EventFileActivated; Timestamp := t |}.

Definition left (closed : bool) (p : string) (t : Z) : WorkspaceEvent :=
  {| FilePath := p;
     EventType := if closed then EventFileClosed else EventFileSwitched;
     Timestamp := t |}.

End Statistics.

(** ** The name of a log file ([statistics.go], lines 509-515) *)

Module LogName.
Import XmlIO.

(** [strings.LastIndex(s, substr)]: the index of the last place in [s] where
    [substr] starts, [-1] if there is none; [i] is the index of the first
    byte of [s]. *)
Fixpoint LastIndex_from (substr s : string) (i : Z) : Z :=
  match s with
  | EmptyString => if has_prefix substr s then i else -1
  | String _ s' =>
      let r := LastIndex_from substr s' (i + 1) in
      if r =? -1 then (if has_prefix substr s then i else -1) else r
  end.

Definition LastIndex (s substr : string) : Z := LastIndex_from substr s 0.

(** The one-byte string of the backslash (byte 92). *)
Definition backslash : string :=
  Eval cbv in String (ascii_of_nat 92) EmptyString.

(** [GetAfterLastBackslash] *)
Definition GetAfterLastBackslash (s : string) : option string :=
  let idx := LastIndex s backslash in
  if idx =? -1 then Some EmptyString
  else Go.sslice_from s (Go.add idx 1).

End LogName.

(** * Properties *)

(** ** Facts about the Go primitives *)

Module GoFacts.
Import Go.

Lemma wrap_id z : is_int z → wrap z = z.
Proof.
  unfold is_int, int_min, int_max, wrap. intros H.
  rewrite Z.mod_small; lia.
Qed.

Lemma wrap_is_int z : is_int (wrap z).
Proof.
  unfold is_int, int_min, int_max, wrap.
  pose proof (Z.mod_pos_bound (z + 2 ^ 63) (2 ^ 64)). lia.
Qed.

(** One step above the range lands at the bottom of it. *)
Lemma wrap_above z : int_max < z ≤ int_max + 2 ^ 63 → wrap z = z - 2 ^ 64.
Proof.
  unfold int_max, wrap. intros H.
  replace (z + 2 ^ 63) with ((z - 2 ^ 64 + 2 ^ 63) + 1 * 2 ^ 64) by lia.
  rewrite Z.mod_add by lia. rewrite Z.mod_small; lia.
Qed.

Lemma wrap_below z : int_min - 2 ^ 63 ≤ z < int_min → wrap z = z + 2 ^ 64.
Proof.
  unfold int_min, wrap. intros H.
  replace (z + 2 ^ 63) with ((z + 2 ^ 64 + 2 ^ 63) + (-1) * 2 ^ 64) by lia.
  rewrite Z.mod_add by lia. rewrite Z.mod_small; lia.
Qed.

Lemma sapp_cons c s1 s2 : String c s1 +:+ s2 = String c (s1 +:+ s2).
Proof. reflexivity. Qed.

Lemma sapp_nil s : EmptyString +:+ s = s.
Proof. reflexivity. Qed.

Lemma length_sapp s1 s2 :
  String.length (s1 +:+ s2) = (String.length s1 + String.length s2)%nat.
Proof.
  induction s1 as [|c s1 IH]; [done|].
  rewrite sapp_cons. cbn. by rewrite IH.
Qed.

Lemma length_stake n s : String.length (stake n s) = (n `min` String.length s)%nat.
Proof. revert s; induction n as [|n IH]; intros [|c s]; cbn; auto. Qed.

Lemma length_sdrop n s : String.length (sdrop n s) = (String.length s - n)%nat.
Proof. revert s; induction n as [|n IH]; intros [|c s]; cbn; auto. Qed.

Lemma stake_sdrop n s : stake n s +:+ sdrop n s = s.
Proof.
  revert s; induction n as [|n IH]; intros [|c s]; cbn; auto.
  by rewrite sapp_cons, IH.
Qed.

Lemma len_nonneg {A} (l : list A) : 0 ≤ len l.
Proof. unfold len. lia. Qed.

Ltac zbool :=
  repeat match goal with
  | |- context [?a <? ?b] => destruct (Z.ltb_spec a b)
  | |- context [?a <=? ?b] => destruct (Z.leb_spec a b)
  | |- context [?a =? ?b] => destruct (Z.eqb_spec a b)
  end; cbn [orb andb negb].

Ltac go_spec :=
  zbool;
  (split;
   [ intros ?; simplify_eq; repeat split; (lia || done)
   | intros ?; destruct_and?; simplify_eq; (lia || done) ]).

Lemma index_Some {A} (l : list A) i v :
  index l i = Some v ↔ 0 ≤ i < len l ∧ l !! Z.to_nat i = Some v.
Proof. unfold index. go_spec. Qed.

Lemma index_in_range {A} (l : list A) i :
  0 ≤ i < len l → ∃ v, index l i = Some v ∧ l !! Z.to_nat i = Some v.
Proof.
  intros H. destruct (lookup_lt_is_Some_2 l (Z.to_nat i)) as [v Hv].
  { unfold len in H. lia. }
  exists v. split; [|done]. apply index_Some. done.
Qed.

Lemma set_Some {A} (l : list A) i v l' :
  set l i v = Some l' ↔ 0 ≤ i < len l ∧ l' = <[Z.to_nat i := v]> l.
Proof. unfold set. go_spec. Qed.

Lemma sslice_to_Some s hi r :
  sslice_to s hi = Some r ↔ 0 ≤ hi ≤ slen s ∧ r = stake (Z.to_nat hi) s.
Proof. unfold sslice_to. go_spec. Qed.

Lemma sslice_from_Some s lo r :
  sslice_from s lo = Some r ↔ 0 ≤ lo ≤ slen s ∧ r = sdrop (Z.to_nat lo) s.
Proof. unfold sslice_from. go_spec. Qed.

Lemma slice_to_Some {A} (l : list A) hi r :
  slice_to l hi = Some r ↔ 0 ≤ hi ≤ len l ∧ r = take (Z.to_nat hi) l.
Proof. unfold slice_to. go_spec. Qed.

Lemma slice_from_Some {A} (l : list A) lo r :
  slice_from l lo = Some r ↔ 0 ≤ lo ≤ len l ∧ r = drop (Z.to_nat lo) l.
Proof. unfold slice_from. go_spec. Qed.

Lemma slice_Some {A} (l : list A) lo hi r :
  slice l lo hi = Some r ↔
  0 ≤ lo ≤ hi ∧ hi ≤ len l ∧ r = take (Z.to_nat (hi - lo)) (drop (Z.to_nat lo) l).
Proof. unfold slice. go_spec. Qed.

Lemma make_cap_Some n : make_cap n = Some tt ↔ 0 ≤ n.
Proof. unfold make_cap. go_spec. Qed.

End GoFacts.

(** ** The text commands *)

Module TextFacts.
Import Text GoFacts.

Ltac int_lia := unfold Go.is_int, Go.int_min, Go.int_max, Go.slen, Go.len in *; lia.

Lemma is_intb_spec z : is_intb z = true ↔ Go.is_int z.
Proof. unfold is_intb, Go.is_int. rewrite andb_true_iff. lia. Qed.

Lemma fits_len ed : fits ed = true → Go.len (lines ed) ≤ Go.int_max.
Proof. unfold fits. rewrite andb_true_iff. lia. Qed.

Lemma fits_line ed i l :
  fits ed = true → lines ed !! i = Some l → Go.slen l < Go.int_max.
Proof.
  unfold fits. rewrite andb_true_iff, forallb_forall. intros [_ H] Hl.
  apply Z.ltb_lt, H, list_elem_of_In, list_elem_of_lookup. eauto.
Qed.

(** A line number that passed the range check indexes the buffer. *)
Lemma line_index ed line :
  fits ed = true → 1 ≤ line ≤ Go.len (lines ed) →
  Go.sub line 1 = line - 1 ∧
  ∃ l, Go.index (lines ed) (Go.sub line 1) = Some l
       ∧ lines ed !! Z.to_nat (line - 1) = Some l
       ∧ Go.slen l < Go.int_max.
Proof.
  intros Hf Hr. pose proof (fits_len _ Hf) as Hl.
  assert (Go.sub line 1 = line - 1) as ->.
  { apply wrap_id. unfold Go.is_int, Go.int_min, Go.int_max in *. lia. }
  split; [done|].
  destruct (index_in_range (lines ed) (line - 1)) as (l & H1 & H2); [lia|].
  exists l. eauto using fits_line.
Qed.

(** What a successful [DeleteCommand.validate] establishes. *)
Lemma DeleteCommand_validate_true ed d :
  fits ed = true → Go.is_int (del_col d) → Go.is_int (del_length d) →
  DeleteCommand_validate ed d = Some true →
  ∃ prev, 1 ≤ del_line d ≤ Go.len (lines ed)
    ∧ lines ed !! Z.to_nat (del_line d - 1) = Some prev
    ∧ Go.sub (del_line d) 1 = del_line d - 1
    ∧ Go.sub (del_col d) 1 = del_col d - 1
    ∧ 0 ≤ del_col d - 1 < Go.slen prev
    ∧ 0 < del_length d
    ∧ Go.add (del_col d - 1) (del_length d) ≤ Go.slen prev.
Proof.
  intros Hf Hc Hn. unfold DeleteCommand_validate.
  destruct (Z.ltb_spec (del_line d) 1); [done|].
  destruct (Z.ltb_spec (Go.len (lines ed)) (del_line d)); [done|]. cbn [orb].
  destruct (line_index ed (del_line d)) as (Hs & prev & Hi & Hl & Hb); [done|lia|].
  rewrite Hi. cbn. rewrite Hs.
  assert (Hcol : Go.sub (del_col d) 1 = del_col d - 1 ∨
                 Go.sub (del_col d) 1 = Go.int_max).
  { unfold Go.sub. destruct (decide (del_col d = Go.int_min)) as [->|].
    - right. reflexivity.
    - left. apply wrap_id. unfold Go.is_int, Go.int_min, Go.int_max in *. lia. }
  destruct Hcol as [-> | ->].
  - zbool; try done. intros _. exists prev. repeat split; auto; lia.
  - zbool; try done; lia.
Qed.

Lemma InsertCommand_Execute_rejected ed i ed' i' :
  InsertCommand_validate ed i = Some false →
  InsertCommand_Execute ed i = Some (ed', i') → ed' = ed ∧ i' = i.
Proof. unfold InsertCommand_Execute. intros ->. cbn. by intros [= <- <-]. Qed.

Lemma InsertCommand_Execute_accepted ed i ed' i' :
  InsertCommand_validate ed i = Some true →
  InsertCommand_Execute ed i = Some (ed', i') → ins_executed i' = true.
Proof.
  unfold InsertCommand_Execute. intros ->. cbn. intros H.
  repeat (match type of H with
          | context [if ?b then _ else _] => destruct b
          | (mbind _ ?o) = _ => destruct o; cbn in H
          | (?o ≫= _) = _ => destruct o; cbn in H
          end; try discriminate); by simplify_eq.
Qed.

Lemma DeleteCommand_Execute_accepted ed d ed' d' :
  DeleteCommand_validate ed d = Some true →
  DeleteCommand_Execute ed d = Some (ed', d') → del_executed d' = true.
Proof.
  unfold DeleteCommand_Execute. intros ->. cbn. intros H.
  repeat (match type of H with
          | (mbind _ ?o) = _ => destruct o; cbn in H
          | (?o ≫= _) = _ => destruct o; cbn in H
          end; try discriminate); by simplify_eq.
Qed.

Lemma DeleteCommand_Execute_rejected ed d ed' d' :
  DeleteCommand_validate ed d = Some false →
  DeleteCommand_Execute ed d = Some (ed', d') → ed' = ed ∧ d' = d.
Proof. unfold DeleteCommand_Execute. intros ->. cbn. by intros [= <- <-]. Qed.

(** After a delete that was carried out, the insert at the same coordinates
    passes its validation: the shortened line still reaches the column. *)
Lemma insert_valid_after_delete ed d ed1 d1 i :
  fits ed = true → Go.is_int (del_col d) → Go.is_int (del_length d) →
  ins_line i = del_line d → ins_col i = del_col d →
  DeleteCommand_validate ed d = Some true →
  DeleteCommand_Execute ed d = Some (ed1, d1) →
  InsertCommand_validate ed1 i = Some true.
Proof.
  intros Hf Hc Hn Hl Hcol Hv He.
  destruct (DeleteCommand_validate_true _ _ Hf Hc Hn Hv)
    as (prev & Hr & Hp & Hs1 & Hs2 & Hc1 & Hn1 & Hsum).
  unfold DeleteCommand_Execute in He. rewrite Hv in He. cbn in He.
  rewrite Hs1, Hs2 in He.
  destruct (index_in_range (lines ed) (del_line d - 1)) as (v & Hi & Hi'); [lia|].
  rewrite Hi in He. cbn in He. assert (v = prev) as -> by congruence.
  destruct (Go.sslice_to prev (del_col d - 1)) as [pre|] eqn:Hpre; [|done].
  cbn in He.
  destruct (Go.sslice_from prev _) as [post|] eqn:Hpost; [|done]. cbn in He.
  destruct (Go.set (lines ed) _ _) as [ls|] eqn:Hset; [|done]. cbn in He.
  injection He as <- <-.
  apply sslice_to_Some in Hpre as [Hpre1 ->].
  apply sslice_from_Some in Hpost as [Hpost1 ->].
  apply set_Some in Hset as [Hset1 ->].
  pose proof (fits_line _ _ _ Hf Hp) as Hb.
  assert (HS : Go.add (del_col d - 1) (del_length d)
               = del_col d - 1 + del_length d).
  { unfold Go.add in *.
    destruct (decide (del_col d - 1 + del_length d ≤ Go.int_max)).
    - apply wrap_id. int_lia.
    - exfalso. rewrite wrap_above in Hpost1 by int_lia. int_lia. }
  rewrite HS in *.
  unfold InsertCommand_validate. cbn [lines].
  assert (Hlen : Go.len (<[Z.to_nat (del_line d - 1) := Go.stake (Z.to_nat (del_col d - 1)) prev +:+ Go.sdrop (Z.to_nat (del_col d - 1 + del_length d)) prev]> (lines ed)) = Go.len (lines ed)).
  { unfold Go.len. by rewrite length_insert. }
  rewrite Hlen, Hl, Hcol.
  destruct (Z.eqb_spec (Go.len (lines ed)) 0); [lia|].
  destruct (Z.ltb_spec (del_line d) 1); [lia|].
  destruct (Z.ltb_spec (Go.len (lines ed)) (del_line d)); [lia|]. cbn [orb].
  rewrite Hs1. unfold Go.index. rewrite Hlen.
  destruct (Z.ltb_spec (del_line d - 1) 0); [lia|].
  destruct (Z.leb_spec (Go.len (lines ed)) (del_line d - 1)); [lia|]. cbn [orb].
  rewrite list_lookup_insert_eq by (unfold Go.len in *; lia). cbn.
  f_equal. apply andb_true_iff. split; [apply Z.leb_le; lia|].
  apply Z.leb_le. unfold Go.add.
  assert (Hnew : Go.slen (Go.stake (Z.to_nat (del_col d - 1)) prev
                          +:+ Go.sdrop (Z.to_nat (del_col d - 1 + del_length d)) prev)
                 = Go.slen prev - del_length d).
  { unfold Go.slen in *. rewrite length_sapp, length_stake, length_sdrop. lia. }
  rewrite Hnew, wrap_id; int_lia.
Qed.

Lemma replace_wf_spec cmd :
  replace_wf cmd = true →
  ins_line (rep_insertCmd cmd) = del_line (rep_deleteCmd cmd)
  ∧ ins_col (rep_insertCmd cmd) = del_col (rep_deleteCmd cmd)
  ∧ Go.is_int (del_col (rep_deleteCmd cmd))
  ∧ Go.is_int (del_length (rep_deleteCmd cmd)).
Proof.
  unfold replace_wf. rewrite !andb_true_iff, !is_intb_spec, !Z.eqb_eq.
  intros ((((? & ?) & ?) & ?) & ?). split; [congruence|]. split; [congruence|]. split; assumption.
Qed.

(** C2. A replace that is reported not executed has left the line sequence
    of the buffer exactly as it was.  (The case the claim singles out, a
    delete carried out followed by a rejected insert, cannot arise: see
    [insert_valid_after_delete].) *)
Theorem ReplaceCommand_not_executed_no_mutation ed cmd ed' cmd' :
  fits ed = true → replace_wf cmd = true →
  ReplaceCommand_Execute ed cmd = Some (ed', cmd') →
  ReplaceCommand_IsExecuted cmd' = false →
  lines ed' = lines ed.
Proof.
  intros Hf Hwf He Hx.
  destruct (replace_wf_spec _ Hwf) as (Hl & Hc & Hic & Hin).
  unfold ReplaceCommand_Execute in He.
  destruct (DeleteCommand_Execute ed (rep_deleteCmd cmd)) as [[ed1 d1]|] eqn:Hd;
    [|done].
  cbn in He.
  destruct (DeleteCommand_validate ed (rep_deleteCmd cmd)) as [[]|] eqn:Hv.
  - (* the delete was carried out: the insert is, too *)
    pose proof (insert_valid_after_delete _ _ _ _ _ Hf Hic Hin Hl Hc Hv Hd) as Hi.
    unfold DeleteCommand_IsExecuted in He.
    rewrite (DeleteCommand_Execute_accepted _ _ _ _ Hv Hd) in He. cbn in He.
    destruct (InsertCommand_Execute ed1 _) as [[ed2 i2]|] eqn:Hie; [|done].
    cbn in He. injection He as <- <-. cbn in Hx.
    unfold InsertCommand_IsExecuted in Hx.
    rewrite (InsertCommand_Execute_accepted _ _ _ _ Hi Hie) in Hx. done.
  - (* the delete was rejected: the buffer is untouched so far *)
    destruct (DeleteCommand_Execute_rejected _ _ _ _ Hv Hd) as [-> ->].
    destruct (DeleteCommand_IsExecuted (rep_deleteCmd cmd)); cbn in He.
    + destruct (InsertCommand_Execute ed (rep_insertCmd cmd))
        as [[ed2 i2]|] eqn:Hie; [|done].
      cbn in He. injection He as <- <-. cbn in Hx.
      destruct (InsertCommand_validate ed (rep_insertCmd cmd)) as [[]|] eqn:Hiv.
      * unfold InsertCommand_IsExecuted in Hx.
        rewrite (InsertCommand_Execute_accepted _ _ _ _ Hiv Hie) in Hx. done.
      * by destruct (InsertCommand_Execute_rejected _ _ _ _ Hiv Hie) as [-> _].
      * unfold InsertCommand_Execute in Hie. rewrite Hiv in Hie. done.
    + by injection He as <- <-.
  - unfold DeleteCommand_Execute in Hd. rewrite Hv in Hd. done.
Qed.


Lemma Split_nl_length s :
  (1 ≤ List.length (Go.Split_nl s) ≤ String.length s + 1)%nat.
Proof.
  induction s as [|c s IH]; cbn; [lia|].
  destruct (Ascii.eqb c Go.newline); cbn; [lia|].
  destruct (Go.Split_nl s); cbn in *; lia.
Qed.

(** What a successful [InsertCommand.validate] establishes on a buffer that
    has lines. *)
Lemma InsertCommand_validate_true ed i :
  fits ed = true → Go.len (lines ed) ≠ 0 →
  InsertCommand_validate ed i = Some true →
  ∃ prev, 1 ≤ ins_line i ≤ Go.len (lines ed)
    ∧ lines ed !! Z.to_nat (ins_line i - 1) = Some prev
    ∧ Go.index (lines ed) (ins_line i - 1) = Some prev
    ∧ Go.sub (ins_line i) 1 = ins_line i - 1
    ∧ Go.sub (ins_col i) 1 = ins_col i - 1
    ∧ 0 ≤ ins_col i - 1 ≤ Go.slen prev
    ∧ Go.slen prev < Go.int_max.
Proof.
  intros Hf Hne. unfold InsertCommand_validate.
  destruct (Z.eqb_spec (Go.len (lines ed)) 0); [done|].
  destruct (Z.ltb_spec (ins_line i) 1); [done|].
  destruct (Z.ltb_spec (Go.len (lines ed)) (ins_line i)); [done|]. cbn [orb].
  destruct (line_index ed (ins_line i)) as (Hs & prev & Hi & Hl & Hb); [done|lia|].
  rewrite Hi. cbn. intros [= [H1 H2]%andb_true_iff].
  apply Z.leb_le in H1, H2. unfold Go.add in H2. rewrite wrap_id in H2 by int_lia.
  exists prev. rewrite Hs in Hi. split_and!; auto; try lia.
  apply wrap_id. int_lia.
Qed.

(** On a buffer that has lines, an insert that passes validation is carried
    out, and undoing it at once gives back the line sequence it found. *)
Theorem InsertCommand_Execute_Undo ed line col text :
  insert_fits ed text = true → Go.len (lines ed) ≠ 0 →
  InsertCommand_validate ed (NewInsertCommand line col text) = Some true →
  ∃ ed1 c1 ed2 c2,
    InsertCommand_Execute ed (NewInsertCommand line col text) = Some (ed1, c1)
    ∧ InsertCommand_IsExecuted c1 = true
    ∧ InsertCommand_Undo ed1 c1 = Some (ed2, c2)
    ∧ lines ed2 = lines ed.
Proof.
  intros [Hf Ht%Z.ltb_lt]%andb_true_iff Hne Hv.
  destruct (InsertCommand_validate_true _ _ Hf Hne Hv)
    as (prev & Hr & Hp & Hi & Hs1 & Hs2 & Hc & Hb).
  cbn [ins_line ins_col NewInsertCommand] in *.
  pose proof (Split_nl_length text) as Hk.
  pose proof (fits_len _ Hf) as Hlen.
  unfold InsertCommand_Execute. rewrite Hv. cbn.
  rewrite Hs1, Hs2, Hi. cbn.
  assert (Hpre : Go.sslice_to prev (col - 1) = Some (Go.stake (Z.to_nat (col - 1)) prev)).
  { apply sslice_to_Some. split; [lia|done]. }
  assert (Hpost : Go.sslice_from prev (col - 1) = Some (Go.sdrop (Z.to_nat (col - 1)) prev)).
  { apply sslice_from_Some. split; [lia|done]. }
  rewrite Hpre, Hpost. cbn.
  destruct (Z.eqb_spec (Go.len (Go.Split_nl text)) 1) as [H1|H1].
  - (* no newline in the text *)
    destruct (Go.set (lines ed) (line - 1) _) as [ls|] eqn:Hset.
    2:{ exfalso. unfold Go.set in Hset. revert Hset. zbool; try done; lia. }
    apply set_Some in Hset as [_ ->]. cbn.
    eexists _, _, _, _. split; [reflexivity|]. split; [reflexivity|].
    unfold InsertCommand_Undo. cbn. rewrite Hs1.
    destruct (Z.eqb_spec (Go.len (Go.Split_nl text)) 1); [|done].
    unfold Go.set, Go.len. rewrite length_insert. fold (Go.len (lines ed)).
    destruct (Z.ltb_spec (line - 1) 0); [lia|].
    destruct (Z.leb_spec (Go.len (lines ed)) (line - 1)); [lia|]. cbn.
    split; [reflexivity|]. cbn.
    rewrite list_insert_insert_eq. by apply list_insert_id.
  - (* the text spans several lines *)
    assert (Hk2 : 2 ≤ Go.len (Go.Split_nl text)) by int_lia.
    assert (Hkb : Go.len (Go.Split_nl text) ≤ Go.slen text + 1) by int_lia.
    assert (Hsk : Go.sub (Go.len (Go.Split_nl text)) 1 = Go.len (Go.Split_nl text) - 1).
    { apply wrap_id. int_lia. }
    rewrite Hsk.
    destruct (index_in_range (Go.Split_nl text) 0) as (first & -> & _); [lia|].
    cbn.
    destruct (Go.slice (Go.Split_nl text) 1 _) as [middle|] eqn:Hm.
    2:{ exfalso. unfold Go.slice in Hm. revert Hm. zbool; try done; lia. }
    apply slice_Some in Hm as (_ & _ & Hm). cbn.
    destruct (index_in_range (Go.Split_nl text) (Go.len (Go.Split_nl text) - 1))
      as (last & -> & _); [lia|].
    cbn.
    assert (Hml : Go.len middle = Go.len (Go.Split_nl text) - 2).
    { subst middle. unfold Go.len in *. rewrite length_take, length_drop. lia. }
    assert (Hcap : Go.add (Go.add (Go.len (lines ed)) (Go.len middle)) 1
                   = Go.len (lines ed) + Go.len middle + 1).
    { unfold Go.add. rewrite (wrap_id (_ + Go.len middle)) by int_lia.
      apply wrap_id. int_lia. }
    rewrite Hcap.
    assert (Go.make_cap (Go.len (lines ed) + Go.len middle + 1) = Some tt) as ->.
    { apply make_cap_Some. lia. }
    cbn.
    assert (Go.slice_to (lines ed) (line - 1) = Some (take (Z.to_nat (line - 1)) (lines ed))) as ->.
    { apply slice_to_Some. split; [lia|done]. }
    cbn.
    assert (Go.add (line - 1) 1 = line) as ->.
    { unfold Go.add. rewrite wrap_id by int_lia. lia. }
    assert (Go.slice_from (lines ed) line = Some (drop (Z.to_nat line) (lines ed))) as ->.
    { apply slice_from_Some. split; [lia|done]. }
    cbn.
    eexists _, _, _, _. split; [reflexivity|]. split; [reflexivity|].
    unfold InsertCommand_Undo. cbn. rewrite Hs1, Hsk.
    destruct (Z.eqb_spec (Go.len (Go.Split_nl text)) 1); [done|].
    set (before := take (Z.to_nat (line - 1)) (lines ed)).
    set (after := drop (Z.to_nat line) (lines ed)).
    set (fp := Go.stake (Z.to_nat (col - 1)) prev +:+ first).
    set (lp := last +:+ Go.sdrop (Z.to_nat (col - 1)) prev).
    assert (Hbl : List.length before = Z.to_nat (line - 1)).
    { unfold before. rewrite length_take. int_lia. }
    assert (Hal : List.length after = (List.length (lines ed) - Z.to_nat line)%nat).
    { unfold after. by rewrite length_drop. }
    assert (Hnl : Go.len (before ++ fp :: middle ++ lp :: after)
                  = Go.len (lines ed) + Go.len (Go.Split_nl text) - 1).
    { unfold Go.len in *. rewrite length_app. cbn [length].
      rewrite length_app. cbn [length]. lia. }
    rewrite Hnl.
    assert (Go.sub (Go.len (lines ed) + Go.len (Go.Split_nl text) - 1)
                   (Go.len (Go.Split_nl text) - 1) = Go.len (lines ed)) as ->.
    { unfold Go.sub. rewrite wrap_id by int_lia. lia. }
    assert (Go.make_cap (Go.len (lines ed)) = Some tt) as ->.
    { apply make_cap_Some. int_lia. }
    cbn.
    assert (Go.slice_to (before ++ fp :: middle ++ lp :: after) (line - 1)
            = Some before) as ->.
    { apply slice_to_Some. split; [lia|]. by rewrite take_app_length'. }
    cbn.
    assert (Go.add (Go.add (line - 1) 1) (Go.len (Go.Split_nl text) - 1)
            = line + Go.len (Go.Split_nl text) - 1) as ->.
    { unfold Go.add. rewrite (wrap_id (line - 1 + 1)) by int_lia.
      rewrite wrap_id by int_lia. lia. }
    assert (Go.slice_from (before ++ fp :: middle ++ lp :: after)
              (line + Go.len (Go.Split_nl text) - 1) = Some after) as ->.
    { apply slice_from_Some. split; [lia|].
      replace (before ++ fp :: middle ++ lp :: after)
        with ((before ++ fp :: middle ++ [lp]) ++ after)
        by (rewrite <- app_assoc; cbn; by rewrite <- app_assoc).
      rewrite drop_app_length'; [done|].
      rewrite length_app. cbn [length]. rewrite length_app. cbn [length].
      unfold Go.len in *. lia. }
    cbn. split; [reflexivity|]. cbn.
    unfold before, after.
    replace (Z.to_nat line) with (S (Z.to_nat (line - 1))) by lia.
    by apply take_drop_middle.
Qed.

Lemma insert_valid_after_delete_witness :
  InsertCommand_validate
    {| lines := ["Ho"]; isModified := true |} (NewInsertCommand 1 2 "xy")
  = Some true.
Proof.
  apply (insert_valid_after_delete buffer_Hello (NewDeleteCommand 1 2 3)
           {| lines := ["Ho"]; isModified := true |}
           {| del_line := 1; del_col := 2; del_length := 3;
              del_prevLine := "Hello"; del_executed := true |}
           (NewInsertCommand 1 2 "xy"));
    first [ reflexivity | vm_compute; split; discriminate ].
Defined.

Lemma ReplaceCommand_not_executed_witness :
  fits buffer_Hello = true
  ∧ replace_wf (NewReplaceCommand 1 9 1 "x") = true
  ∧ ReplaceCommand_Execute buffer_Hello (NewReplaceCommand 1 9 1 "x")
    = Some (buffer_Hello, NewReplaceCommand 1 9 1 "x")
  ∧ lines buffer_Hello = lines buffer_Hello.
Proof.
  split; [reflexivity|]. split; [reflexivity|]. split; [reflexivity|].
  apply (ReplaceCommand_not_executed_no_mutation
           buffer_Hello (NewReplaceCommand 1 9 1 "x")
           buffer_Hello (NewReplaceCommand 1 9 1 "x")); reflexivity.
Defined.

(** C3. On a buffer with zero lines the validation of an insert accepts line
    1, column 1, and [Execute] then reads [lines[0]] of the empty slice: a
    run-time panic, for every text. *)
Theorem InsertCommand_Execute_empty_buffer_panics text :
  InsertCommand_validate empty_buffer (NewInsertCommand 1 1 text) = Some true
  ∧ InsertCommand_Execute empty_buffer (NewInsertCommand 1 1 text) = None.
Proof. split; reflexivity. Qed.

(** On a buffer with zero lines every other coordinate is rejected: no
    mutation, and the command stays unexecuted. *)
Theorem InsertCommand_Execute_empty_buffer_rejects line col text :
  (line, col) ≠ (1, 1) →
  InsertCommand_Execute empty_buffer (NewInsertCommand line col text)
  = Some (empty_buffer, NewInsertCommand line col text)
  ∧ InsertCommand_IsExecuted (NewInsertCommand line col text) = false.
Proof.
  intros Hne. split; [|reflexivity].
  unfold InsertCommand_Execute, InsertCommand_validate. cbn.
  destruct (Z.eqb_spec line 1) as [->|]; [|done].
  destruct (Z.eqb_spec col 1) as [->|]; done.
Qed.

Lemma InsertCommand_Execute_empty_buffer_rejects_witness :
  InsertCommand_Execute empty_buffer (NewInsertCommand 1 2 "a")
  = Some (empty_buffer, NewInsertCommand 1 2 "a")
  ∧ InsertCommand_IsExecuted (NewInsertCommand 1 2 "a") = false.
Proof.
  apply (InsertCommand_Execute_empty_buffer_rejects 1 2 "a"). intros [=].
Defined.

(** C7. The insert of "AB\nCD" at line 1, column 1 of the buffer ["X"] gives
    ["AB"; "CDX"], and its undo gives ["X"] back; on the buffer with zero
    lines the same insert passes validation and panics, so that there is no
    line sequence after the undo. *)
Theorem insert_then_undo_empty_buffer :
  (r ← InsertCommand_Execute buffer_X
         (NewInsertCommand 1 1 ("AB" +:+ Go.nl +:+ "CD"));
   Some (lines r.1)) = Some ["AB"; "CDX"]
  ∧ insert_then_undo buffer_X 1 1 ("AB" +:+ Go.nl +:+ "CD") = Some ["X"]
  ∧ InsertCommand_validate empty_buffer
      (NewInsertCommand 1 1 ("AB" +:+ Go.nl +:+ "CD")) = Some true
  ∧ insert_then_undo empty_buffer 1 1 ("AB" +:+ Go.nl +:+ "CD") = None.
Proof. repeat split; reflexivity. Qed.

Lemma InsertCommand_Execute_Undo_witness :
  ∃ ed1 c1 ed2 c2,
    InsertCommand_Execute buffer_X
      (NewInsertCommand 1 1 ("AB" +:+ Go.nl +:+ "CD")) = Some (ed1, c1)
    ∧ InsertCommand_IsExecuted c1 = true
    ∧ InsertCommand_Undo ed1 c1 = Some (ed2, c2)
    ∧ lines ed2 = lines buffer_X.
Proof.
  apply (InsertCommand_Execute_Undo buffer_X 1 1 ("AB" +:+ Go.nl +:+ "CD"));
    [reflexivity | intros [=] | reflexivity].
Defined.

End TextFacts.

(** ** The XML commands and the undo stack *)

Module XmlFacts.
Import Xml Samples.

Ltac exec_cases H :=
  repeat (match type of H with
          | context [match ?o with _ => _ end] =>
              let E := fresh "E" in destruct o eqn:E
          | (_ ≫= _) = _ => apply bind_Some in H as (? & ? & H)
          | (mbind _ _) = _ => apply bind_Some in H as (? & ? & H)
          | Some _ = Some _ => injection H as ? ?
          end; cbn in H; try discriminate).

(** The commands leave the stacks and the root pointer alone. *)
Lemma Command_Execute_frame x cmd x1 c1 :
  Command_Execute x cmd = Some (x1, c1) →
  undoStack x1 = undoStack x ∧ redoStack x1 = redoStack x ∧ root x1 = root x.
Proof.
  intros H. destruct cmd as [c|c|c|c|c]; cbn in H;
    apply bind_Some in H as ([x' c'] & H & [= <- <-]).
  - unfold InsertBeforeCommand_Execute in H. exec_cases H; by subst.
  - unfold AppendChildCommand_Execute in H. exec_cases H; by subst.
  - unfold EditIdCommand_Execute in H. exec_cases H; by subst.
  - unfold EditTextCommand_Execute in H. exec_cases H; by subst.
  - unfold XmlDeleteCommand_Execute in H. exec_cases H; by subst.
Qed.

(** A command that was not executed before and is not executed after its
    [Execute] has changed nothing in the editor. *)
Lemma Command_Execute_failed x cmd x1 c1 :
  Command_IsExecuted cmd = false →
  Command_Execute x cmd = Some (x1, c1) →
  Command_IsExecuted c1 = false →
  x1 = x.
Proof.
  intros H0 H H1. destruct cmd as [c|c|c|c|c]; cbn in H;
    apply bind_Some in H as ([x' c'] & H & [= <- <-]); cbn in H0, H1.
  - unfold InsertBeforeCommand_Execute in H. exec_cases H; by subst.
  - unfold AppendChildCommand_Execute in H. exec_cases H; by subst.
  - unfold EditIdCommand_Execute in H. exec_cases H; by subst.
  - unfold EditTextCommand_Execute in H. exec_cases H; by subst.
  - unfold XmlDeleteCommand_Execute in H. exec_cases H; by subst.
Qed.


(** The index of each sample document is the one [buildIdMap] computes. *)
Lemma sample_documents_indexed :
  Forall (λ d, buildIdMap (with_idMap d ∅) (root d) = Some d)
         [doc_root; doc_titled; doc_leaf; doc_chain; doc_gap].
Proof. repeat constructor; vm_compute; reflexivity. Qed.

(** [EditText] on an identifier the index does not hold: the command is not
    executed and sits on the undo stack all the same. *)
Lemma EditText_failed_is_pushed :
  EditTextCommand_IsExecuted (NewEditTextCommand "missing" "t") = false
  ∧ undoStack doc_root = []
  ∧ (x' ← EditText doc_root "missing" "t"; Some (undoStack x'))
    = Some [CEditText (NewEditTextCommand "missing" "t")].
Proof. repeat split; reflexivity. Qed.

(** C1 (amended). Each of the five mutation entry points runs its command
    and then pushes it onto the undo stack and empties the redo stack,
    whether or not the command reports that it was executed; a command whose
    validation failed is pushed all the same, and has left tree and index as
    they were. *)
Theorem mutate_always_pushes x m x1 c1 :
  Command_Execute x (command_of m) = Some (x1, c1) →
  ∃ x', mutate x m = Some x'
    ∧ undoStack x' = undoStack x ++ [c1]
    ∧ redoStack x' = []
    ∧ (Command_IsExecuted c1 = false →
       heap x' = heap x ∧ idMap x' = idMap x ∧ root x' = root x).
Proof.
  intros H. destruct (Command_Execute_frame _ _ _ _ H) as (Hu & _ & _).
  exists (with_isModified (with_stacks x1 (undoStack x1 ++ [c1]) []) true).
  split.
  { destruct m; cbn in *;
      unfold InsertBefore, AppendChild, EditId, EditText, Delete, ExecuteCommand;
      by rewrite H. }
  cbn. rewrite Hu. split; [done|]. split; [done|].
  intros Hf. assert (x1 = x) as ->; [|done].
  apply (Command_Execute_failed x (command_of m) x1 c1);
    [by destruct m | done | done].
Qed.

Lemma mutate_always_pushes_witness :
  ∃ x', mutate doc_root (MEditText "missing" "t") = Some x'
    ∧ undoStack x' = undoStack doc_root ++ [CEditText (NewEditTextCommand "missing" "t")]
    ∧ redoStack x' = []
    ∧ (Command_IsExecuted (CEditText (NewEditTextCommand "missing" "t")) = false →
       heap x' = heap doc_root ∧ idMap x' = idMap doc_root
       ∧ root x' = root doc_root).
Proof.
  apply (mutate_always_pushes doc_root (MEditText "missing" "t") doc_root
           (CEditText (NewEditTextCommand "missing" "t"))).
  reflexivity.
Defined.

(** C10. Whenever the wrapped command returns, [ExecuteCommand] leaves the
    modified flag set and the redo stack empty, with the tree and the index
    as the command left them: untouched, when the command's validation
    failed. *)
Theorem ExecuteCommand_sets_modified x cmd x1 c1 :
  Command_Execute x cmd = Some (x1, c1) →
  ∃ x', ExecuteCommand x cmd = Some x'
    ∧ IsModified x' = true
    ∧ redoStack x' = []
    ∧ heap x' = heap x1 ∧ idMap x' = idMap x1 ∧ root x' = root x1
    ∧ (Command_IsExecuted cmd = false → Command_IsExecuted c1 = false →
       heap x' = heap x ∧ idMap x' = idMap x ∧ root x' = root x).
Proof.
  intros H. unfold ExecuteCommand. rewrite H. cbn.
  eexists. split; [reflexivity|]. cbn. split_and!; try done.
  intros H0 H1. by rewrite (Command_Execute_failed _ _ _ _ H0 H H1).
Qed.

Lemma ExecuteCommand_sets_modified_witness :
  IsModified doc_root = false
  ∧ ∃ x', ExecuteCommand doc_root (CXmlDelete (NewXmlDeleteCommand "missing"))
          = Some x'
    ∧ IsModified x' = true
    ∧ redoStack x' = []
    ∧ heap x' = heap doc_root ∧ idMap x' = idMap doc_root
    ∧ root x' = root doc_root
    ∧ (Command_IsExecuted (CXmlDelete (NewXmlDeleteCommand "missing")) = false →
       Command_IsExecuted (CXmlDelete (NewXmlDeleteCommand "missing")) = false →
       heap x' = heap doc_root ∧ idMap x' = idMap doc_root
       ∧ root x' = root doc_root).
Proof.
  split; [reflexivity|].
  apply (ExecuteCommand_sets_modified doc_root
           (CXmlDelete (NewXmlDeleteCommand "missing")) doc_root
           (CXmlDelete (NewXmlDeleteCommand "missing"))).
  reflexivity.
Defined.


(** C4. In [<root><a id="a"><b><c id="c"/></b></a></root>] the element [c] is
    reached from [a] only through [b], which has no identifier.  After the
    successful [Delete("a")] the tree holds the root alone and the index has
    dropped "a", but it still maps "c" to the removed element. *)
Theorem Delete_leaves_descendant_indexed :
  (x ← Delete doc_gap "a";
   e ← heap x !! 3%nat;
   Some (Command_IsExecuted <$> undoStack x, tree_ids x,
         idMap x !! "a", idMap x !! "c", id e, parent e))
  = Some ([true], Some ["root"], None, Some 3%nat, "c", Some 2%nat).
Proof. vm_compute. reflexivity. Qed.

(** C5. [AppendChild("book","b2","root","Title")] followed by
    [EditId("b2","b3")], both successful: the element's identifier is "b3"
    and its attribute "id" still reads "b2". *)
Theorem EditId_leaves_id_attribute :
  (x ← AppendChild doc_root "book" "b2" "root" "Title";
   x ← EditId x "b2" "b3";
   e ← heap x !! 1%nat;
   Some (Command_IsExecuted <$> undoStack x, idMap x !! "b3", id e,
         attrs e !! "id"))
  = Some ([true; true], Some 1%nat, "b3", Some "b2").
Proof. vm_compute. reflexivity. Qed.

(** [InsertBefore] stores the escaped identifier in the attribute: the two
    differ as soon as the identifier has a character that [escapeXML]
    rewrites. *)
Lemma InsertBefore_escapes_id_attribute :
  (x ← InsertBefore doc_leaf "n" "a&b" "t" "";
   e ← heap x !! 2%nat;
   Some (Command_IsExecuted <$> undoStack x, id e, attrs e !! "id"))
  = Some ([true], "a&b", Some "a&amp;b").
Proof. vm_compute. reflexivity. Qed.

(** C6. On an element whose text is empty, [EditText] succeeds and the
    [Undo] that follows leaves the new text in place. *)
Theorem EditText_Undo_keeps_new_text :
  (e ← heap doc_leaf !! 1%nat; Some (text e)) = Some ""
  ∧ (x ← EditText doc_leaf "t" "hello";
     x' ← Undo x;
     e ← heap x' !! 1%nat;
     Some (Command_IsExecuted <$> undoStack x, text e))
    = Some ([true], "hello").
Proof. split; vm_compute; reflexivity. Qed.

Lemma with_text_restore e t : with_text (with_text e t) (text e) = e.
Proof. by destruct e. Qed.

(** When the text of the element is not empty, [EditText] followed by [Undo]
    gives back the heap of elements, and so the text, as it was. *)
Theorem EditText_Undo_restores x elementId t a e :
  idMap x !! elementId = Some a → heap x !! a = Some e → text e ≠ "" →
  ∃ x1 x2, EditText x elementId t = Some x1
    ∧ Undo x1 = Some x2
    ∧ heap x2 = heap x ∧ idMap x2 = idMap x ∧ root x2 = root x.
Proof.
  intros Hm Hh Ht. pose proof (lookup_lt_Some _ _ _ Hh) as Hlt.
  unfold EditText, ExecuteCommand. cbn.
  unfold EditTextCommand_Execute. cbn. rewrite Hm. rewrite Hh. cbn.
  eexists _, _. split; [reflexivity|].
  unfold Undo. cbn. rewrite last_snoc. cbn.
  unfold EditTextCommand_Undo. cbn.
  destruct (String.eqb_spec (text e) ""); [done|]. cbn. rewrite Hm.
  rewrite list_lookup_insert_eq by done. cbn.
  split; [reflexivity|]. cbn.
  rewrite list_insert_insert_eq, with_text_restore.
  by rewrite list_insert_id.
Qed.

Lemma EditText_Undo_restores_witness :
  ∃ x1 x2, EditText doc_titled "root" "new" = Some x1
    ∧ Undo x1 = Some x2
    ∧ heap x2 = heap doc_titled ∧ idMap x2 = idMap doc_titled
    ∧ root x2 = root doc_titled.
Proof.
  apply (EditText_Undo_restores doc_titled "root" "new" 0%nat
           (elem "root" "root" "old" None []));
    [reflexivity | reflexivity | intros [=]].
Defined.

(** C8. From [<root><a id="a"><c id="c"/></a></root>], whose identifiers are
    distinct and indexed: delete "a", append a child with the empty
    identifier to the root and rename it to "c" (three successful commands),
    then undo three times.  The tree then holds two elements with the
    identifier "c". *)
Theorem identifiers_repeat_after_undo :
  tree_ids doc_chain = Some ["root"; "a"; "c"]
  ∧ (x ← duplicate_scenario; Some (Command_IsExecuted <$> undoStack x))
    = Some [true; true; true]
  ∧ (x ← duplicate_scenario; x ← Undo x; x ← Undo x; x ← Undo x; tree_ids x)
    = Some ["root"; "a"; "c"; "c"]
  ∧ ¬ NoDup ["root"; "a"; "c"; "c"].
Proof.
  split_and!; try (vm_compute; reflexivity).
  rewrite !NoDup_cons. intros (_ & _ & H & _). apply H. by left.
Qed.

End XmlFacts.

(** ** Strings and white space *)

Module StringFacts.
Import Xml XmlIO XmlLaw GoFacts.

Lemma sapp_assoc s1 s2 s3 : (s1 +:+ s2) +:+ s3 = s1 +:+ s2 +:+ s3.
Proof.
  induction s1 as [|c s1 IH]; [done|]. by rewrite !sapp_cons, IH.
Qed.

Lemma sapp_nil_r s : s +:+ "" = s.
Proof. induction s as [|c s IH]; [done|]. by rewrite sapp_cons, IH. Qed.

Lemma all_chars_app p s1 s2 :
  all_chars p (s1 +:+ s2) = all_chars p s1 && all_chars p s2.
Proof.
  induction s1 as [|c s1 IH]; [done|].
  rewrite sapp_cons. cbn. by rewrite IH, andb_assoc.
Qed.

Lemma all_chars_impl (p q : ascii → bool) s :
  (∀ c, p c = true → q c = true) → all_chars p s = true → all_chars q s = true.
Proof.
  intros Hpq. induction s as [|c s IH]; [done|]. cbn.
  rewrite !andb_true_iff. intros [? ?]. auto.
Qed.

Lemma span_app p s c r :
  all_chars p s = true → p c = false →
  span p (s +:+ String c r) = (s, String c r).
Proof.
  intros Hs Hc. induction s as [|b s IH]; cbn.
  - rewrite sapp_nil. cbn. by rewrite Hc.
  - cbn in Hs. apply andb_true_iff in Hs as [Hb Hs].
    rewrite sapp_cons. cbn. by rewrite Hb, IH.
Qed.

Lemma span_stop p c r : p c = false → span p (String c r) = ("", String c r).
Proof. intros H. cbn. by rewrite H. Qed.

Lemma has_prefix_app p s : has_prefix p (p +:+ s) = true.
Proof.
  induction p as [|c p IH]; [done|]. rewrite sapp_cons. cbn.
  by rewrite Ascii.eqb_refl, IH.
Qed.

Lemma lead_lstrip s : lead s +:+ lstrip s = s.
Proof.
  induction s as [|c s IH]; [done|]. cbn. destruct (is_ws c); [|done].
  by rewrite sapp_cons, IH.
Qed.

Lemma lead_ws s : all_chars is_ws (lead s) = true.
Proof.
  induction s as [|c s IH]; [done|]. cbn. destruct (is_ws c) eqn:E; [|done].
  cbn. by rewrite E.
Qed.

Lemma lstrip_app_ws w s : all_chars is_ws w = true → lstrip (w +:+ s) = lstrip s.
Proof.
  induction w as [|c w IH]; [done|]. cbn. intros [Hc Hw]%andb_true_iff.
  rewrite sapp_cons. cbn. rewrite Hc. auto.
Qed.

Lemma lstrip_stop c s : is_ws c = false → lstrip (String c s) = String c s.
Proof. intros H. cbn. by rewrite H. Qed.

Lemma is_ws_white c : is_ws c = true → is_white c = true.
Proof.
  unfold is_ws, is_white. intros [H|H]%orb_true_iff.
  - by rewrite H.
  - apply Ascii.eqb_eq in H as ->. reflexivity.
Qed.

Lemma TrimLeft_app_white w s :
  all_chars is_white w = true → TrimLeft (w +:+ s) = TrimLeft s.
Proof.
  induction w as [|c w IH]; [done|]. cbn. intros [Hc Hw]%andb_true_iff.
  rewrite sapp_cons. cbn. rewrite Hc. auto.
Qed.

Lemma TrimLeft_white w : all_chars is_white w = true → TrimLeft w = "".
Proof.
  induction w as [|c w IH]; [done|]. cbn. intros [Hc Hw]%andb_true_iff.
  rewrite Hc. auto.
Qed.

Lemma TrimRight_white w : all_chars is_white w = true → TrimRight w = "".
Proof.
  induction w as [|c w IH]; [done|]. cbn. intros [Hc Hw]%andb_true_iff.
  by rewrite IH, Hc.
Qed.

Lemma TrimRight_app_white s w :
  all_chars is_white w = true → TrimRight (s +:+ w) = TrimRight s.
Proof.
  intros Hw. induction s as [|c s IH].
  - rewrite sapp_nil. by apply TrimRight_white.
  - rewrite sapp_cons. cbn. by rewrite IH.
Qed.

Lemma TrimRight_length s : (String.length (TrimRight s) ≤ String.length s)%nat.
Proof.
  induction s as [|c s IH]; [done|]. cbn.
  destruct (TrimRight s); [destruct (is_white c)|]; cbn in *; lia.
Qed.

Lemma TrimLeft_length s : (String.length (TrimLeft s) ≤ String.length s)%nat.
Proof.
  induction s as [|c s IH]; [done|]. cbn. destruct (is_white c); cbn; lia.
Qed.

(** A text that [TrimSpace] leaves alone keeps its place between stretches
    of white space. *)
Lemma TrimSpace_between w1 s w2 :
  all_chars is_white w1 = true → all_chars is_white w2 = true →
  TrimSpace s = s →
  TrimSpace (w1 +:+ s +:+ w2) = s.
Proof.
  intros H1 H2 Hs. unfold TrimSpace in *. rewrite TrimLeft_app_white by done.
  destruct s as [|c s].
  - by rewrite sapp_nil, TrimLeft_white.
  - assert (Hc : is_white c = false).
    { destruct (is_white c) eqn:E; [|done]. exfalso.
      cbn in Hs. rewrite E in Hs.
      pose proof (TrimRight_length (TrimLeft s)) as Ha.
      pose proof (TrimLeft_length s) as Hb.
      rewrite Hs in Ha. cbn in Ha. lia. }
    cbn in Hs. rewrite Hc in Hs. rewrite sapp_cons. cbn. rewrite Hc.
    rewrite <- sapp_cons, TrimRight_app_white by done. done.
Qed.

Lemma TrimSpace_white w : all_chars is_white w = true → TrimSpace w = "".
Proof.
  intros H. unfold TrimSpace. by rewrite TrimLeft_white.
Qed.

End StringFacts.

(** ** The decoder on what the serializer writes *)

Module DecoderFacts.
Import Xml XmlIO XmlLaw GoFacts StringFacts.

Lemma ReplaceAll1_app a b old new :
  ReplaceAll1 (a +:+ b) old new = ReplaceAll1 a old new +:+ ReplaceAll1 b old new.
Proof.
  induction a as [|c a IH]; [done|]. rewrite sapp_cons. cbn.
  destruct (Ascii.eqb c old); by rewrite IH, ?sapp_assoc, ?sapp_cons.
Qed.

Lemma escapeXML_app a b : escapeXML (a +:+ b) = escapeXML a +:+ escapeXML b.
Proof. unfold escapeXML. by rewrite !ReplaceAll1_app. Qed.

Lemma escapeXML_cons c s :
  escapeXML (String c s) = escapeXML (String c "") +:+ escapeXML s.
Proof. by rewrite <- escapeXML_app. Qed.

Lemma escapeXML_not_special c :
  special c = false → escapeXML (String c "") = String c "".
Proof.
  unfold special. rewrite !orb_false_iff. intros ((((H1 & H2) & H3) & H4) & H5).
  unfold escapeXML. cbn. rewrite H1. cbn. rewrite H2. cbn. rewrite H3. cbn.
  rewrite H4. cbn. by rewrite H5.
Qed.

Lemma special_cases c :
  special c = true →
  c = "&"%char ∨ c = "<"%char ∨ c = ">"%char ∨ c = dquote ∨ c = "'"%char.
Proof.
  unfold special. rewrite !orb_true_iff, !Ascii.eqb_eq. tauto.
Qed.

Definition no_cr (b : ascii) : Prop := in_range 13 13 b = false.

Definition prepend (p : string) (r : string * string) : result (string * string) :=
  Ok (p +:+ r.1, r.2).

Lemma rbind_prepend_cons c r :
  rbind r (λ '(d, rest), Ok (String c d, rest)) = rbind r (prepend (String c "")).
Proof. by destruct r as [[d rest]| |]. Qed.

Lemma rbind_prepend_app p1 p2 r :
  rbind (rbind r (prepend p2)) (prepend p1) = rbind r (prepend (p1 +:+ p2)).
Proof. destruct r as [[d rest]| |]; cbn; [|done..]. unfold prepend. cbn. by rewrite sapp_assoc. Qed.

Lemma rbind_prepend_nil r : rbind r (prepend "") = r.
Proof. by destruct r as [[d rest]| |]. Qed.

(** A byte that is copied as it stands. *)
Definition raw_ok (c : ascii) : bool :=
  (plain c || Ascii.eqb c Go.newline)
  && negb (Ascii.eqb c "&") && negb (Ascii.eqb c "<") && negb (Ascii.eqb c ">").

Lemma plain_facts c :
  plain c = true → non_ascii c = false ∧ in_range 13 13 c = false
    ∧ in_range 32 127 c = true.
Proof.
  unfold plain, non_ascii, in_range. rewrite !andb_true_iff, !Nat.leb_le.
  intros [? ?]. split; [|split].
  - apply Nat.leb_gt. lia.
  - apply andb_false_iff. right. apply Nat.leb_gt. lia.
  - lia.
Qed.

Lemma Decoder_text_step q b0 b1 c s' :
  Decoder_text q b0 b1 0 (String c s') =
  if Ascii.eqb b0 "]" && Ascii.eqb b1 "]" && Ascii.eqb c ">" then SyntaxError
  else if Ascii.eqb c "<" then
    match q with Some _ => SyntaxError | None => Ok (EmptyString, String c s') end
  else if bool_decide (q = Some c) then Ok (EmptyString, s')
  else if Ascii.eqb c "&" then
    let emit (r : ascii) (n : nat) :=
      rbind (Decoder_text q zero zero n s') (λ '(d, rest), Ok (String r d, rest)) in
    if has_prefix "lt;" s' then emit "<"%char 3%nat
    else if has_prefix "gt;" s' then emit ">"%char 3%nat
    else if has_prefix "amp;" s' then emit "&"%char 4%nat
    else if has_prefix "apos;" s' then emit "'"%char 5%nat
    else if has_prefix "quot;" s' then emit dquote 5%nat
    else if has_prefix "#" s' then Unmodelled
    else SyntaxError
  else if non_ascii c then Unmodelled
  else if in_range 13 13 c then
    rbind (Decoder_text q b1 c 0 s') (λ '(d, rest), Ok (String Go.newline d, rest))
  else if in_range 13 13 b1 && in_range 10 10 c then Decoder_text q b1 c 0 s'
  else if negb (in_range 32 127 c || in_range 9 10 c) then SyntaxError
  else rbind (Decoder_text q b1 c 0 s') (λ '(d, rest), Ok (String c d, rest)).
Proof. reflexivity. Qed.

Lemma Decoder_text_raw q b0 b1 c s :
  raw_ok c = true → q ≠ Some c → no_cr b1 →
  Decoder_text q b0 b1 0 (String c s)
  = rbind (Decoder_text q b1 c 0 s) (prepend (String c "")).
Proof.
  unfold raw_ok. rewrite !andb_true_iff, !negb_true_iff.
  intros (((Hp & Ha) & Hl) & Hg) Hq Hcr. rewrite <- rbind_prepend_cons.
  rewrite Decoder_text_step, Hg, andb_false_r, Hl, Ha.
  rewrite bool_decide_eq_false_2 by congruence.
  unfold no_cr in Hcr. rewrite Hcr. cbn [andb].
  apply orb_true_iff in Hp as [Hp | ->%Ascii.eqb_eq].
  - by destruct (plain_facts _ Hp) as (-> & -> & ->).
  - done.
Qed.

Lemma Decoder_text_entity q b0 b1 c s :
  q = None ∨ q = Some dquote → special c = true →
  Decoder_text q b0 b1 0 (escapeXML (String c "") +:+ s)
  = rbind (Decoder_text q zero zero 0 s) (prepend (String c "")).
Proof.
  intros Hq Hc. rewrite <- rbind_prepend_cons.
  destruct (special_cases _ Hc) as [->|[->|[->|[->| ->]]]];
    match goal with
    | |- context [escapeXML ?s] =>
        let v := eval vm_compute in (escapeXML s) in
        change (escapeXML s) with v
    end;
    rewrite sapp_cons, Decoder_text_step;
    change (Ascii.eqb "&" ">") with false; rewrite andb_false_r;
    destruct Hq as [-> | ->]; reflexivity.
Qed.

Lemma no_cr_zero : no_cr zero.
Proof. reflexivity. Qed.

Lemma raw_ok_no_cr c : raw_ok c = true → no_cr c.
Proof.
  unfold raw_ok, no_cr. rewrite !andb_true_iff.
  intros (((Hp & _) & _) & _).
  apply orb_true_iff in Hp as [Hp | ->%Ascii.eqb_eq]; [|done].
  by destruct (plain_facts _ Hp) as (_ & -> & _).
Qed.

(** An escaped text is read back as the text. *)
Lemma Decoder_text_escaped q v : ∀ b0 b1 s,
  q = None ∨ q = Some dquote → all_chars plain v = true → no_cr b1 →
  ∃ b0' b1', no_cr b1'
    ∧ Decoder_text q b0 b1 0 (escapeXML v +:+ s)
      = rbind (Decoder_text q b0' b1' 0 s) (prepend v).
Proof.
  induction v as [|c v IH]; intros b0 b1 s Hq Hv Hcr.
  - exists b0, b1. split; [done|]. by rewrite rbind_prepend_nil.
  - cbn in Hv. apply andb_true_iff in Hv as [Hc Hv].
    rewrite escapeXML_cons, sapp_assoc.
    destruct (special c) eqn:Hs.
    + rewrite Decoder_text_entity by done.
      destruct (IH zero zero s Hq Hv no_cr_zero) as (b0' & b1' & H1 & ->).
      exists b0', b1'. split; [done|]. by rewrite rbind_prepend_app.
    + rewrite escapeXML_not_special by done. rewrite sapp_cons, sapp_nil.
      assert (Hraw : raw_ok c = true).
      { unfold special in Hs. rewrite !orb_false_iff in Hs.
        destruct Hs as ((((H1 & H2) & H3) & _) & _).
        unfold raw_ok. by rewrite Hc, H1, H2, H3. }
      assert (Hqc : q ≠ Some c).
      { destruct Hq as [-> | ->]; [done|]. intros [= <-].
        unfold special in Hs. rewrite Ascii.eqb_refl in Hs.
        by rewrite !orb_true_r in Hs. }
      rewrite Decoder_text_raw by done.
      destruct (IH b1 c s Hq Hv (raw_ok_no_cr _ Hraw)) as (b0' & b1' & H1 & ->).
      exists b0', b1'. split; [done|]. by rewrite rbind_prepend_app.
Qed.

Lemma is_ws_raw_ok c : is_ws c = true → raw_ok c = true.
Proof.
  unfold is_ws. intros [->%Ascii.eqb_eq | ->%Ascii.eqb_eq]%orb_true_iff; done.
Qed.

(** White space is read as it stands. *)
Lemma Decoder_text_ws w : ∀ b0 b1 s,
  all_chars is_ws w = true → no_cr b1 →
  ∃ b0' b1', no_cr b1'
    ∧ Decoder_text None b0 b1 0 (w +:+ s)
      = rbind (Decoder_text None b0' b1' 0 s) (prepend w).
Proof.
  induction w as [|c w IH]; intros b0 b1 s Hw Hcr.
  - exists b0, b1. split; [done|]. by rewrite rbind_prepend_nil.
  - cbn in Hw. apply andb_true_iff in Hw as [Hc Hw].
    apply is_ws_raw_ok in Hc. rewrite sapp_cons.
    rewrite Decoder_text_raw by done.
    destruct (IH b1 c s Hw (raw_ok_no_cr _ Hc)) as (b0' & b1' & H1 & ->).
    exists b0', b1'. split; [done|]. by rewrite rbind_prepend_app.
Qed.

Lemma Decoder_text_lt b0 b1 r :
  Decoder_text None b0 b1 0 (String "<" r) = Ok ("", String "<" r).
Proof. cbn. by rewrite andb_false_r. Qed.

Lemma Decoder_text_quote b0 b1 r :
  Decoder_text (Some dquote) b0 b1 0 (String dquote r) = Ok ("", r).
Proof. cbn. by rewrite andb_false_r. Qed.

(** The value of an attribute, as the serializer writes it. *)
Lemma Decoder_text_attrval v r :
  all_chars plain v = true →
  Decoder_text (Some dquote) zero zero 0 (escapeXML v +:+ String dquote r)
  = Ok (v, r).
Proof.
  intros Hv.
  destruct (Decoder_text_escaped (Some dquote) v zero zero (String dquote r))
    as (b0 & b1 & _ & ->); [by right | done | done |].
  rewrite Decoder_text_quote. cbn. unfold prepend. cbn. by rewrite sapp_nil_r.
Qed.

(** Character data that is all white space, up to the next tag. *)
Lemma Decoder_text_white s r :
  lstrip s = String "<" r →
  Decoder_text None zero zero 0 s = Ok (lead s, String "<" r).
Proof.
  intros Hs. rewrite <- (lead_lstrip s) at 1. rewrite Hs.
  destruct (Decoder_text_ws (lead s) zero zero (String "<" r))
    as (b0 & b1 & _ & ->); [apply lead_ws | done |].
  rewrite Decoder_text_lt. cbn. unfold prepend. cbn. by rewrite sapp_nil_r.
Qed.

(** Character data that holds a text between white space, up to the next
    tag. *)
Lemma Decoder_text_payload w v s r :
  all_chars is_ws w = true → all_chars plain v = true →
  lstrip s = String "<" r →
  Decoder_text None zero zero 0 (w +:+ escapeXML v +:+ s)
  = Ok (w +:+ v +:+ lead s, String "<" r).
Proof.
  intros Hw Hv Hs.
  destruct (Decoder_text_ws w zero zero (escapeXML v +:+ s))
    as (b0 & b1 & H1 & ->); [done | done |].
  destruct (Decoder_text_escaped None v b0 b1 s)
    as (b0' & b1' & H2 & ->); [by left | done | done |].
  rewrite <- (lead_lstrip s) at 1. rewrite Hs.
  destruct (Decoder_text_ws (lead s) b0' b1' (String "<" r))
    as (b0'' & b1'' & _ & ->); [apply lead_ws | done |].
  rewrite Decoder_text_lt. cbn. unfold prepend. cbn. by rewrite sapp_nil_r.
Qed.

Lemma in_range_spec lo hi c :
  in_range lo hi c = true ↔ (lo ≤ nat_of_ascii c ≤ hi)%nat.
Proof. unfold in_range. rewrite andb_true_iff, !Nat.leb_le. done. Qed.

Lemma in_range_false lo hi c :
  in_range lo hi c = false ↔ (nat_of_ascii c < lo ∨ hi < nat_of_ascii c)%nat.
Proof. unfold in_range. rewrite andb_false_iff, !Nat.leb_gt. done. Qed.

Lemma eqb_code c d : Ascii.eqb c d = true → nat_of_ascii c = nat_of_ascii d.
Proof. by intros ->%Ascii.eqb_eq. Qed.

(** Reduce a fact on character classes to arithmetic on the code. *)
Ltac char_facts :=
  unfold name_char, isNameByte, isNameStart, is_letter, is_digit, is_space,
    is_ws, non_ascii, plain in *;
  repeat match goal with
  | H : _ || _ = true |- _ => apply orb_true_iff in H as [H|H]
  | H : _ && _ = true |- _ => apply andb_true_iff in H as [? H]
  | H : in_range _ _ _ = true |- _ => apply in_range_spec in H
  | H : Ascii.eqb ?c ?d = true |- _ =>
      apply eqb_code in H;
      let v := eval vm_compute in (nat_of_ascii d) in
      change (nat_of_ascii d) with v in H
  end.

Lemma code_neq c d : nat_of_ascii c ≠ nat_of_ascii d → Ascii.eqb c d = false.
Proof. intros H. apply Ascii.eqb_neq. congruence. Qed.

Ltac code_neq :=
  apply code_neq;
  match goal with
  | |- _ ≠ nat_of_ascii ?d =>
      let v := eval vm_compute in (nat_of_ascii d) in
      change (nat_of_ascii d) with v
  end; lia.

Lemma name_char_facts c :
  name_char c = true →
  isNameByte c = true ∧ Ascii.eqb c ":" = false ∧ is_space c = false.
Proof.
  intros H. assert (Hc : (45 ≤ nat_of_ascii c ≤ 122 ∧ nat_of_ascii c ≠ 58)%nat).
  { char_facts; lia. }
  split; [|split].
  - unfold name_char, isNameByte in *.
    by destruct (is_letter c), (is_digit c), (Ascii.eqb c "_"),
      (Ascii.eqb c ":"), (Ascii.eqb c "."), (Ascii.eqb c "-").
  - code_neq.
  - unfold is_space. rewrite !orb_false_iff. split; [split|].
    + code_neq.
    + apply in_range_false. lia.
    + apply in_range_false. lia.
Qed.

Lemma name_start_facts c :
  is_letter c || Ascii.eqb c "_" = true →
  name_char c = true ∧ isNameStart c = true
  ∧ Ascii.eqb c "/" = false ∧ Ascii.eqb c ">" = false
  ∧ Ascii.eqb c "?" = false ∧ Ascii.eqb c "!" = false
  ∧ Ascii.eqb c "<" = false.
Proof.
  intros H. assert (Hc : (65 ≤ nat_of_ascii c ≤ 122)%nat).
  { char_facts; lia. }
  split; [|split].
  - unfold name_char.
    by destruct (is_letter c), (is_digit c), (Ascii.eqb c "_").
  - unfold isNameStart.
    by destruct (is_letter c), (Ascii.eqb c "_"), (Ascii.eqb c ":").
  - split_and!; code_neq.
Qed.

Lemma xml_name_chars n :
  xml_name n = true →
  all_chars isNameByte n = true ∧ contains_char ":" n = false.
Proof.
  destruct n as [|c n]; [done|]. cbn. intros [Hc Hn]%andb_true_iff.
  destruct (name_start_facts _ Hc) as (Hc' & _).
  destruct (name_char_facts _ Hc') as (-> & -> & _). cbn.
  induction n as [|d n IH]; [done|]. cbn in *.
  apply andb_true_iff in Hn as [Hd Hn].
  destruct (name_char_facts _ Hd) as (-> & -> & _). cbn. auto.
Qed.

(** A name is read up to the first byte that cannot belong to one. *)
Lemma nsname_name n c r :
  xml_name n = true → isNameByte c = false → non_ascii c = false →
  nsname (n +:+ String c r) = Ok (n, String c r).
Proof.
  intros Hn Hc Ha. destruct (xml_name_chars _ Hn) as [H1 H2].
  unfold nsname. rewrite span_app by done. rewrite Ha.
  destruct n as [|c0 n]; [done|]. cbn in Hn.
  apply andb_true_iff in Hn as [Hc0 _].
  destruct (name_start_facts _ Hc0) as (_ & -> & _). cbn [negb].
  by rewrite H2.
Qed.

Lemma space_stop c r : is_space c = false → space (String c r) = String c r.
Proof. intros H. unfold space. cbn. by rewrite H. Qed.

(** The form of one serialized attribute in front of what follows. *)
Lemma attrStr_app kv s :
  attrStr kv +:+ s
  = String " " (kv.1 +:+ String "=" (String dquote
      (escapeXML kv.2 +:+ String dquote s))).
Proof.
  unfold attrStr. rewrite !sapp_assoc, !sapp_cons, !sapp_nil, !sapp_assoc.
  by rewrite !sapp_cons, !sapp_nil.
Qed.

(** The attributes of a tag are read back in the order they were written. *)
Lemma attributes_ser l : ∀ fuel term rest,
  forallb wf_attr l = true → (List.length l < fuel)%nat →
  term = "/>" ∨ term = ">" →
  attributes fuel (concat_str (attrStr <$> l) +:+ term +:+ rest)
  = Ok (l, bool_decide (term = "/>"), rest).
Proof.
  induction l as [|[k v] l IH]; intros fuel term rest Hl Hf Ht.
  - destruct fuel as [|fuel]; [cbn in Hf; lia|].
    cbn [fmap list_fmap concat_str]. rewrite sapp_nil.
    destruct Ht as [-> | ->]; reflexivity.
  - destruct fuel as [|fuel]; [cbn in Hf; lia|].
    cbn in Hl. apply andb_true_iff in Hl as [Hkv Hl].
    unfold wf_attr in Hkv. cbn in Hkv. apply andb_true_iff in Hkv as [Hk Hv].
    cbn [fmap list_fmap concat_str]. rewrite sapp_assoc, attrStr_app. cbn [fst snd].
    destruct k as [|c k]; [done|]. pose proof Hk as Hk'. cbn in Hk'.
    apply andb_true_iff in Hk' as [Hc _].
    destruct (name_start_facts _ Hc) as (Hnc & _ & H1 & H2 & _).
    destruct (name_char_facts _ Hnc) as (_ & _ & Hsp).
    cbn [attributes]. unfold space at 1. cbn [span]. change (is_space " ") with true.
    cbn iota. rewrite sapp_cons. cbn [span]. rewrite Hsp. cbn [snd].
    rewrite H1, H2. rewrite <- sapp_cons.
    rewrite nsname_name by done. cbn [rbind].
    rewrite space_stop by done. change (Ascii.eqb "=" "=") with true. cbn [negb].
    rewrite space_stop by done. rewrite Ascii.eqb_refl. cbn [orb].
    rewrite Decoder_text_attrval by done. cbn [rbind].
    rewrite IH by (done || cbn in Hf; lia). done.
Qed.

Lemma attrs_term_head l term rest :
  term = "/>" ∨ term = ">" →
  ∃ c r, concat_str (attrStr <$> l) +:+ term +:+ rest = String c r
    ∧ isNameByte c = false ∧ non_ascii c = false ∧ is_space c || Ascii.eqb c "/" || Ascii.eqb c ">" = true.
Proof.
  intros Ht. destruct l as [|kv l].
  - cbn [fmap list_fmap concat_str]. rewrite sapp_nil.
    destruct Ht as [-> | ->]; eexists _, _; (split; [reflexivity|done]).
  - cbn [fmap list_fmap concat_str]. rewrite sapp_assoc, attrStr_app.
    eexists _, _. split; [reflexivity|done].
Qed.

Lemma attrs_length l s :
  (List.length l < String.length (concat_str (attrStr <$> l) +:+ String ">" s)
   ∧ List.length l < String.length (concat_str (attrStr <$> l) +:+ String "/" s))%nat.
Proof.
  induction l as [|kv l IH]; cbn [fmap list_fmap concat_str].
  - rewrite !sapp_nil. cbn. lia.
  - rewrite !sapp_assoc, !(length_sapp (attrStr kv)).
    assert (1 ≤ String.length (attrStr kv))%nat.
    { unfold attrStr. rewrite sapp_cons. cbn [String.length]. lia. }
    cbn [List.length]. lia.
Qed.

(** The start tag of an element, self-closing or not. *)
Lemma Token_start tg l (leaf : bool) rest s0 :
  xml_name tg = true → forallb wf_attr l = true →
  Decoder_Token
    {| input := String "<" (tg +:+ concat_str (attrStr <$> l)
                            +:+ (if leaf then "/>" else ">") +:+ rest);
       needClose := None; stk := s0 |}
  = Tok (StartElement tg l)
        {| input := rest; needClose := if leaf then Some tg else None;
           stk := tg :: s0 |}.
Proof.
  intros Htg Hl. unfold Decoder_Token. cbn [needClose input stk].
  change (Ascii.eqb "<" "<") with true. cbn [negb].
  destruct tg as [|c tg]; [done|]. pose proof Htg as Htg'. cbn in Htg'.
  apply andb_true_iff in Htg' as [Hc _].
  destruct (name_start_facts _ Hc) as (_ & _ & H1 & _ & H3 & H4 & _).
  rewrite sapp_cons. rewrite H1, H3, H4. rewrite <- sapp_cons.
  set (term := if leaf then "/>" else ">").
  assert (Ht : term = "/>" ∨ term = ">") by (destruct leaf; auto).
  destruct (attrs_term_head l term rest Ht) as (c' & r' & HX & Hn & Ha & _).
  rewrite HX, nsname_name by done. cbn [lift]. rewrite <- HX.
  rewrite attributes_ser; [|done| |done].
  - cbn [lift]. by destruct leaf.
  - destruct (attrs_length l (String.append (if leaf then ">" else "") rest)) as [H5 H6].
    subst term. destruct leaf; [exact H6 | exact H5].
Qed.

(** The end tag of the innermost open element. *)
Lemma Token_end tg rest s0 :
  xml_name tg = true →
  Decoder_Token
    {| input := String "<" (String "/" (tg +:+ String ">" rest));
       needClose := None; stk := tg :: s0 |}
  = Tok (EndElement tg) {| input := rest; needClose := None; stk := s0 |}.
Proof.
  intros Htg. unfold Decoder_Token. cbn [needClose input stk].
  change (Ascii.eqb "<" "<") with true. cbn [negb].
  change (Ascii.eqb "/" "/") with true. cbn iota.
  rewrite nsname_name by done. cbn [lift].
  rewrite space_stop by done. change (Ascii.eqb ">" ">") with true. cbn iota.
  unfold popElement. cbn [stk]. by rewrite String.eqb_refl.
Qed.

(** The end of a self-closing element. *)
Lemma Token_close tg s s0 :
  Decoder_Token {| input := s; needClose := Some tg; stk := tg :: s0 |}
  = Tok (EndElement tg) {| input := s; needClose := None; stk := s0 |}.
Proof.
  unfold Decoder_Token, popElement. cbn. by rewrite String.eqb_refl.
Qed.

Lemma is_ws_not_lt c : is_ws c = true → Ascii.eqb c "<" = false.
Proof.
  unfold is_ws. by intros [->%Ascii.eqb_eq | ->%Ascii.eqb_eq]%orb_true_iff.
Qed.

(** White space between two tags. *)
Lemma Token_white s r s0 :
  lstrip s = String "<" r → lead s ≠ "" →
  Decoder_Token {| input := s; needClose := None; stk := s0 |}
  = Tok (CharData (lead s))
        {| input := String "<" r; needClose := None; stk := s0 |}.
Proof.
  intros Hs Hl. unfold Decoder_Token. cbn [needClose input stk].
  destruct s as [|c s]; [done|].
  destruct (is_ws c) eqn:Hc; [|by cbn in Hl; rewrite Hc in Hl].
  rewrite (is_ws_not_lt _ Hc). cbn [negb].
  by rewrite (Decoder_text_white _ _ Hs).
Qed.

(** A text payload between two tags. *)
Lemma Token_payload w v s r s0 :
  all_chars is_ws w = true → w ≠ "" → all_chars plain v = true →
  lstrip s = String "<" r →
  Decoder_Token {| input := w +:+ escapeXML v +:+ s; needClose := None;
                   stk := s0 |}
  = Tok (CharData (w +:+ v +:+ lead s))
        {| input := String "<" r; needClose := None; stk := s0 |}.
Proof.
  intros Hw Hne Hv Hs. unfold Decoder_Token. cbn [needClose input stk].
  destruct w as [|c w]; [done|]. cbn in Hw.
  apply andb_true_iff in Hw as [Hc Hw].
  rewrite sapp_cons. rewrite (is_ws_not_lt _ Hc). cbn [negb].
  rewrite <- sapp_cons.
  rewrite (Decoder_text_payload (String c w) v s r); [done| |done|done].
  cbn. by rewrite Hc, Hw.
Qed.

(** The XML declaration at the head of the document. *)
Lemma Token_header rest :
  Decoder_Token {| input := Header +:+ rest; needClose := None; stk := [] |}
  = Tok (ProcInst "xml" header_inst)
        {| input := Go.nl +:+ rest; needClose := None; stk := [] |}.
Proof. reflexivity. Qed.

(** The newline after the root element, and the end of the input. *)
Lemma Token_newline_eof :
  Decoder_Token {| input := Go.nl; needClose := None; stk := [] |}
  = Tok (CharData Go.nl) {| input := ""; needClose := None; stk := [] |}
  ∧ Decoder_Token {| input := ""; needClose := None; stk := [] |} = EOF.
Proof. split; reflexivity. Qed.

End DecoderFacts.

(** ** The parsing loop on the text of a tree *)

Module ParserFacts.
Import Xml XmlIO XmlLaw GoFacts StringFacts DecoderFacts.

Lemma Tree_ind' (P : Tree → Prop) :
  (∀ tg ats tx kids, Forall P kids → P (Node tg ats tx kids)) → ∀ t, P t.
Proof.
  intros H. fix IH 1. intros [tg ats tx kids]. apply H.
  induction kids as [|k kids IHk]; constructor; [apply IH | apply IHk].
Qed.

Lemma size_Node tg ats tx kids : size (Node tg ats tx kids) = S (sizes kids).
Proof. reflexivity. Qed.

Lemma alloc_Node a par tg ats tx kids :
  alloc a par (Node tg ats tx kids)
  = {| tag := tg; id := default "" (ats !! "id"); attrs := ats; text := tx;
       parent := par; children := child_addrs (S a) kids |}
    :: alloc_list (S a) (Some a) kids.
Proof.
  cbn [alloc]. f_equal. generalize (S a).
  induction kids as [|k ks IH]; intros b; cbn; [done|]. by rewrite IH.
Qed.

Lemma body_Node enum n tg ats tx kids :
  body enum n (Node tg ats tx kids)
  = String "<" (tg +:+ concat_str (attrStr <$> enum ats)
    +:+ (if String.eqb tx "" && bool_decide (kids = []) then "/>" else ">")
    +:+ (if String.eqb tx "" && bool_decide (kids = []) then ""
         else Go.nl
              +:+ (if String.eqb tx "" then ""
                   else indentStr (S n) +:+ escapeXML tx +:+ Go.nl)
              +:+ kids_str enum n kids
              +:+ indentStr n +:+ String "<" (String "/" (tg +:+ ">")))).
Proof.
  cbn [body]. do 4 f_equal.
  destruct (String.eqb tx "" && bool_decide (kids = [])); [done|].
  do 3 f_equal. induction kids as [|k ks IH]; [done|].
  cbn [kids_str]. rewrite <- IH. reflexivity.
Qed.

Lemma length_alloc t : ∀ a par, List.length (alloc a par t) = size t.
Proof.
  induction t as [tg ats tx kids IH] using Tree_ind'. intros a par.
  rewrite alloc_Node, size_Node. cbn. f_equal.
  generalize (S a). induction IH as [|k ks Hk _ IHks]; intros b; cbn; [done|].
  by rewrite length_app, Hk, IHks.
Qed.

Lemma length_alloc_list ks b par : List.length (alloc_list b par ks) = sizes ks.
Proof.
  revert b. induction ks as [|k ks IH]; intros b; cbn; [done|].
  by rewrite length_app, length_alloc, IH.
Qed.

Lemma nsteps_app j1 j2 c c' c'' :
  nsteps j1 c c' → nsteps j2 c' c'' → nsteps (j1 + j2) c c''.
Proof. induction 1; cbn; [done|]. intros. econstructor; eauto. Qed.

Lemma steps_le_app k1 k2 c c' c'' :
  steps_le k1 c c' → steps_le k2 c' c'' → steps_le (k1 + k2) c c''.
Proof.
  intros (j1 & H1 & S1) (j2 & H2 & S2). exists (j1 + j2)%nat.
  split; [lia|]. by eapply nsteps_app.
Qed.

Lemma steps_le_refl k c : steps_le k c c.
Proof. exists O. split; [lia|constructor]. Qed.

Lemma steps_le_one c c' : step c = Some c' → steps_le 1 c c'.
Proof. intros H. exists 1%nat. split; [lia|]. repeat econstructor. done. Qed.

Lemma steps_le_mono k k' c c' : (k ≤ k')%nat → steps_le k c c' → steps_le k' c c'.
Proof. intros Hk (j & Hj & S). exists j. split; [lia|done]. Qed.

Lemma parse_loop_nsteps j c c' f :
  nsteps j c c' → parse_loop (j + f) c.1 c.2 = parse_loop f c'.1 c'.2.
Proof.
  induction 1 as [|n c c' c'' Hs _ IH]; [done|]. cbn [Nat.add parse_loop].
  unfold step in Hs. destruct (Decoder_Token c.1) as [t d'| | |]; try done.
  destruct (handle t c.2) as [st'|]; [|done]. cbn in Hs. injection Hs as <-.
  cbn. exact IH.
Qed.

(** The attribute loop of the parser builds the map the serializer read,
    and the identifier is the value of the attribute [id]. *)
Lemma fold_attrs_inv (l : list (string * string)) :
  ∀ (m : gmap string string) (i : string),
  i = default "" (m !! "id") →
  ∃ m' i', foldl (λ '(m, i) '(k, v),
                    (<[k := v]> m, if String.eqb k "id" then v else i))
                 (m, i) l = (m', i')
    ∧ i' = default "" (m' !! "id")
    ∧ m' = foldl (λ (m : gmap string string) '(k, v), <[k := v]> m) m l.
Proof.
  induction l as [|[k v] l IH]; intros m i Hi; cbn.
  - eauto.
  - apply IH. destruct (String.eqb_spec k "id") as [->|Hne].
    + by rewrite lookup_insert_eq.
    + by rewrite lookup_insert_ne.
Qed.

Lemma foldl_insert_list_to_map (l : list (string * string)) :
  ∀ m : gmap string string,
  NoDup l.*1 →
  foldl (λ (m : gmap string string) '(k, v), <[k := v]> m) m l
  = list_to_map l ∪ m.
Proof.
  induction l as [|[k v] l IH]; intros m Hnd; cbn.
  - by rewrite (left_id_L ∅ (∪)).
  - apply NoDup_cons in Hnd as [Hk Hnd]. rewrite IH by done.
    rewrite <- insert_union_r by (by apply not_elem_of_list_to_map_1).
    by rewrite <- insert_union_l.
Qed.

Lemma fold_attrs enum ats :
  enum ats ≡ₚ map_to_list ats →
  foldl (λ '(m, i) '(k, v), (<[k := v]> m, if String.eqb k "id" then v else i))
        (∅, "") (enum ats)
  = (ats, default "" (ats !! "id")).
Proof.
  intros Hp.
  destruct (fold_attrs_inv (enum ats) ∅ "") as (m' & i' & -> & -> & ->); [done|].
  assert (Hnd : NoDup (enum ats).*1).
  { rewrite Hp. apply NoDup_fst_map_to_list. }
  rewrite foldl_insert_list_to_map by done.
  rewrite (right_id_L ∅ (∪)).
  rewrite (list_to_map_proper _ _ Hnd Hp), list_to_map_to_list. done.
Qed.

Lemma middle_lookup (h0 : list XMLElement) e A :
  (h0 ++ e :: A) !! List.length h0 = Some e.
Proof. by apply list_lookup_middle. Qed.

Lemma middle_insert (h0 : list XMLElement) e e' A :
  <[List.length h0 := e']> (h0 ++ e :: A) = h0 ++ e' :: A.
Proof.
  rewrite insert_app_r_alt by lia. by rewrite Nat.sub_diag.
Qed.

Lemma length_attach h cur a : List.length (attach h cur a) = List.length h.
Proof.
  unfold attach. destruct cur as [p|]; [|done].
  destruct (h !! p); [|done]. by rewrite length_insert.
Qed.

Lemma attach_middle (h0 : list XMLElement) e A b :
  attach (h0 ++ e :: A) (Some (List.length h0)) b
  = h0 ++ with_children e (children e ++ [b]) :: A.
Proof. unfold attach. by rewrite middle_lookup, middle_insert. Qed.

(** White space in front of a tag is read and dropped. *)
Lemma step_white s r' s0 h r cur :
  lstrip s = String "<" r' →
  steps_le 1 (cfg s None s0 h r cur) (cfg (String "<" r') None s0 h r cur).
Proof.
  intros Hs. destruct (decide (lead s = "")) as [He|Hne].
  - pose proof (lead_lstrip s) as H. rewrite He, Hs, sapp_nil in H.
    rewrite <- H. apply steps_le_refl.
  - apply steps_le_one. unfold step, cfg. cbn [fst snd].
    rewrite (Token_white _ _ _ Hs Hne). cbn [handle].
    rewrite TrimSpace_white.
    + by destruct cur.
    + eapply all_chars_impl; [apply is_ws_white | apply lead_ws].
Qed.

(** A start tag allocates an element below the current parent. *)
Lemma step_start enum tg ats (leaf : bool) rest s0 h r cur :
  enum ats ≡ₚ map_to_list ats →
  xml_name tg = true → forallb wf_attr (enum ats) = true →
  (∀ p, cur = Some p → (p < List.length h)%nat) →
  step (cfg (String "<" (tg +:+ concat_str (attrStr <$> enum ats)
                         +:+ (if leaf then "/>" else ">") +:+ rest))
            None s0 h r cur)
  = Some (cfg rest (if leaf then Some tg else None) (tg :: s0)
              (attach h cur (List.length h) ++ [fresh_elem tg ats cur])
              (match cur with None => Some (List.length h) | Some _ => r end)
              (Some (List.length h))).
Proof.
  intros Hp Htg Hl Hcur. unfold step, cfg. cbn [fst snd].
  rewrite Token_start by done. cbn [handle].
  rewrite (fold_attrs enum ats Hp). cbn [pheap currentParent proot].
  destruct cur as [p|]; [|done].
  specialize (Hcur p eq_refl).
  destruct (lookup_lt_is_Some_2 h p Hcur) as [pn Hpn].
  unfold attach. rewrite lookup_app_l by done. rewrite Hpn.
  cbn [mbind option_bind]. by rewrite insert_app_l.
Qed.

(** The end of an element pops the current parent. *)
Lemma step_close tg s s0 H r a e :
  H !! a = Some e →
  step (cfg s (Some tg) (tg :: s0) H r (Some a))
  = Some (cfg s None s0 H r (parent e)).
Proof.
  intros He. unfold step, cfg. cbn [fst snd].
  rewrite Token_close. cbn. by rewrite He.
Qed.

Lemma step_end tg rest s0 H r a e :
  xml_name tg = true → H !! a = Some e →
  step (cfg (String "<" (String "/" (tg +:+ String ">" rest)))
            None (tg :: s0) H r (Some a))
  = Some (cfg rest None s0 H r (parent e)).
Proof.
  intros Htg He. unfold step, cfg. cbn [fst snd].
  rewrite Token_end by done. cbn. by rewrite He.
Qed.

(** Character data with a text sets the text of the current parent. *)
Lemma step_payload w v s r' s0 H r a e :
  all_chars is_ws w = true → w ≠ "" → all_chars plain v = true →
  TrimSpace v = v → v ≠ "" →
  lstrip s = String "<" r' → H !! a = Some e →
  step (cfg (w +:+ escapeXML v +:+ s) None s0 H r (Some a))
  = Some (cfg (String "<" r') None s0 (<[a := with_text e v]> H) r (Some a)).
Proof.
  intros Hw Hne Hv Ht Hv0 Hs He. unfold step, cfg. cbn [fst snd].
  rewrite (Token_payload w v s r') by done. cbn [handle currentParent].
  rewrite TrimSpace_between; [|by eapply all_chars_impl; [apply is_ws_white|]
                              |eapply all_chars_impl; [apply is_ws_white|apply lead_ws]
                              |done].
  destruct (String.eqb_spec v ""); [done|]. cbn [pheap]. rewrite He. done.
Qed.

Lemma indentStr_ws n : all_chars is_ws (indentStr n) = true.
Proof. induction n as [|n IH]; [done|]. cbn [indentStr]. by rewrite all_chars_app, IH. Qed.

Lemma body_head enum n t : ∃ r, body enum n t = String "<" r.
Proof. destruct t. rewrite body_Node. eauto. Qed.

Lemma kids_str_cons enum n k ks R :
  kids_str enum n (k :: ks) +:+ R
  = indentStr (S n) +:+ body enum (S n) k +:+ Go.nl +:+ kids_str enum n ks +:+ R.
Proof. cbn [kids_str]. by rewrite !sapp_assoc. Qed.

Lemma lstrip_body enum n t rest :
  lstrip (body enum n t +:+ rest) = body enum n t +:+ rest.
Proof. destruct (body_head enum n t) as [r ->]. by rewrite sapp_cons. Qed.

Lemma lstrip_kids enum n ks R r' :
  lstrip R = String "<" r' →
  ∃ r'', lstrip (kids_str enum n ks +:+ R) = String "<" r''.
Proof.
  intros HR. destruct ks as [|k ks].
  - cbn [kids_str]. rewrite sapp_nil. eauto.
  - rewrite kids_str_cons, lstrip_app_ws by apply indentStr_ws.
    rewrite lstrip_body. destruct (body_head enum (S n) k) as [r ->].
    rewrite sapp_cons. eauto.
Qed.

Lemma lstrip_nl s : lstrip (Go.nl +:+ s) = lstrip s.
Proof. by apply lstrip_app_ws. Qed.

Lemma child_addrs_snoc cs b k ks :
  (cs ++ [b]) ++ child_addrs (b + size k) ks = cs ++ child_addrs b (k :: ks).
Proof. by rewrite <- app_assoc. Qed.

(** The children of an element are parsed one after the other. *)
Lemma parse_kids enum n h0 tg ats tx cur0 s0 r ks :
  Forall (parses enum) ks → forallb wf_tree ks = true →
  ∀ s2 cs A R r',
    lstrip s2 = lstrip (kids_str enum n ks +:+ R) →
    lstrip R = String "<" r' →
    ∃ s3, lstrip s3 = String "<" r'
      ∧ steps_le (5 * sizes ks)
          (cfg s2 None s0 (h0 ++ partial_elem tg ats tx cur0 cs :: A) r
               (Some (List.length h0)))
          (cfg s3 None s0
               (h0 ++ partial_elem tg ats tx cur0
                        (cs ++ child_addrs (S (List.length h0) + List.length A) ks)
                      :: A ++ alloc_list (S (List.length h0) + List.length A)
                                (Some (List.length h0)) ks)
               r (Some (List.length h0))).
Proof.
  induction 1 as [|k ks Hk _ IH]; intros Hwf s2 cs A R r' Hs2 HR.
  - exists s2. cbn [kids_str] in Hs2. rewrite sapp_nil in Hs2.
    split; [congruence|]. cbn [child_addrs alloc_list sizes].
    rewrite !app_nil_r. apply steps_le_refl.
  - cbn in Hwf. apply andb_true_iff in Hwf as [Hwk Hwks].
    rewrite kids_str_cons, lstrip_app_ws in Hs2 by apply indentStr_ws.
    rewrite lstrip_body in Hs2.
    set (a := List.length h0) in *.
    set (H := h0 ++ partial_elem tg ats tx cur0 cs :: A).
    set (b := (S a + List.length A)%nat).
    assert (HlenH : List.length H = b).
    { unfold H, b, a. rewrite length_app. cbn. lia. }
    pose proof (Hk (S n) s2 (Go.nl +:+ kids_str enum n ks +:+ R) s0 H r
                  (Some a) Hwk Hs2) as Hstep.
    rewrite HlenH in Hstep.
    assert (Hatt : attach H (Some a) b
                   = h0 ++ partial_elem tg ats tx cur0 (cs ++ [b]) :: A).
    { unfold H, a. by rewrite attach_middle. }
    rewrite Hatt in Hstep.
    destruct (IH Hwks (Go.nl +:+ kids_str enum n ks +:+ R) (cs ++ [b])
                (A ++ alloc b (Some a) k) R r') as (s3 & Hs3 & Hrest).
    { by rewrite lstrip_nl. }
    { done. }
    exists s3. split; [done|].
    replace (5 * sizes (k :: ks))%nat with (5 * size k + 5 * sizes ks)%nat
      by (cbn [sizes]; lia).
    eapply steps_le_app.
    + apply Hstep. intros p [= <-]. unfold b. lia.
    + rewrite <- app_assoc. cbn [app].
      replace (S a + List.length (A ++ alloc b (Some a) k))%nat
        with (b + size k)%nat in Hrest
        by (rewrite length_app, length_alloc; unfold b; lia).
      rewrite child_addrs_snoc in Hrest.
      rewrite <- app_assoc in Hrest. exact Hrest.
Qed.


Lemma wf_attr_enum enum (ats : gmap string string) :
  enum ats ≡ₚ map_to_list ats →
  forallb wf_attr (map_to_list ats) = true → forallb wf_attr (enum ats) = true.
Proof.
  intros Hp. rewrite !forallb_forall. intros H x Hx. apply H.
  apply list_elem_of_In. rewrite <- Hp. by apply list_elem_of_In.
Qed.

Lemma end_tag_app tg rest :
  String "<" (String "/" (tg +:+ ">")) +:+ rest
  = String "<" (String "/" (tg +:+ String ">" rest)).
Proof. by rewrite !sapp_cons, sapp_assoc, sapp_cons, sapp_nil. Qed.

(** An element is parsed into the elements [alloc] lists. *)
Lemma parse_element enum :
  (∀ m, enum m ≡ₚ map_to_list m) → ∀ t, parses enum t.
Proof.
  intros Henum t. induction t as [tg ats tx kids IH] using Tree_ind'.
  intros n s rest s0 h r cur Hwf Hs Hcur.
  cbn [wf_tree] in Hwf. rewrite !andb_true_iff in Hwf.
  destruct Hwf as ((((Htg & Hats) & Hplain) & Htrim) & Hkids).
  apply String.eqb_eq in Htrim.
  pose proof (wf_attr_enum enum ats (Henum ats) Hats) as Hats'.
  set (a := List.length h) in *.
  set (h0 := attach h cur a).
  assert (Hlen0 : List.length h0 = a) by apply length_attach.
  set (r1 := match cur with None => Some a | Some _ => r end).
  rewrite body_Node, sapp_cons, !sapp_assoc in Hs.
  rewrite size_Node, alloc_Node.
  (* white space, then the start tag *)
  eapply (steps_le_mono (1 + (1 + (3 + 5 * sizes kids)))); [lia|].
  eapply steps_le_app; [apply (step_white _ _ _ _ _ _ Hs)|].
  eapply steps_le_app.
  { apply steps_le_one.
    apply (step_start enum tg ats
             (String.eqb tx "" && bool_decide (kids = []))); auto. }
  fold a h0 r1.
  destruct (String.eqb_spec tx "") as [->|Htx]; cbn [andb].
  - destruct kids as [|k kids]; cbn [bool_decide decide_rel].
    + (* a self-closing element *)
      rewrite bool_decide_eq_true_2 by done. rewrite sapp_nil.
      eapply (steps_le_mono 1); [lia|]. apply steps_le_one.
      erewrite step_close; [|rewrite <- Hlen0; apply middle_lookup]. done.
    + (* children, no text *)
      rewrite bool_decide_eq_false_2 by done.
      rewrite !sapp_assoc, !sapp_nil, end_tag_app.
      destruct (parse_kids enum n h0 tg ats "" cur (tg :: s0) r1 (k :: kids)
                  IH Hkids
                  (Go.nl +:+ kids_str enum n (k :: kids) +:+ indentStr n
                   +:+ String "<" (String "/" (tg +:+ String ">" rest)))
                  [] []
                  (indentStr n +:+ String "<" (String "/" (tg +:+ String ">" rest)))
                  (String "/" (tg +:+ String ">" rest)))
        as (s3 & Hs3 & Hsteps).
      { by rewrite lstrip_nl. }
      { by rewrite lstrip_app_ws by apply indentStr_ws. }
      rewrite Hlen0 in Hsteps. cbn [app List.length] in Hsteps.
      rewrite Nat.add_0_r in Hsteps.
      eapply (steps_le_mono (5 * sizes (k :: kids) + (1 + 1))); [lia|].
      eapply steps_le_app; [exact Hsteps|].
      eapply steps_le_app; [apply (step_white _ _ _ _ _ _ Hs3)|].
      apply steps_le_one.
      erewrite step_end; [|done|rewrite <- Hlen0; apply middle_lookup]. done.
  - (* a text, then the children *)
    assert (Hb : String.eqb tx "" && bool_decide (kids = []) = false).
    { by rewrite (proj2 (String.eqb_neq tx "")). }
    destruct (String.eqb tx "") eqn:E; [by apply String.eqb_eq in E|].
    cbn [andb]. rewrite !sapp_assoc, end_tag_app.
    set (R := indentStr n +:+ String "<" (String "/" (tg +:+ String ">" rest))).
    assert (HR : lstrip R = String "<" (String "/" (tg +:+ String ">" rest))).
    { unfold R. by rewrite lstrip_app_ws by apply indentStr_ws. }
    destruct (lstrip_kids enum n kids R _ HR) as (r'' & Hr'').
    destruct (parse_kids enum n h0 tg ats tx cur (tg :: s0) r1 kids IH Hkids
                (String "<" r'') [] [] R
                (String "/" (tg +:+ String ">" rest))) as (s3 & Hs3 & Hsteps).
    { by rewrite Hr''. }
    { exact HR. }
    rewrite Hlen0 in Hsteps. cbn [app List.length] in Hsteps.
    rewrite Nat.add_0_r in Hsteps.
    assert (Heq : <[a := with_text (fresh_elem tg ats cur) tx]>
                    (h0 ++ [fresh_elem tg ats cur])
                  = h0 ++ [partial_elem tg ats tx cur []]).
    { rewrite <- Hlen0. by rewrite middle_insert. }
    assert (Hlook : (h0 ++ [fresh_elem tg ats cur]) !! a
                    = Some (fresh_elem tg ats cur)).
    { rewrite <- Hlen0. apply middle_lookup. }
    eapply (steps_le_mono (1 + (5 * sizes kids + (1 + 1)))); [lia|].
    eapply steps_le_app.
    { apply steps_le_one.
      rewrite <- (sapp_assoc Go.nl (indentStr (S n))).
      rewrite (step_payload (Go.nl +:+ indentStr (S n)) tx
                 (Go.nl +:+ kids_str enum n kids +:+ R) r'' (tg :: s0)
                 (h0 ++ [fresh_elem tg ats cur]) r1 a (fresh_elem tg ats cur));
        [|by rewrite all_chars_app, indentStr_ws|done|done|done|done
         |by rewrite lstrip_nl|done].
      rewrite Heq. reflexivity. }
    eapply steps_le_app; [exact Hsteps|].
    eapply steps_le_app; [apply (step_white _ _ _ _ _ _ Hs3)|].
    apply steps_le_one.
    erewrite step_end; [|done|rewrite <- Hlen0; apply middle_lookup]. done.
Qed.

End ParserFacts.

(** ** Serialization followed by parsing *)

Module RoundTrip.
Import Xml XmlIO XmlLaw Samples GoFacts StringFacts DecoderFacts ParserFacts.

(** *** The serializer on a heap writes the text of the tree *)

Lemma open_tag_app i tg ats term tail :
  (i +:+ "<" +:+ tg +:+ ats) +:+ term +:+ tail
  = i +:+ String "<" (tg +:+ ats +:+ term +:+ tail).
Proof. by rewrite !sapp_assoc, sapp_cons, sapp_nil. Qed.

Lemma close_tag_eq tg rest :
  "</" +:+ tg +:+ ">" +:+ rest = String "<" (String "/" (tg +:+ String ">" rest)).
Proof. reflexivity. Qed.

Lemma serialize_kids enum f h n cs :
  (∀ a n t, tree_at_fuel f h a = Some t →
     serializeNode_fuel enum f h (Some a) n
     = Some (indentStr n +:+ body enum n t +:+ Go.nl)) →
  ∀ ks,
  (fix each (cs : list addr) : option (list Tree) :=
     match cs with
     | [] => Some []
     | c :: cs' =>
         t ← tree_at_fuel f h c; ts ← each cs'; Some (t :: ts)
     end) cs = Some ks →
  (fix each (cs : list addr) : option string :=
     match cs with
     | [] => Some ""
     | child :: cs' =>
         s ← serializeNode_fuel enum f h (Some child) (S n);
         r ← each cs';
         Some (s +:+ r)
     end) cs = Some (kids_str enum n ks)
  ∧ (cs = [] ↔ ks = []).
Proof.
  intros IH. induction cs as [|c cs IHcs]; intros ks Hks.
  - injection Hks as <-. done.
  - destruct (tree_at_fuel f h c) as [t|] eqn:Ht; [|done]. cbn in Hks.
    match type of Hks with
    | context [(?fx cs)] => destruct (fx cs) as [ts|] eqn:Hts; [|done]
    end.
    cbn in Hks. injection Hks as <-.
    rewrite (IH _ (S n) _ Ht). cbn [mbind option_bind].
    destruct (IHcs ts eq_refl) as [-> _]. cbn [mbind option_bind kids_str].
    split; [|done]. by rewrite !sapp_assoc.
Qed.

Lemma serialize_tree enum f : ∀ h a n t,
  tree_at_fuel f h a = Some t →
  serializeNode_fuel enum f h (Some a) n
  = Some (indentStr n +:+ body enum n t +:+ Go.nl).
Proof.
  induction f as [|f IH]; intros h a n t Ht; [done|].
  cbn [tree_at_fuel] in Ht. cbn [serializeNode_fuel].
  destruct (h !! a) as [e|]; [|done]. cbn [mbind option_bind] in *.
  match type of Ht with
  | context [(?fx (children e))] =>
      destruct (fx (children e)) as [ks|] eqn:Hks; [|done]
  end.
  cbn in Ht. injection Ht as <-.
  destruct (serialize_kids enum f h n (children e) (IH h) ks Hks) as [Hser Hnil].
  rewrite body_Node.
  assert (Hb : bool_decide (children e = []) = bool_decide (ks = [])).
  { apply bool_decide_ext. done. }
  rewrite Hb.
  destruct (String.eqb (text e) "" && bool_decide (ks = [])) eqn:Hleaf.
  - rewrite open_tag_app. by rewrite (sapp_cons "<"), !sapp_assoc, sapp_nil.
  - rewrite Hser. cbn [mbind option_bind]. f_equal.
    rewrite open_tag_app, close_tag_eq.
    by rewrite (sapp_cons "<"), !sapp_assoc, end_tag_app.
Qed.

(** *** The heap the parser builds holds the tree *)

Lemma tree_at_kids f par : ∀ ks,
  Forall (λ t, ∀ a par h1 h2 f, List.length h1 = a → (size t ≤ f)%nat →
             tree_at_fuel f (h1 ++ alloc a par t ++ h2) a = Some t) ks →
  ∀ b H1 H2, List.length H1 = b → (sizes ks ≤ f)%nat →
  (fix each (cs : list addr) : option (list Tree) :=
     match cs with
     | [] => Some []
     | c :: cs' =>
         t ← tree_at_fuel f (H1 ++ alloc_list b par ks ++ H2) c;
         ts ← each cs'; Some (t :: ts)
     end) (child_addrs b ks) = Some ks.
Proof.
  induction 1 as [|k ks Hk _ IH]; intros b H1 H2 Hb Hf; [done|].
  cbn [child_addrs alloc_list sizes] in *.
  rewrite <- (app_assoc (alloc b par k)).
  rewrite (Hk b par H1 _ f Hb) by lia. cbn [mbind option_bind].
  specialize (IH (b + size k)%nat (H1 ++ alloc b par k) H2).
  rewrite <- app_assoc in IH. rewrite IH; [done| |lia].
  rewrite length_app, length_alloc. lia.
Qed.

Lemma tree_at_alloc t : ∀ a par h1 h2 f,
  List.length h1 = a → (size t ≤ f)%nat →
  tree_at_fuel f (h1 ++ alloc a par t ++ h2) a = Some t.
Proof.
  induction t as [tg ats tx kids IH] using Tree_ind'.
  intros a par h1 h2 f Ha Hf. rewrite size_Node in Hf.
  destruct f as [|f]; [lia|]. rewrite alloc_Node.
  cbn [tree_at_fuel]. cbn [app].
  rewrite list_lookup_middle by done. cbn [mbind option_bind children].
  pose proof (tree_at_kids f (Some a) kids IH (S a)
                (h1 ++ [partial_elem tg ats tx par (child_addrs (S a) kids)])
                h2) as Hk.
  rewrite <- app_assoc in Hk. cbn [app] in Hk.
  unfold partial_elem in Hk. rewrite Hk; [done| |lia].
  rewrite length_app. cbn. lia.
Qed.

(** *** Nothing in the serialized text looks like a comment *)

Lemma lt_ok_app a b : lt_ok a = true → lt_ok b = true → lt_ok (a +:+ b) = true.
Proof.
  intros Ha Hb. induction a as [|c a IH]; [done|].
  rewrite sapp_cons. cbn in *. apply andb_true_iff in Ha as [Hc Ha].
  rewrite IH by done. rewrite andb_true_r.
  destruct (Ascii.eqb c "<"); [|done].
  destruct a as [|d a]; [done|]. by rewrite sapp_cons.
Qed.

Lemma lt_ok_not_lt s : all_chars not_lt s = true → lt_ok s = true.
Proof.
  induction s as [|c s IH]; [done|]. cbn. unfold not_lt at 1.
  intros [Hc Hs]%andb_true_iff. apply negb_true_iff in Hc. rewrite Hc. auto.
Qed.

Lemma removeComments_lt_ok s : lt_ok s = true → removeComments false 0 s = s.
Proof.
  induction s as [|c s IH]; [done|]. cbn [lt_ok removeComments].
  intros [Hc Hs]%andb_true_iff. rewrite (IH Hs).
  cbn [has_prefix]. rewrite (Ascii.eqb_sym "<" c).
  destruct (Ascii.eqb c "<"); [|done].
  destruct s as [|d s]; [done|]. cbn [has_prefix].
  rewrite (Ascii.eqb_sym "!" d). apply negb_true_iff in Hc. by rewrite Hc.
Qed.

Lemma escapeXML_not_lt v : all_chars not_lt (escapeXML v) = true.
Proof.
  induction v as [|c v IH]; [done|].
  rewrite escapeXML_cons, all_chars_app, IH, andb_true_r.
  destruct (special c) eqn:Hs.
  - by destruct (special_cases _ Hs) as [->|[->|[->|[->| ->]]]].
  - rewrite escapeXML_not_special by done. cbn. rewrite andb_true_r.
    unfold special in Hs. rewrite !orb_false_iff in Hs.
    destruct Hs as ((((_ & H) & _) & _) & _). unfold not_lt. by rewrite H.
Qed.

Lemma name_not_lt n : xml_name n = true → all_chars not_lt n = true.
Proof.
  intros [H _]%xml_name_chars. eapply all_chars_impl; [|exact H].
  intros c Hc. unfold not_lt. apply negb_true_iff.
  destruct (Ascii.eqb_spec c "<") as [->|]; done.
Qed.

Lemma ws_not_lt w : all_chars is_ws w = true → all_chars not_lt w = true.
Proof.
  apply all_chars_impl. intros c Hc. unfold not_lt.
  by rewrite (is_ws_not_lt _ Hc).
Qed.

Lemma attrs_not_lt l :
  forallb wf_attr l = true →
  all_chars not_lt (concat_str (attrStr <$> l)) = true.
Proof.
  induction l as [|[k v] l IH]; [done|]. cbn [forallb fmap list_fmap concat_str].
  intros [Hkv Hl]%andb_true_iff. apply andb_true_iff in Hkv as [Hk Hv].
  cbn in Hk. rewrite all_chars_app, (IH Hl), andb_true_r.
  unfold attrStr. cbn [fst snd]. rewrite !all_chars_app. cbn [all_chars].
  rewrite all_chars_app, (name_not_lt _ Hk), escapeXML_not_lt. done.
Qed.

Lemma lt_ok_kids enum n ks :
  Forall (λ k, ∀ n, wf_tree k = true → lt_ok (body enum n k) = true) ks →
  forallb wf_tree ks = true → lt_ok (kids_str enum n ks) = true.
Proof.
  induction 1 as [|k ks Hk _ IH]; [done|]. cbn [forallb kids_str].
  intros [Hwk Hwks]%andb_true_iff.
  repeat apply lt_ok_app;
    first [ by apply Hk | by apply IH | reflexivity
          | apply lt_ok_not_lt, ws_not_lt, indentStr_ws ].
Qed.

Lemma lt_ok_body enum :
  (∀ m, enum m ≡ₚ map_to_list m) →
  ∀ t n, wf_tree t = true → lt_ok (body enum n t) = true.
Proof.
  intros Henum t. induction t as [tg ats tx kids IH] using Tree_ind'.
  intros n Hwf. cbn [wf_tree] in Hwf. rewrite !andb_true_iff in Hwf.
  destruct Hwf as ((((Htg & Hats) & Hplain) & Htrim) & Hkids).
  pose proof (wf_attr_enum enum ats (Henum ats) Hats) as Hats'.
  rewrite body_Node.
  assert (Hend : lt_ok (String "<" (String "/" (tg +:+ ">"))) = true).
  { cbn [lt_ok]. change (Ascii.eqb "<" "<") with true.
    change (Ascii.eqb "/" "<") with false. cbn [negb andb].
    apply lt_ok_not_lt. by rewrite all_chars_app, name_not_lt. }
  assert (Hrest : lt_ok (tg +:+ concat_str (attrStr <$> enum ats)
    +:+ (if String.eqb tx "" && bool_decide (kids = []) then "/>" else ">")
    +:+ (if String.eqb tx "" && bool_decide (kids = []) then ""
         else Go.nl
              +:+ (if String.eqb tx "" then ""
                   else indentStr (S n) +:+ escapeXML tx +:+ Go.nl)
              +:+ kids_str enum n kids
              +:+ indentStr n +:+ String "<" (String "/" (tg +:+ ">")))) = true).
  { assert (Hk : lt_ok (kids_str enum n kids) = true).
    { apply lt_ok_kids; [|done]. eapply Forall_impl; [exact IH|]. cbn. auto. }
    destruct (String.eqb tx ""), (bool_decide (kids = [])); cbn [andb];
      repeat apply lt_ok_app;
      first [ exact Hend | exact Hk | reflexivity
            | apply lt_ok_not_lt;
              first [ by apply name_not_lt | by apply attrs_not_lt
                    | apply ws_not_lt, indentStr_ws
                    | apply escapeXML_not_lt ] ]. }
  cbn [lt_ok]. rewrite Hrest, andb_true_r. change (Ascii.eqb "<" "<") with true.
  destruct tg as [|c tg]; [done|]. rewrite sapp_cons.
  cbn in Htg. apply andb_true_iff in Htg as [Hc _].
  destruct (name_start_facts _ Hc) as (_ & _ & _ & _ & _ & -> & _). done.
Qed.

Lemma length_kids enum n ks :
  Forall (λ k, ∀ n, wf_tree k = true →
            (4 * size k ≤ String.length (body enum n k))%nat) ks →
  forallb wf_tree ks = true →
  (4 * sizes ks ≤ String.length (kids_str enum n ks))%nat.
Proof.
  induction 1 as [|k ks Hk _ IH]; [done|]. cbn [forallb kids_str sizes].
  intros [Hwk Hwks]%andb_true_iff.
  rewrite !length_sapp. specialize (Hk (S n) Hwk). specialize (IH Hwks). lia.
Qed.

Lemma length_body enum t : ∀ n,
  wf_tree t = true → (4 * size t ≤ String.length (body enum n t))%nat.
Proof.
  induction t as [tg ats tx kids IH] using Tree_ind'.
  intros n Hwf. cbn [wf_tree] in Hwf. rewrite !andb_true_iff in Hwf.
  destruct Hwf as ((((Htg & _) & _) & _) & Hkids).
  pose proof (length_kids enum n kids IH Hkids) as Hk.
  rewrite body_Node, size_Node. cbn [String.length]. rewrite !length_sapp.
  assert (1 ≤ String.length tg)%nat by (destruct tg; [done|cbn; lia]).
  destruct (String.eqb tx "" && bool_decide (kids = [])) eqn:Hleaf.
  - apply andb_true_iff in Hleaf as [_ Hnil%bool_decide_eq_true]. subst kids.
    cbn. lia.
  - rewrite !length_sapp. cbn [String.length]. rewrite length_sapp. lia.
Qed.

(** The parser on the serialized form of a tree. *)
Lemma parse_serialized enum t :
  (∀ m, enum m ≡ₚ map_to_list m) → wf_tree t = true →
  parseXMLContent (Header +:+ indentStr 0 +:+ body enum 0 t +:+ Go.nl)
  = Some (ParsedRoot (alloc 0 None t) 0%nat).
Proof.
  intros Henum Hwf. cbn [indentStr]. rewrite sapp_nil.
  set (content := Header +:+ body enum 0 t +:+ Go.nl).
  assert (Hclean : removeXMLComments content = content).
  { apply removeComments_lt_ok. unfold content.
    apply lt_ok_app; [reflexivity|].
    apply lt_ok_app; [by apply lt_ok_body | reflexivity]. }
  assert (Hlen : (39 + 4 * size t ≤ String.length content)%nat).
  { unfold content. rewrite !length_sapp.
    pose proof (length_body enum t 0%nat Hwf).
    change (String.length Header) with 39%nat. lia. }
  unfold parseXMLContent. rewrite Hclean.
  destruct (String.eqb_spec content "") as [He|_].
  { rewrite He in Hlen. cbn in Hlen. lia. }
  (* the declaration, the root element, the last newline *)
  assert (Hsteps : steps_le (1 + (5 * size t + 1))
            (cfg content None [] [] None None)
            (cfg "" None [] (alloc 0 None t) (Some 0%nat) None)).
  { eapply steps_le_app.
    { apply steps_le_one. unfold step, cfg, content. cbn [fst snd].
      rewrite Token_header. reflexivity. }
    eapply steps_le_app.
    { apply (parse_element enum Henum t 0%nat _ Go.nl [] [] None None Hwf).
      - by rewrite lstrip_nl, lstrip_body.
      - done. }
    apply steps_le_one. unfold step, cfg. cbn [fst snd].
    by rewrite (proj1 Token_newline_eof). }
  destruct Hsteps as (j & Hj & Hn).
  replace (2 * String.length content + 2)%nat
    with (j + S (2 * String.length content + 1 - j))%nat by lia.
  change (NewDecoder content) with (cfg content None [] [] None None).1.
  change {| pheap := []; proot := None; currentParent := None |}
    with (cfg content None [] [] None None).2.
  rewrite (parse_loop_nsteps _ _ _ _ Hn). cbn [parse_loop fst snd cfg].
  by rewrite (proj2 Token_newline_eof).
Qed.




End RoundTrip.

(** ** Delete, replace and append; what an insert does to the content *)

Module TextMoreFacts.
Import Text TextMore GoFacts TextFacts.

Lemma sapp_assoc' s1 s2 s3 : (s1 +:+ s2) +:+ s3 = s1 +:+ s2 +:+ s3.
Proof. induction s1 as [|c s1 IH]; [done|]. by rewrite !sapp_cons, IH. Qed.

Lemma sapp_nil_r' s : s +:+ "" = s.
Proof. induction s as [|c s IH]; [done|]. by rewrite sapp_cons, IH. Qed.

Lemma fits_insert ed i l :
  fits ed = true → (i < List.length (lines ed))%nat → Go.slen l < Go.int_max →
  fits {| lines := <[i := l]> (lines ed); isModified := true |} = true.
Proof.
  unfold fits. rewrite !andb_true_iff, !forallb_forall. cbn [lines].
  intros [H1 H2] Hi Hl. split.
  - unfold Go.len in *. by rewrite length_insert.
  - intros s Hs. apply list_elem_of_In, list_elem_of_lookup in Hs as [j Hj].
    destruct (decide (i = j)) as [->|Hne].
    + rewrite list_lookup_insert_eq in Hj by done. simplify_eq.
      by apply Z.ltb_lt.
    + rewrite list_lookup_insert_ne in Hj by done.
      apply H2, list_elem_of_In, list_elem_of_lookup. eauto.
Qed.

(** The validation of a delete never panics on a buffer a program can hold. *)
Lemma DeleteCommand_validate_total ed d :
  fits ed = true → ∃ b, DeleteCommand_validate ed d = Some b.
Proof.
  intros Hf. unfold DeleteCommand_validate.
  destruct (Z.ltb_spec (del_line d) 1); [by eexists|].
  destruct (Z.ltb_spec (Go.len (lines ed)) (del_line d)); [by eexists|]. cbn [orb].
  destruct (line_index ed (del_line d)) as (Hs & prev & Hi & Hl & Hb); [done|lia|].
  rewrite Hi. cbn.
  repeat match goal with |- context [if ?b then _ else _] => destruct b end;
    by eexists.
Qed.

(** What a delete that passes validation does, and its undo. *)
Lemma DeleteCommand_Execute_spec ed line col length :
  fits ed = true → Go.is_int col → Go.is_int length →
  col - 1 + length ≤ Go.int_max →
  DeleteCommand_validate ed (NewDeleteCommand line col length) = Some true →
  ∃ prev ed1,
    lines ed !! Z.to_nat (line - 1) = Some prev
    ∧ 1 ≤ line ≤ Go.len (lines ed)
    ∧ 0 ≤ col - 1 < Go.slen prev ∧ 0 < length
    ∧ col - 1 + length ≤ Go.slen prev
    ∧ DeleteCommand_Execute ed (NewDeleteCommand line col length)
      = Some (ed1, {| del_line := line; del_col := col; del_length := length;
                      del_prevLine := prev; del_executed := true |})
    ∧ lines ed1 = <[Z.to_nat (line - 1) :=
                     Go.stake (Z.to_nat (col - 1)) prev
                     +:+ Go.sdrop (Z.to_nat (col - 1 + length)) prev]> (lines ed).
Proof.
  intros Hf Hc Hn Hov Hv.
  destruct (DeleteCommand_validate_true ed (NewDeleteCommand line col length)
              Hf Hc Hn Hv)
    as (prev & Hr & Hp & Hs1 & Hs2 & Hc1 & Hn1 & Hsum).
  cbn [del_line del_col del_length NewDeleteCommand] in *.
  pose proof (fits_line _ _ _ Hf Hp) as Hb.
  assert (HS : Go.add (col - 1) length = col - 1 + length).
  { apply wrap_id. int_lia. }
  rewrite HS in Hsum.
  exists prev. unfold DeleteCommand_Execute. rewrite Hv. cbn.
  rewrite Hs1, Hs2, HS.
  destruct (index_in_range (lines ed) (line - 1)) as (v & Hi & Hi'); [lia|].
  rewrite Hi. cbn. assert (v = prev) as -> by congruence.
  assert (Go.sslice_to prev (col - 1) = Some (Go.stake (Z.to_nat (col - 1)) prev)) as ->.
  { apply sslice_to_Some. split; [lia|done]. }
  cbn.
  assert (Go.sslice_from prev (col - 1 + length)
          = Some (Go.sdrop (Z.to_nat (col - 1 + length)) prev)) as ->.
  { apply sslice_from_Some. split; [lia|done]. }
  cbn.
  destruct (Go.set (lines ed) (line - 1) _) as [ls|] eqn:Hset.
  2:{ exfalso. unfold Go.set in Hset. revert Hset. zbool; try done; lia. }
  apply set_Some in Hset as [_ ->]. cbn.
  eexists. split_and!; try done; lia.
Qed.

(** A delete that passes validation is carried out: the target line
    loses exactly the [length] bytes from the column on, every other line and
    the number of lines stay, and the undo gives back the line sequence. *)
Theorem DeleteCommand_Execute_Undo ed line col length :
  fits ed = true → Go.is_int col → Go.is_int length →
  col - 1 + length ≤ Go.int_max →
  DeleteCommand_validate ed (NewDeleteCommand line col length) = Some true →
  ∃ prev ed1 c1 ed2 c2,
    lines ed !! Z.to_nat (line - 1) = Some prev
    ∧ DeleteCommand_Execute ed (NewDeleteCommand line col length)
      = Some (ed1, c1)
    ∧ DeleteCommand_IsExecuted c1 = true
    ∧ lines ed1 = <[Z.to_nat (line - 1) :=
                     Go.stake (Z.to_nat (col - 1)) prev
                     +:+ Go.sdrop (Z.to_nat (col - 1 + length)) prev]> (lines ed)
    ∧ Go.slen (Go.stake (Z.to_nat (col - 1)) prev
               +:+ Go.sdrop (Z.to_nat (col - 1 + length)) prev)
      = Go.slen prev - length
    ∧ DeleteCommand_Undo ed1 c1 = Some (ed2, c2)
    ∧ lines ed2 = lines ed.
Proof.
  intros Hf Hc Hn Hov Hv.
  destruct (DeleteCommand_Execute_spec _ _ _ _ Hf Hc Hn Hov Hv)
    as (prev & ed1 & Hp & Hr & Hc1 & Hn1 & Hsum & He & Hl).
  exists prev, ed1. eexists _, _, _. split; [done|]. split; [exact He|].
  split; [done|]. split; [done|]. split.
  { unfold Go.slen in *. rewrite length_sapp, length_stake, length_sdrop. lia. }
  unfold DeleteCommand_Undo. cbn.
  assert (Go.sub line 1 = line - 1) as ->.
  { apply wrap_id. pose proof (fits_len _ Hf). int_lia. }
  unfold Go.set. rewrite Hl. unfold Go.len. rewrite length_insert.
  fold (Go.len (lines ed)).
  destruct (Z.ltb_spec (line - 1) 0); [lia|].
  destruct (Z.leb_spec (Go.len (lines ed)) (line - 1)); [lia|]. cbn.
  split; [reflexivity|]. cbn.
  rewrite list_insert_insert_eq. by apply list_insert_id.
Qed.

Lemma DeleteCommand_Execute_Undo_witness :
  ∃ prev ed1 c1 ed2 c2,
    lines buffer_Hello !! Z.to_nat (1 - 1) = Some prev
    ∧ DeleteCommand_Execute buffer_Hello (NewDeleteCommand 1 2 3)
      = Some (ed1, c1)
    ∧ DeleteCommand_IsExecuted c1 = true
    ∧ lines ed1 = <[Z.to_nat (1 - 1) :=
                     Go.stake (Z.to_nat (2 - 1)) prev
                     +:+ Go.sdrop (Z.to_nat (2 - 1 + 3)) prev]> (lines buffer_Hello)
    ∧ Go.slen (Go.stake (Z.to_nat (2 - 1)) prev
               +:+ Go.sdrop (Z.to_nat (2 - 1 + 3)) prev)
      = Go.slen prev - 3
    ∧ DeleteCommand_Undo ed1 c1 = Some (ed2, c2)
    ∧ lines ed2 = lines buffer_Hello.
Proof.
  apply (DeleteCommand_Execute_Undo buffer_Hello 1 2 3);
    first [ reflexivity | vm_compute; split; discriminate
          | vm_compute; discriminate ].
Defined.

(** The one way a delete panics: its validation adds the column index
    and the length as [int]s, so a sum beyond the largest [int] wraps around
    to a negative number, passes the test against the end of the line, and
    [Execute] then slices the line at that negative index. *)
Theorem DeleteCommand_Execute_panics_iff ed line col length :
  fits ed = true → Go.is_int col → Go.is_int length →
  (DeleteCommand_Execute ed (NewDeleteCommand line col length) = None
   ↔ ∃ prev, 1 ≤ line ≤ Go.len (lines ed)
       ∧ lines ed !! Z.to_nat (line - 1) = Some prev
       ∧ 1 ≤ col ≤ Go.slen prev
       ∧ Go.int_max < col - 1 + length).
Proof.
  intros Hf Hc Hn. split.
  - intros Hx.
    destruct (DeleteCommand_validate_total ed (NewDeleteCommand line col length) Hf)
      as [[] Hv].
    + destruct (DeleteCommand_validate_true ed (NewDeleteCommand line col length)
                  Hf Hc Hn Hv)
        as (prev & Hr & Hp & Hs1 & Hs2 & Hc1 & Hn1 & Hsum).
      cbn [del_line del_col del_length NewDeleteCommand] in *.
      exists prev. split_and!; try done; try lia.
      destruct (decide (col - 1 + length ≤ Go.int_max)) as [Hov|]; [|lia].
      destruct (DeleteCommand_Execute_spec _ _ _ _ Hf Hc Hn Hov Hv)
        as (? & ? & _ & _ & _ & _ & _ & He & _).
      congruence.
    + unfold DeleteCommand_Execute in Hx. rewrite Hv in Hx. done.
  - intros (prev & Hr & Hp & Hcol & Hov).
    pose proof (fits_line _ _ _ Hf Hp) as Hb.
    pose proof (fits_len _ Hf) as Hl.
    destruct (line_index ed line Hf Hr) as (Hs & l & Hi & Hl' & _).
    assert (l = prev) as -> by congruence.
    assert (Hs2 : Go.sub col 1 = col - 1) by (apply wrap_id; int_lia).
    assert (Hw : Go.add (col - 1) length = col - 1 + length - 2 ^ 64).
    { apply wrap_above. int_lia. }
    unfold DeleteCommand_Execute, DeleteCommand_validate.
    cbn [del_line del_col del_length NewDeleteCommand].
    destruct (Z.ltb_spec line 1); [lia|].
    destruct (Z.ltb_spec (Go.len (lines ed)) line); [lia|]. cbn [orb].
    rewrite Hi. cbn. rewrite Hs2, Hw.
    destruct (Z.ltb_spec (col - 1) 0); [lia|].
    destruct (Z.leb_spec (Go.slen prev) (col - 1)); [lia|].
    destruct (Z.leb_spec length 0); [int_lia|]. cbn [orb].
    destruct (Z.ltb_spec (Go.slen prev) (col - 1 + length - 2 ^ 64)); [int_lia|].
    cbn.
    assert (Go.sslice_to prev (col - 1) = Some (Go.stake (Z.to_nat (col - 1)) prev)) as ->.
    { apply sslice_to_Some. split; [lia|done]. }
    cbn. unfold Go.sslice_from.
    destruct (Z.ltb_spec (col - 1 + length - 2 ^ 64) 0); [done|int_lia].
Qed.

Lemma DeleteCommand_Execute_panics_witness :
  DeleteCommand_Execute buffer_Hello (NewDeleteCommand 1 2 Go.int_max) = None.
Proof.
  apply (DeleteCommand_Execute_panics_iff buffer_Hello 1 2 Go.int_max);
    [ reflexivity | vm_compute; split; discriminate
    | vm_compute; split; discriminate | ].
  exists "Hello". vm_compute. repeat split; discriminate.
Defined.

Lemma InsertCommand_validate_total ed i :
  fits ed = true → ∃ b, InsertCommand_validate ed i = Some b.
Proof.
  intros Hf. unfold InsertCommand_validate.
  destruct (Z.eqb_spec (Go.len (lines ed)) 0); [by eexists|].
  destruct (Z.ltb_spec (ins_line i) 1); [by eexists|].
  destruct (Z.ltb_spec (Go.len (lines ed)) (ins_line i)); [by eexists|]. cbn [orb].
  destruct (line_index ed (ins_line i)) as (Hs & prev & Hi & Hl & Hb); [done|lia|].
  rewrite Hi. cbn. by eexists.
Qed.

(** What an insert that passes validation does on a buffer that has lines,
    and its undo. *)
Lemma InsertCommand_Execute_spec ed line col text :
  insert_fits ed text = true → Go.len (lines ed) ≠ 0 →
  InsertCommand_validate ed (NewInsertCommand line col text) = Some true →
  ∃ prev ed1 c1 ed2 c2,
    lines ed !! Z.to_nat (line - 1) = Some prev
    ∧ 1 ≤ line ≤ Go.len (lines ed) ∧ 0 ≤ col - 1 ≤ Go.slen prev
    ∧ InsertCommand_Execute ed (NewInsertCommand line col text) = Some (ed1, c1)
    ∧ InsertCommand_IsExecuted c1 = true
    ∧ lines ed1 = take (Z.to_nat (line - 1)) (lines ed)
                  ++ inserted (Go.stake (Z.to_nat (col - 1)) prev) text
                              (Go.sdrop (Z.to_nat (col - 1)) prev)
                  ++ drop (Z.to_nat line) (lines ed)
    ∧ InsertCommand_Undo ed1 c1 = Some (ed2, c2)
    ∧ lines ed2 = lines ed.
Proof.
  intros [Hf Ht%Z.ltb_lt]%andb_true_iff Hne Hv.
  destruct (InsertCommand_validate_true _ _ Hf Hne Hv)
    as (prev & Hr & Hp & Hi & Hs1 & Hs2 & Hc & Hb).
  cbn [ins_line ins_col NewInsertCommand] in *.
  pose proof (Split_nl_length text) as Hk.
  pose proof (fits_len _ Hf) as Hlen.
  exists prev.
  unfold InsertCommand_Execute. rewrite Hv. cbn.
  rewrite Hs1, Hs2, Hi. cbn.
  assert (Hpre : Go.sslice_to prev (col - 1) = Some (Go.stake (Z.to_nat (col - 1)) prev)).
  { apply sslice_to_Some. split; [lia|done]. }
  assert (Hpost : Go.sslice_from prev (col - 1) = Some (Go.sdrop (Z.to_nat (col - 1)) prev)).
  { apply sslice_from_Some. split; [lia|done]. }
  rewrite Hpre, Hpost. cbn. unfold inserted.
  destruct (Z.eqb_spec (Go.len (Go.Split_nl text)) 1) as [H1|H1].
  - (* no newline in the text *)
    destruct (Go.set (lines ed) (line - 1) _) as [ls|] eqn:Hset.
    2:{ exfalso. unfold Go.set in Hset. revert Hset. zbool; try done; lia. }
    apply set_Some in Hset as [_ ->]. cbn.
    eexists _, _, _, _. split; [done|]. split; [lia|]. split; [lia|].
    split; [reflexivity|]. split; [reflexivity|]. split.
    { cbn. rewrite insert_take_drop by int_lia.
      by replace (S (Z.to_nat (line - 1))) with (Z.to_nat line) by lia. }
    unfold InsertCommand_Undo. cbn. rewrite Hs1.
    destruct (Z.eqb_spec (Go.len (Go.Split_nl text)) 1); [|done].
    unfold Go.set, Go.len. rewrite length_insert. fold (Go.len (lines ed)).
    destruct (Z.ltb_spec (line - 1) 0); [lia|].
    destruct (Z.leb_spec (Go.len (lines ed)) (line - 1)); [lia|]. cbn.
    split; [reflexivity|]. cbn.
    rewrite list_insert_insert_eq. by apply list_insert_id.
  - (* the text spans several lines *)
    assert (Hk2 : 2 ≤ Go.len (Go.Split_nl text)) by int_lia.
    assert (Hkb : Go.len (Go.Split_nl text) ≤ Go.slen text + 1) by int_lia.
    assert (Hsk : Go.sub (Go.len (Go.Split_nl text)) 1 = Go.len (Go.Split_nl text) - 1).
    { apply wrap_id. int_lia. }
    rewrite Hsk.
    destruct (index_in_range (Go.Split_nl text) 0) as (first & -> & Hfirst); [lia|].
    cbn.
    destruct (Go.slice (Go.Split_nl text) 1 _) as [middle|] eqn:Hm.
    2:{ exfalso. unfold Go.slice in Hm. revert Hm. zbool; try done; lia. }
    apply slice_Some in Hm as (_ & _ & Hm). cbn.
    destruct (index_in_range (Go.Split_nl text) (Go.len (Go.Split_nl text) - 1))
      as (last & -> & Hlast); [lia|].
    cbn.
    assert (Hml : Go.len middle = Go.len (Go.Split_nl text) - 2).
    { subst middle. unfold Go.len in *. rewrite length_take, length_drop. lia. }
    assert (Hcap : Go.add (Go.add (Go.len (lines ed)) (Go.len middle)) 1
                   = Go.len (lines ed) + Go.len middle + 1).
    { unfold Go.add. rewrite (wrap_id (_ + Go.len middle)) by int_lia.
      apply wrap_id. int_lia. }
    rewrite Hcap.
    assert (Go.make_cap (Go.len (lines ed) + Go.len middle + 1) = Some tt) as ->.
    { apply make_cap_Some. lia. }
    cbn.
    assert (Go.slice_to (lines ed) (line - 1) = Some (take (Z.to_nat (line - 1)) (lines ed))) as ->.
    { apply slice_to_Some. split; [lia|done]. }
    cbn.
    assert (Go.add (line - 1) 1 = line) as ->.
    { unfold Go.add. rewrite wrap_id by int_lia. lia. }
    assert (Go.slice_from (lines ed) line = Some (drop (Z.to_nat line) (lines ed))) as ->.
    { apply slice_from_Some. split; [lia|done]. }
    cbn.
    eexists _, _, _, _. split; [done|]. split; [lia|]. split; [lia|].
    split; [reflexivity|]. split; [reflexivity|]. split.
    { cbn [lines]. change (Z.to_nat 0) with 0%nat in Hfirst.
      rewrite Hfirst, Hlast. cbn [default]. rewrite Hm.
      change (Z.to_nat 1) with 1%nat. by rewrite <- !app_assoc. }
    unfold InsertCommand_Undo. cbn. rewrite Hs1, Hsk.
    destruct (Z.eqb_spec (Go.len (Go.Split_nl text)) 1); [done|].
    set (before := take (Z.to_nat (line - 1)) (lines ed)).
    set (after := drop (Z.to_nat line) (lines ed)).
    set (fp := Go.stake (Z.to_nat (col - 1)) prev +:+ first).
    set (lp := last +:+ Go.sdrop (Z.to_nat (col - 1)) prev).
    assert (Hbl : List.length before = Z.to_nat (line - 1)).
    { unfold before. rewrite length_take. int_lia. }
    assert (Hal : List.length after = (List.length (lines ed) - Z.to_nat line)%nat).
    { unfold after. by rewrite length_drop. }
    assert (Hnl : Go.len (before ++ fp :: middle ++ lp :: after)
                  = Go.len (lines ed) + Go.len (Go.Split_nl text) - 1).
    { unfold Go.len in *. rewrite length_app. cbn [length].
      rewrite length_app. cbn [length]. lia. }
    rewrite Hnl.
    assert (Go.sub (Go.len (lines ed) + Go.len (Go.Split_nl text) - 1)
                   (Go.len (Go.Split_nl text) - 1) = Go.len (lines ed)) as ->.
    { unfold Go.sub. rewrite wrap_id by int_lia. lia. }
    assert (Go.make_cap (Go.len (lines ed)) = Some tt) as ->.
    { apply make_cap_Some. int_lia. }
    cbn.
    assert (Go.slice_to (before ++ fp :: middle ++ lp :: after) (line - 1)
            = Some before) as ->.
    { apply slice_to_Some. split; [lia|]. by rewrite take_app_length'. }
    cbn.
    assert (Go.add (Go.add (line - 1) 1) (Go.len (Go.Split_nl text) - 1)
            = line + Go.len (Go.Split_nl text) - 1) as ->.
    { unfold Go.add. rewrite (wrap_id (line - 1 + 1)) by int_lia.
      rewrite wrap_id by int_lia. lia. }
    assert (Go.slice_from (before ++ fp :: middle ++ lp :: after)
              (line + Go.len (Go.Split_nl text) - 1) = Some after) as ->.
    { apply slice_from_Some. split; [lia|].
      replace (before ++ fp :: middle ++ lp :: after)
        with ((before ++ fp :: middle ++ [lp]) ++ after)
        by (rewrite <- app_assoc; cbn; by rewrite <- app_assoc).
      rewrite drop_app_length'; [done|].
      rewrite length_app. cbn [length]. rewrite length_app. cbn [length].
      unfold Go.len in *. lia. }
    cbn. split; [reflexivity|]. cbn.
    unfold before, after.
    replace (Z.to_nat line) with (S (Z.to_nat (line - 1))) by lia.
    by apply take_drop_middle.
Qed.

(** The one way an insert panics: the buffer has no line and the insert
    is at line 1, column 1 (the coordinates the validation accepts there). *)
Theorem InsertCommand_Execute_panics_iff ed line col text :
  insert_fits ed text = true →
  (InsertCommand_Execute ed (NewInsertCommand line col text) = None
   ↔ lines ed = [] ∧ line = 1 ∧ col = 1).
Proof.
  intros Hfit. pose proof Hfit as [Hf _]%andb_true_iff. split.
  - intros Hx. destruct (lines ed) as [|l ls] eqn:Hls.
    + unfold InsertCommand_Execute, InsertCommand_validate in Hx.
      rewrite Hls in Hx. cbn in Hx.
      destruct (Z.eqb_spec line 1) as [->|]; [|done].
      destruct (Z.eqb_spec col 1) as [->|]; done.
    + exfalso.
      destruct (InsertCommand_validate_total ed (NewInsertCommand line col text) Hf)
        as [[] Hv].
      * destruct (InsertCommand_Execute_spec ed line col text Hfit)
          as (? & ? & ? & ? & ? & _ & _ & _ & He & _); [by rewrite Hls|done|].
        congruence.
      * unfold InsertCommand_Execute in Hx. rewrite Hv in Hx. done.
  - intros (Hls & -> & ->).
    unfold InsertCommand_Execute, InsertCommand_validate. by rewrite Hls.
Qed.

Lemma InsertCommand_Execute_panics_witness :
  InsertCommand_Execute empty_buffer (NewInsertCommand 1 1 "a") = None.
Proof.
  apply (InsertCommand_Execute_panics_iff empty_buffer 1 1 "a");
    [reflexivity | repeat split].
Defined.

(** *** Lines and content *)

Lemma Join_cons s r sep :
  r ≠ [] → Join (s :: r) sep = s +:+ sep +:+ Join r sep.
Proof. by destruct r. Qed.

Lemma Join_app a b sep :
  a ≠ [] → b ≠ [] → Join (a ++ b) sep = Join a sep +:+ sep +:+ Join b sep.
Proof.
  induction a as [|s a IH]; [done|]. intros _ Hb.
  destruct a as [|s' a].
  - cbn [app]. by rewrite Join_cons.
  - change ((s :: s' :: a) ++ b) with (s :: ((s' :: a) ++ b)).
    rewrite Join_cons by done. rewrite IH by done.
    rewrite (Join_cons s (s' :: a)) by done. by rewrite !sapp_assoc'.
Qed.

Lemma Split_nl_nonempty s : Go.Split_nl s ≠ [].
Proof.
  pose proof (Split_nl_length s).
  destruct (Go.Split_nl s); [cbn in *; lia|done].
Qed.

Lemma Join_head c p ps sep :
  Join (String c p :: ps) sep = String c (Join (p :: ps) sep).
Proof. by destruct ps. Qed.

(** [strings.Join(strings.Split(s, "\n"), "\n")] is [s]. *)
Lemma Join_Split_nl s : Join (Go.Split_nl s) Go.nl = s.
Proof.
  induction s as [|c s IH]; [done|]. cbn [Go.Split_nl].
  destruct (Ascii.eqb_spec c Go.newline) as [->|Hne].
  - rewrite Join_cons by apply Split_nl_nonempty. by rewrite IH.
  - pose proof (Split_nl_nonempty s).
    destruct (Go.Split_nl s) as [|p ps]; [done|].
    by rewrite Join_head, IH.
Qed.

Lemma Join_prefix pre l sep :
  l ≠ [] → Join ((pre +:+ default "" (head l)) :: tail l) sep
           = pre +:+ Join l sep.
Proof.
  destruct l as [|x l]; [done|]. intros _. cbn [head tail default].
  destruct l; [done|]. rewrite !Join_cons by done. by rewrite sapp_assoc'.
Qed.

Lemma Join_suffix l x post sep :
  Join (l ++ [x +:+ post]) sep = Join (l ++ [x]) sep +:+ post.
Proof.
  destruct l as [|y l]; [done|].
  rewrite !Join_app by done. cbn [Join]. by rewrite !sapp_assoc'.
Qed.

Lemma Join_middle a m1 m2 b sep :
  m1 ≠ [] → m2 ≠ [] → Join m1 sep = Join m2 sep →
  Join (a ++ m1 ++ b) sep = Join (a ++ m2 ++ b) sep.
Proof.
  intros H1 H2 He.
  assert (Hmb : Join (m1 ++ b) sep = Join (m2 ++ b) sep).
  { destruct b as [|y b]; [by rewrite !app_nil_r|].
    rewrite !Join_app by done. by rewrite He. }
  destruct a as [|x a]; [done|].
  rewrite (Join_app (x :: a) (m1 ++ b)), (Join_app (x :: a) (m2 ++ b));
    [by rewrite Hmb|done|by destruct m2|done|by destruct m1].
Qed.

(** A list of at least two elements is its head, its middle and its last. *)
Lemma head_middle_last {A} (d : A) (l : list A) :
  (2 ≤ List.length l)%nat →
  l = [default d (l !! 0%nat)]
      ++ take (List.length l - 2) (drop 1 l)
      ++ [default d (l !! (List.length l - 1)%nat)].
Proof.
  intros Hl. destruct l as [|x l]; [cbn in Hl; lia|]. cbn [length] in *.
  assert (E1 : (S (List.length l) - 2 = List.length l - 1)%nat) by lia.
  assert (E2 : (S (List.length l) - 1 = S (List.length l - 1))%nat) by lia.
  rewrite E1, E2.
  destruct (lookup_lt_is_Some_2 l (List.length l - 1)) as [y Hy]; [lia|].
  change ((x :: l) !! 0%nat) with (Some x).
  change ((x :: l) !! S (List.length l - 1)) with (l !! (List.length l - 1)%nat).
  change (drop 1 (x :: l)) with l.
  rewrite Hy. cbn [default app]. f_equal.
  rewrite <- (take_drop_middle l (List.length l - 1) y Hy) at 1.
  f_equal. rewrite drop_ge; [done|]. lia.
Qed.

(** The lines an insert writes join to the target line with the raw text
    spliced in. *)
Lemma Join_inserted pre text post :
  inserted pre text post ≠ []
  ∧ Join (inserted pre text post) Go.nl = pre +:+ text +:+ post.
Proof.
  unfold inserted. pose proof (Split_nl_length text) as Hk.
  destruct (Z.eqb_spec (Go.len (Go.Split_nl text)) 1) as [H1|H1]; [done|].
  split; [done|].
  assert (Hk2 : (2 ≤ List.length (Go.Split_nl text))%nat) by int_lia.
  pose proof (head_middle_last "" (Go.Split_nl text) Hk2) as Hd.
  replace (Z.to_nat (Go.len (Go.Split_nl text) - 1 - 1))
    with (List.length (Go.Split_nl text) - 2)%nat by int_lia.
  replace (Z.to_nat (Go.len (Go.Split_nl text) - 1))
    with (List.length (Go.Split_nl text) - 1)%nat by int_lia.
  set (first := default "" (Go.Split_nl text !! 0%nat)) in *.
  set (middle := take (List.length (Go.Split_nl text) - 2) (drop 1 (Go.Split_nl text))) in *.
  set (last := default "" (Go.Split_nl text !! (List.length (Go.Split_nl text) - 1)%nat)) in *.
  transitivity (pre +:+ Join (Go.Split_nl text) Go.nl +:+ post);
    [|by rewrite Join_Split_nl].
  rewrite Hd. cbn [app].
  rewrite (Join_cons (pre +:+ first)) by (by destruct middle).
  rewrite (Join_cons first) by (by destruct middle).
  rewrite Join_suffix. by rewrite !sapp_assoc'.
Qed.

Lemma length_inserted pre text post :
  List.length (inserted pre text post) = List.length (Go.Split_nl text).
Proof.
  unfold inserted. pose proof (Split_nl_length text) as Hk.
  destruct (Z.eqb_spec (Go.len (Go.Split_nl text)) 1) as [H1|H1].
  - cbn. int_lia.
  - rewrite !length_app, length_take, length_drop. cbn [length]. int_lia.
Qed.

(** What an insert does to the content of the buffer (its lines joined
    by newlines): the raw text is spliced into the target line at the column,
    and the buffer gains one line per newline of the text. *)
Theorem InsertCommand_Execute_content ed line col text :
  insert_fits ed text = true → Go.len (lines ed) ≠ 0 →
  InsertCommand_validate ed (NewInsertCommand line col text) = Some true →
  ∃ prev ed1 c1,
    lines ed !! Z.to_nat (line - 1) = Some prev
    ∧ InsertCommand_Execute ed (NewInsertCommand line col text) = Some (ed1, c1)
    ∧ List.length (lines ed1)
      = (List.length (lines ed) + List.length (Go.Split_nl text) - 1)%nat
    ∧ content (lines ed1)
      = content (<[Z.to_nat (line - 1) :=
                    Go.stake (Z.to_nat (col - 1)) prev +:+ text
                    +:+ Go.sdrop (Z.to_nat (col - 1)) prev]> (lines ed)).
Proof.
  intros Hfit Hne Hv.
  destruct (InsertCommand_Execute_spec ed line col text Hfit Hne Hv)
    as (prev & ed1 & c1 & _ & _ & Hp & Hr & Hc & He & _ & Hl & _).
  exists prev, ed1, c1. split; [done|]. split; [done|].
  pose proof (lookup_lt_Some _ _ _ Hp) as Hlt.
  split.
  - rewrite Hl, !length_app, length_take, length_drop, length_inserted.
    pose proof (Split_nl_length text). int_lia.
  - rewrite Hl. unfold content.
    rewrite insert_take_drop by done.
    replace (S (Z.to_nat (line - 1))) with (Z.to_nat line) by lia.
    change (?x :: drop ?n ?l) with ([x] ++ drop n l).
    apply Join_middle; [apply Join_inserted|done|apply Join_inserted].
Qed.

Lemma InsertCommand_Execute_content_witness :
  ∃ prev ed1 c1,
    lines buffer_Hello !! Z.to_nat (1 - 1) = Some prev
    ∧ InsertCommand_Execute buffer_Hello
        (NewInsertCommand 1 3 ("a" +:+ Go.nl +:+ "b")) = Some (ed1, c1)
    ∧ List.length (lines ed1)
      = (List.length (lines buffer_Hello)
         + List.length (Go.Split_nl ("a" +:+ Go.nl +:+ "b")) - 1)%nat
    ∧ content (lines ed1)
      = content (<[Z.to_nat (1 - 1) :=
                    Go.stake (Z.to_nat (3 - 1)) prev +:+ ("a" +:+ Go.nl +:+ "b")
                    +:+ Go.sdrop (Z.to_nat (3 - 1)) prev]> (lines buffer_Hello)).
Proof.
  apply (InsertCommand_Execute_content buffer_Hello 1 3 ("a" +:+ Go.nl +:+ "b"));
    [reflexivity | intros [=] | reflexivity].
Defined.

Lemma stake_sapp a b : Go.stake (String.length a) (a +:+ b) = a.
Proof.
  induction a as [|c a IH]; [by destruct b|].
  rewrite sapp_cons. cbn [String.length Go.stake]. by rewrite IH.
Qed.

Lemma sdrop_sapp a b : Go.sdrop (String.length a) (a +:+ b) = b.
Proof.
  induction a as [|c a IH]; [by destruct b|].
  rewrite sapp_cons. cbn [String.length Go.sdrop]. by rewrite IH.
Qed.

Lemma fits_lines ed ed' : lines ed' = lines ed → fits ed' = fits ed.
Proof. unfold fits. by intros ->. Qed.

(** A replace whose delete part passes validation is carried out; the
    content of the buffer is then the old content with the [length] bytes at
    the column replaced by the text, and the undo of the replace gives back
    the line sequence. *)
Theorem ReplaceCommand_Execute_Undo ed line col length text :
  insert_fits ed text = true → Go.is_int col → Go.is_int length →
  col - 1 + length ≤ Go.int_max →
  DeleteCommand_validate ed (NewDeleteCommand line col length) = Some true →
  ∃ prev ed1 c1 ed2 c2,
    lines ed !! Z.to_nat (line - 1) = Some prev
    ∧ ReplaceCommand_Execute ed (NewReplaceCommand line col length text)
      = Some (ed1, c1)
    ∧ ReplaceCommand_IsExecuted c1 = true
    ∧ content (lines ed1)
      = content (<[Z.to_nat (line - 1) :=
                    Go.stake (Z.to_nat (col - 1)) prev +:+ text
                    +:+ Go.sdrop (Z.to_nat (col - 1 + length)) prev]> (lines ed))
    ∧ ReplaceCommand_Undo ed1 c1 = Some (ed2, c2)
    ∧ lines ed2 = lines ed.
Proof.
  intros Hfit Hc Hn Hov Hv. pose proof Hfit as [Hf Ht%Z.ltb_lt]%andb_true_iff.
  destruct (DeleteCommand_Execute_spec _ _ _ _ Hf Hc Hn Hov Hv)
    as (prev & ed1 & Hp & Hr & Hc1 & Hn1 & Hsum & He & Hl).
  set (pre := Go.stake (Z.to_nat (col - 1)) prev) in *.
  set (post := Go.sdrop (Z.to_nat (col - 1 + length)) prev) in *.
  pose proof (lookup_lt_Some _ _ _ Hp) as Hlt.
  pose proof (fits_line _ _ _ Hf Hp) as Hb.
  pose proof (fits_len _ Hf) as Hlen.
  assert (Hpl : String.length pre = Z.to_nat (col - 1)).
  { unfold pre. rewrite length_stake. int_lia. }
  assert (Hshort : Go.slen (pre +:+ post) = Go.slen prev - length).
  { unfold Go.slen, pre, post in *.
    rewrite length_sapp, length_stake, length_sdrop. lia. }
  assert (Hf1 : fits ed1 = true).
  { rewrite (fits_lines {| lines := lines ed1; isModified := true |} ed1) by done.
    rewrite Hl. apply fits_insert; [done|done|lia]. }
  assert (Hlen1 : Go.len (lines ed1) = Go.len (lines ed)).
  { rewrite Hl. unfold Go.len. by rewrite length_insert. }
  assert (Hfit1 : insert_fits ed1 text = true).
  { unfold insert_fits. rewrite Hf1, Hlen1. cbn. by apply Z.ltb_lt. }
  assert (Hp1 : lines ed1 !! Z.to_nat (line - 1) = Some (pre +:+ post)).
  { rewrite Hl. by apply list_lookup_insert_eq. }
  assert (Hv1 : InsertCommand_validate ed1 (NewInsertCommand line col text)
                = Some true).
  { unfold InsertCommand_validate. cbn [ins_line ins_col NewInsertCommand].
    rewrite Hlen1.
    destruct (Z.eqb_spec (Go.len (lines ed)) 0); [lia|].
    destruct (Z.ltb_spec line 1); [lia|].
    destruct (Z.ltb_spec (Go.len (lines ed)) line); [lia|]. cbn [orb].
    destruct (line_index ed1 line Hf1) as (_ & l & Hi & Hl' & _); [lia|].
    rewrite Hi. cbn. assert (l = pre +:+ post) as -> by congruence.
    f_equal. apply andb_true_iff. split; apply Z.leb_le; [lia|].
    unfold Go.add. rewrite wrap_id; int_lia. }
  destruct (InsertCommand_Execute_spec ed1 line col text Hfit1)
    as (prev1 & ed2 & c2 & ed3 & c3 & Hp1' & _ & _ & He2 & Hx2 & Hl2 & Hu & Hl3);
    [lia|done|].
  assert (prev1 = pre +:+ post) as -> by congruence.
  exists prev, ed2. eexists _, _, _. split; [done|].
  unfold ReplaceCommand_Execute.
  cbn [NewReplaceCommand rep_deleteCmd rep_insertCmd]. rewrite He. cbn.
  rewrite He2. cbn. split; [reflexivity|]. split; [done|]. split.
  - rewrite Hl2. unfold content.
    rewrite (insert_take_drop (lines ed)) by done.
    replace (S (Z.to_nat (line - 1))) with (Z.to_nat line) by lia.
    rewrite Hl, take_insert_ge, drop_insert_lt by lia.
    change (?x :: drop ?n ?l) with ([x] ++ drop n l).
    apply Join_middle; [apply Join_inserted|done|].
    rewrite (proj2 (Join_inserted _ _ _)).
    fold pre post.
    replace (Go.stake (Z.to_nat (col - 1)) (pre +:+ post)) with pre
      by (by rewrite <- Hpl, stake_sapp).
    replace (Go.sdrop (Z.to_nat (col - 1)) (pre +:+ post)) with post
      by (by rewrite <- Hpl, sdrop_sapp).
    done.
  - unfold ReplaceCommand_Undo. cbn [set_rep rep_executed rep_insertCmd rep_deleteCmd].
    rewrite Hx2. cbn [negb]. rewrite Hu. cbn.
    unfold DeleteCommand_Undo. cbn.
    assert (Go.sub line 1 = line - 1) as -> by (apply wrap_id; int_lia).
    unfold Go.set. rewrite Hl3, Hlen1.
    destruct (Z.ltb_spec (line - 1) 0); [lia|].
    destruct (Z.leb_spec (Go.len (lines ed)) (line - 1)); [lia|]. cbn.
    split; [reflexivity|]. cbn.
    rewrite Hl, list_insert_insert_eq. by apply list_insert_id.
Qed.

Lemma ReplaceCommand_Execute_Undo_witness :
  ∃ prev ed1 c1 ed2 c2,
    lines buffer_Hello !! Z.to_nat (1 - 1) = Some prev
    ∧ ReplaceCommand_Execute buffer_Hello
        (NewReplaceCommand 1 2 3 ("a" +:+ Go.nl +:+ "b")) = Some (ed1, c1)
    ∧ ReplaceCommand_IsExecuted c1 = true
    ∧ content (lines ed1)
      = content (<[Z.to_nat (1 - 1) :=
                    Go.stake (Z.to_nat (2 - 1)) prev +:+ ("a" +:+ Go.nl +:+ "b")
                    +:+ Go.sdrop (Z.to_nat (2 - 1 + 3)) prev]> (lines buffer_Hello))
    ∧ ReplaceCommand_Undo ed1 c1 = Some (ed2, c2)
    ∧ lines ed2 = lines buffer_Hello.
Proof.
  apply (ReplaceCommand_Execute_Undo buffer_Hello 1 2 3 ("a" +:+ Go.nl +:+ "b"));
    first [ reflexivity | vm_compute; split; discriminate
          | vm_compute; discriminate ].
Defined.

(** An append is always carried out: the text becomes the new last line,
    whatever the buffer holds; the content gains a newline and the text (the
    text alone on a buffer without lines); the undo gives back the line
    sequence, and the undo of an append that was never executed does
    nothing. *)
Theorem AppendCommand_Execute_Undo ed text :
  let r := AppendCommand_Execute ed (NewAppendCommand text) in
  lines r.1 = lines ed ++ [text]
  ∧ AppendCommand_IsExecuted r.2 = true
  ∧ content (lines r.1)
    = (if decide (lines ed = []) then text
       else content (lines ed) +:+ Go.nl +:+ text)
  ∧ lines (AppendCommand_Undo r.1 r.2).1 = lines ed
  ∧ AppendCommand_Undo ed (NewAppendCommand text) = (ed, NewAppendCommand text).
Proof.
  cbn. split_and!; try done.
  unfold content. destruct (decide (lines ed = [])) as [->|Hne]; [done|].
  by rewrite Join_app.
Qed.

End TextMoreFacts.

(** ** Showing lines; offsets and words *)

Module EditorCmdFacts.
Import Text XmlIO XmlLaw EditorCmd GoFacts TextFacts.




End EditorCmdFacts.

Module SpellCheckFacts.
Import XmlIO XmlLaw SpellCheck GoFacts TextFacts.

(** The state of the loop after [n] bytes, in terms of the pieces that the
    newlines cut out of those bytes. *)
Lemma scan_Split_nl n : ∀ text row col,
  0 ≤ row → 0 ≤ col → row + Z.of_nat n ≤ Go.int_max →
  col + Z.of_nat n ≤ Go.int_max →
  let parts := Go.Split_nl (Go.stake n text) in
  scan n text row col
  = (row + Go.len parts - 1,
     (if Go.len parts =? 1 then col else 1)
     + Go.slen (default "" (last parts))).
Proof.
  induction n as [|n IH]; intros text row col Hr Hc Hrn Hcn.
  { cbn. change (Go.len [""]) with 1. change (Go.slen "") with 0.
    cbn. f_equal; lia. }
  destruct text as [|c text].
  { cbn. change (Go.len [""]) with 1. change (Go.slen "") with 0.
    cbn. f_equal; lia. }
  cbn [scan Go.stake Go.Split_nl].
  pose proof (TextMoreFacts.Split_nl_nonempty (Go.stake n text)) as Hne.
  pose proof (len_nonneg (Go.Split_nl (Go.stake n text))) as Hnn.
  assert (Hl1 : 1 ≤ Go.len (Go.Split_nl (Go.stake n text))).
  { destruct (Go.Split_nl (Go.stake n text)); [done|]. unfold Go.len. cbn. lia. }
  destruct (Ascii.eqb c Go.newline).
  - unfold Go.add. rewrite wrap_id by int_lia.
    rewrite IH by lia. cbn zeta.
    destruct (Go.Split_nl (Go.stake n text)) as [|p ps] eqn:Hp; [done|].
    change (last ("" :: p :: ps)) with (last (p :: ps)).
    replace (Go.len ("" :: p :: ps)) with (Go.len (p :: ps) + 1)
      by (unfold Go.len; cbn [length]; lia).
    destruct (Z.eqb_spec (Go.len (p :: ps) + 1) 1); [lia|].
    f_equal; [lia|].
    destruct (Z.eqb_spec (Go.len (p :: ps)) 1); lia.
  - unfold Go.add. rewrite wrap_id by int_lia.
    rewrite IH by lia. cbn zeta.
    destruct (Go.Split_nl (Go.stake n text)) as [|p ps] eqn:Hp; [done|].
    replace (Go.len (String c p :: ps)) with (Go.len (p :: ps))
      by (unfold Go.len; by cbn [length]).
    f_equal.
    destruct ps as [|q ps].
    + change (Go.len [p]) with 1. change (last [String c p]) with (Some (String c p)).
      change (last [p]) with (Some p). cbn [default]. rewrite Z.eqb_refl.
      unfold Go.slen, id. cbn [String.length]. lia.
    + change (last (String c p :: q :: ps)) with (last (q :: ps)).
      change (last (p :: q :: ps)) with (last (q :: ps)).
      replace (Go.len (p :: q :: ps) =? 1) with false; [done|].
      symmetry. apply Z.eqb_neq. unfold Go.len. cbn [length]. lia.
Qed.

(** The row is the number of the line the offset falls in and the column the
    number of the byte in that line, both counted from 1: the newlines cut
    the first [offset] bytes of the text into [row] pieces, the last of them
    [col - 1] bytes long.  A negative offset counts as 0 and an offset beyond
    the text as its length. *)
Theorem ConvertOffsetToLineCol_Split_nl text offset :
  Go.slen text < Go.int_max →
  let parts := Go.Split_nl (Go.stake (Z.to_nat offset) text) in
  ConvertOffsetToLineCol text offset
  = (Go.len parts, Go.slen (default "" (last parts)) + 1).
Proof.
  intros Hl. cbn zeta. unfold ConvertOffsetToLineCol.
  set (n := (Z.to_nat offset `min` String.length text)%nat).
  assert (Hs : Go.stake (Z.to_nat offset) text = Go.stake n text).
  { unfold n. clear. revert text.
    induction (Z.to_nat offset) as [|k IH]; intros [|c t]; cbn; [done..|].
    by rewrite IH. }
  assert (Hn : scan (Z.to_nat offset) text 1 1 = scan n text 1 1).
  { unfold n. clear. generalize 1 at 2 4. generalize 1. revert text.
    induction (Z.to_nat offset) as [|k IH]; intros [|c t] r c0; cbn; [done..|].
    destruct (Ascii.eqb c Go.newline); by rewrite IH. }
  rewrite Hs, Hn, scan_Split_nl by (unfold n; int_lia). cbn zeta.
  f_equal; [lia|].
  destruct (Z.eqb_spec (Go.len (Go.Split_nl (Go.stake n text))) 1); lia.
Qed.

Lemma ConvertOffsetToLineCol_witness :
  ConvertOffsetToLineCol ("ab" +:+ Go.nl +:+ "cde") 5 = (2, 3).
Proof.
  apply (ConvertOffsetToLineCol_Split_nl ("ab" +:+ Go.nl +:+ "cde") 5).
  reflexivity.
Defined.

Lemma all_chars_snoc p s c :
  all_chars p (s +:+ String c "") = all_chars p s && p c.
Proof.
  induction s as [|d s IH].
  - rewrite sapp_nil. cbn. by rewrite andb_true_r.
  - rewrite sapp_cons. cbn. by rewrite IH, andb_assoc.
Qed.

Lemma concat_str_snoc l s : concat_str (l ++ [s]) = concat_str l +:+ s.
Proof.
  induction l as [|x l IH]; cbn; [by rewrite TextMoreFacts.sapp_nil_r'|].
  by rewrite IH, TextMoreFacts.sapp_assoc'.
Qed.

Lemma split_loop_spec s : ∀ cur out,
  all_chars is_letter cur = true →
  Forall (λ w, w ≠ "" ∧ all_chars is_letter w = true) out →
  Forall (λ w, w ≠ "" ∧ all_chars is_letter w = true) (split_loop s cur out)
  ∧ concat_str (split_loop s cur out) = concat_str out +:+ cur +:+ letters s.
Proof.
  induction s as [|r s IH]; intros cur out Hc Ho; cbn [split_loop letters].
  - destruct (String.eqb_spec cur "") as [->|Hne].
    + split; [done|]. by rewrite !TextMoreFacts.sapp_nil_r'.
    + split.
      * apply Forall_app. split; [done|]. by constructor.
      * by rewrite concat_str_snoc, TextMoreFacts.sapp_nil_r'.
  - destruct (is_letter r) eqn:Hr.
    + destruct (IH (cur +:+ String r "") out) as [H1 H2]; [|done|].
      { by rewrite all_chars_snoc, Hc, Hr. }
      split; [done|]. rewrite H2. by rewrite TextMoreFacts.sapp_assoc'.
    + destruct (String.eqb_spec cur "") as [->|Hne].
      * by apply IH.
      * destruct (IH "" (out ++ [cur])) as [H1 H2]; [done| |].
        { apply Forall_app. split; [done|]. by constructor. }
        split; [done|]. rewrite H2, concat_str_snoc.
        by rewrite TextMoreFacts.sapp_assoc'.
Qed.

(** The words of a text are not empty and hold letters only, and put one
    after the other they are the letters of the text, in order: no letter is
    lost or invented, and nothing else gets into a word. *)
Theorem splitEnglishWords_letters s :
  Forall (λ w, w ≠ "" ∧ all_chars is_letter w = true) (splitEnglishWords s)
  ∧ concat_str (splitEnglishWords s) = letters s.
Proof.
  unfold splitEnglishWords.
  destruct (split_loop_spec s "" []) as [H1 H2]; [done|done|].
  split; [done|]. by rewrite H2.
Qed.

End SpellCheckFacts.

(** ** The XML commands and their undo *)

Module XmlMoreFacts.
Import Xml XmlMore Samples GoFacts.


(** *** The search for a child by identifier *)

















(** The root is out of reach of the three commands that would unseat it:
    asked to delete it, to rename it or to insert an element before it, the
    editor keeps elements and index as they are, and the command it pushes
    reports that it was not executed. *)
Theorem root_is_protected x r e rootId tag newId text :
  root x = Some r → idMap x !! rootId = Some r →
  heap x !! r = Some e → parent e = None →
  Forall (λ o, ∃ x1 c, o = Some x1
                 ∧ heap x1 = heap x ∧ idMap x1 = idMap x ∧ root x1 = root x
                 ∧ last (undoStack x1) = Some c
                 ∧ Command_IsExecuted c = false)
         [Delete x rootId; EditId x rootId newId;
          InsertBefore x tag newId rootId text].
Proof.
  intros Hr Hi He Hp. repeat constructor.
  - unfold Delete, ExecuteCommand. cbn [Command_Execute].
    unfold XmlDeleteCommand_Execute. cbn [NewXmlDeleteCommand xd_elementId].
    rewrite Hi, Hr. destruct (decide (Some r = Some r)); [|done]. cbn.
    eexists _, _. split; [reflexivity|]. cbn. by rewrite last_snoc.
  - unfold EditId, ExecuteCommand. cbn [Command_Execute].
    unfold EditIdCommand_Execute. cbn [NewEditIdCommand ei_oldId].
    rewrite Hi, Hr. destruct (decide (Some r = Some r)); [|done]. cbn.
    eexists _, _. split; [reflexivity|]. cbn. by rewrite last_snoc.
  - unfold InsertBefore, ExecuteCommand. cbn [Command_Execute].
    unfold InsertBeforeCommand_Execute.
    cbn [NewInsertBeforeCommand ib_newId ib_targetId].
    destruct (idMap x !! newId).
    + cbn. eexists _, _. split; [reflexivity|]. cbn. by rewrite last_snoc.
    + rewrite Hi, He. cbn. rewrite Hp. cbn.
      eexists _, _. split; [reflexivity|]. cbn. by rewrite last_snoc.
Qed.

Lemma root_is_protected_witness :
  Forall (λ o, ∃ x1 c, o = Some x1
                 ∧ heap x1 = heap doc_leaf ∧ idMap x1 = idMap doc_leaf
                 ∧ root x1 = root doc_leaf
                 ∧ last (undoStack x1) = Some c
                 ∧ Command_IsExecuted c = false)
         [Delete doc_leaf "root"; EditId doc_leaf "root" "r2";
          InsertBefore doc_leaf "n" "r2" "root" ""].
Proof.
  apply (root_is_protected doc_leaf 0%nat (elem "root" "root" "" None [1%nat])
           "root" "n" "r2" ""); reflexivity.
Defined.

(** *** The two recursions of a delete *)

Lemma id_at_Some h a n : h !! a = Some n → id_at h a = id n.
Proof. unfold id_at. by intros ->. Qed.

Lemma index_of_app h l1 l2 m :
  index_of h (l1 ++ l2) m = index_of h l2 (index_of h l1 m).
Proof. unfold index_of. apply foldl_app. Qed.






Lemma index_of_lookup h l : ∀ (m : gmap string addr) k b,
  index_of h l m !! k = Some b →
  (b ∈ l ∧ id_at h b = k) ∨ m !! k = Some b.
Proof.
  induction l as [|a l IH] using rev_ind; intros m k b; [by right|].
  rewrite index_of_app. cbn [index_of foldl].
  destruct (String.eqb_spec (id_at h a) "").
  - intros [[]|]%IH; [left|by right]. split; [|done]. apply elem_of_app. by left.
  - destruct (decide (id_at h a = k)) as [<-|Hne].
    + rewrite lookup_insert_eq. intros [= <-]. left. split; [|done].
      apply elem_of_app. right. by left.
    + rewrite lookup_insert_ne by done. intros [[]|]%IH; [left|by right].
      split; [|done]. apply elem_of_app. by left.
Qed.





(** *** The search by identifier and the construction of the index *)

Lemma first_with_id_cons h t a l :
  first_with_id h t (a :: l)
  = if decide (id <$> h !! a = Some t) then Some a else first_with_id h t l.
Proof.
  unfold first_with_id. rewrite filter_cons. by destruct (decide _).
Qed.

Lemma first_with_id_app h t l1 l2 :
  first_with_id h t (l1 ++ l2)
  = match first_with_id h t l1 with
    | Some a => Some a
    | None => first_with_id h t l2
    end.
Proof.
  induction l1 as [|a l1 IH]; [done|]. cbn [app].
  rewrite !first_with_id_cons. by destruct (decide _).
Qed.

Lemma findNodeById_subtree f h t : ∀ a l,
  subtree_fuel f h a = Some l →
  findNodeById_fuel f h (Some a) t = Some (first_with_id h t l).
Proof.
  induction f as [|f IH]; intros a l H; [done|].
  cbn [subtree_fuel] in H. cbn [findNodeById_fuel].
  destruct (h !! a) as [n|] eqn:Ha; [|done]. cbn in H |- *.
  apply bind_Some in H as (rest & Hrest & [= <-]).
  rewrite first_with_id_cons, Ha. cbn.
  destruct (String.eqb_spec (id n) t) as [->|Hne].
  { by destruct (decide _). }
  destruct (decide (Some (id n) = Some t)) as [[=]|_]; [done|].
  clear Ha Hne. revert rest Hrest.
  induction (children n) as [|c cs IHcs]; intros rest Hrest.
  - by injection Hrest as <-.
  - apply bind_Some in Hrest as (l1 & H1 & Hrest).
    apply bind_Some in Hrest as (r & Hr & [= <-]).
    rewrite (IH _ _ H1). cbn. rewrite first_with_id_app.
    destruct (first_with_id h t l1); [done|]. by apply IHcs.
Qed.

(** The search that [AppendChild] falls back on returns the first element of
    the tree, in document order, that carries the identifier, and [nil] when
    no element of the tree carries it. *)
Theorem findNodeById_first x r targetId l :
  subtree x r = Some l →
  findNodeById x (Some r) targetId
  = Some (first_with_id (heap x) targetId l)
  ∧ (∀ a, first_with_id (heap x) targetId l = Some a →
          a ∈ l ∧ id <$> heap x !! a = Some targetId)
  ∧ (first_with_id (heap x) targetId l = None →
     ∀ a, a ∈ l → id <$> heap x !! a ≠ Some targetId).
Proof.
  intros H. split; [by apply findNodeById_subtree|]. unfold first_with_id.
  split.
  - intros a Ha. apply head_Some_elem_of, list_elem_of_filter in Ha. tauto.
  - intros Hn a Ha Hid. apply head_None in Hn.
    assert (a ∈ filter (λ a, id <$> heap x !! a = Some targetId) l)
      by (by apply list_elem_of_filter).
    rewrite Hn in *. by eapply elem_of_nil.
Qed.

Lemma findNodeById_first_witness :
  findNodeById doc_gap (Some 0%nat) "c"
  = Some (first_with_id (heap doc_gap) "c" [0; 1; 2; 3]%nat)
  ∧ (∀ a, first_with_id (heap doc_gap) "c" [0; 1; 2; 3]%nat = Some a →
          a ∈ [0; 1; 2; 3]%nat ∧ id <$> heap doc_gap !! a = Some "c")
  ∧ (first_with_id (heap doc_gap) "c" [0; 1; 2; 3]%nat = None →
     ∀ a, a ∈ [0; 1; 2; 3]%nat → id <$> heap doc_gap !! a ≠ Some "c").
Proof. apply (findNodeById_first doc_gap 0%nat "c"). reflexivity. Defined.

Lemma traverse_subtree f h : ∀ a l m,
  subtree_fuel f h a = Some l →
  traverse_fuel f h m a = Some (index_of h l m).
Proof.
  induction f as [|f IH]; intros a l m H; [done|].
  cbn [subtree_fuel] in H. cbn [traverse_fuel].
  destruct (h !! a) as [n|] eqn:Ha; [|done]. cbn in H |- *.
  apply bind_Some in H as (rest & Hrest & [= <-]).
  cbn [index_of foldl]. rewrite (id_at_Some _ _ _ Ha).
  fold (index_of h rest (if String.eqb (id n) "" then m else <[id n := a]> m)).
  generalize (if String.eqb (id n) "" then m else <[id n := a]> m).
  clear Ha. revert rest Hrest.
  induction (children n) as [|c cs IHcs]; intros rest Hrest m0.
  - by injection Hrest as <-.
  - apply bind_Some in Hrest as (l1 & H1 & Hrest).
    apply bind_Some in Hrest as (r & Hr & [= <-]).
    rewrite (IH _ _ m0 H1). cbn. rewrite index_of_app. by apply IHcs.
Qed.

Lemma index_of_unique h l : ∀ (m : gmap string addr) b,
  b ∈ l → id_at h b ≠ "" →
  (∀ c, c ∈ l → id_at h c = id_at h b → c = b) →
  index_of h l m !! id_at h b = Some b.
Proof.
  induction l as [|a l IH] using rev_ind; intros m b Hb Hne Hu.
  { by apply elem_of_nil in Hb. }
  rewrite index_of_app. cbn [index_of foldl].
  destruct (decide (a = b)) as [->|Hab].
  - destruct (String.eqb_spec (id_at h b) ""); [done|].
    by rewrite lookup_insert_eq.
  - apply elem_of_app in Hb as [Hb|Hb%list_elem_of_singleton]; [|done].
    assert (id_at h a ≠ id_at h b).
    { intros He. apply Hab, Hu; [|done]. apply elem_of_app. right. by left. }
    assert (index_of h l m !! id_at h b = Some b).
    { apply IH; [done..|]. intros c Hc. apply Hu, elem_of_app. by left. }
    destruct (String.eqb_spec (id_at h a) ""); [done|].
    by rewrite lookup_insert_ne.
Qed.

(** [buildIdMap] enters the elements of the tree into the index in document
    order, an element without identifier excepted: an identifier that occurs
    once in the tree is indexed to its element, whatever the index held, and
    what the index holds afterwards is an element of the tree under its own
    identifier, or an older entry. *)
Theorem buildIdMap_indexes x r l :
  subtree x r = Some l →
  ∃ x', buildIdMap x (Some r) = Some x'
    ∧ heap x' = heap x ∧ root x' = root x
    ∧ idMap x' = index_of (heap x) l (idMap x)
    ∧ (∀ b, b ∈ l → id_at (heap x) b ≠ "" →
            (∀ c, c ∈ l → id_at (heap x) c = id_at (heap x) b → c = b) →
            idMap x' !! id_at (heap x) b = Some b)
    ∧ (∀ k b, idMap x' !! k = Some b →
              (b ∈ l ∧ id_at (heap x) b = k) ∨ idMap x !! k = Some b).
Proof.
  intros H. unfold buildIdMap, subtree in *.
  rewrite (traverse_subtree _ _ _ _ (idMap x) H). cbn.
  eexists. split; [reflexivity|]. cbn. split_and!; try done.
  - intros b. apply index_of_unique.
  - intros k b. apply index_of_lookup.
Qed.

Lemma buildIdMap_indexes_witness :
  let x := with_idMap doc_gap ∅ in
  ∃ x', buildIdMap x (Some 0%nat) = Some x'
    ∧ heap x' = heap x ∧ root x' = root x
    ∧ idMap x' = index_of (heap x) [0; 1; 2; 3]%nat (idMap x)
    ∧ (∀ b, b ∈ [0; 1; 2; 3]%nat → id_at (heap x) b ≠ "" →
            (∀ c, c ∈ [0; 1; 2; 3]%nat →
                  id_at (heap x) c = id_at (heap x) b → c = b) →
            idMap x' !! id_at (heap x) b = Some b)
    ∧ (∀ k b, idMap x' !! k = Some b →
              (b ∈ [0; 1; 2; 3]%nat ∧ id_at (heap x) b = k)
              ∨ idMap x !! k = Some b).
Proof.
  intros x. apply (buildIdMap_indexes x 0%nat). reflexivity.
Defined.

End XmlMoreFacts.

(** ** Opening, saving and the log marker *)

Module XmlFileFacts.
Import Xml XmlIO XmlLaw TextMore XmlMore XmlFile GoFacts.

(** On a new, empty document the root carries the identifier "root" and the
    index is empty: a command that looks the root up in the index does not
    find it, and [AppendChild] reaches it through the search it falls back
    on, whatever identifier the child is given, "root" included. *)
Theorem NewXmlEditor_empty_root_unindexed path :
  ∃ f, NewXmlEditor path "" = Some f
    ∧ heap (core f) = [default_root] ∧ root (core f) = Some 0%nat
    ∧ idMap (core f) = ∅ ∧ logEnabled f = false
    ∧ (∀ t, ∃ x1 c, EditText (core f) "root" t = Some x1
          ∧ heap x1 = heap (core f)
          ∧ last (undoStack x1) = Some c ∧ Command_IsExecuted c = false)
    ∧ (∀ tag newId text, ∃ x1 e,
          AppendChild (core f) tag newId "root" text = Some x1
          ∧ heap x1 = [with_children default_root [1%nat]; e]
          ∧ (Xml.tag e, id e, Xml.text e, parent e)
            = (tag, newId, text, Some 0%nat)
          ∧ idMap x1 = {[newId := 1%nat]}).
Proof.
  eexists. split; [reflexivity|]. cbn [core logEnabled untouched heap root idMap].
  split_and!; try done.
  - intros t. eexists _, _. split; [reflexivity|]. cbn. done.
  - intros tag newId text.
    unfold AppendChild, ExecuteCommand. cbn [Command_Execute].
    unfold AppendChildCommand_Execute.
    cbn [NewAppendChildCommand ac_newId ac_parentId ac_tag ac_text idMap].
    unfold untouched. cbn [idMap heap root]. rewrite !lookup_empty.
    change (findNodeById _ _ "root") with (Some (Some 0%nat)).
    cbn. eexists _, _. split; [reflexivity|]. cbn. done.
Qed.

(** *** Saving and loading *)

Lemma Split_nl_line a s :
  all_chars (λ c, negb (Ascii.eqb c Go.newline)) a = true →
  Go.Split_nl (a +:+ Go.nl +:+ s) = a :: Go.Split_nl s.
Proof.
  induction a as [|c a IH]; intros Ha.
  - rewrite sapp_nil. unfold Go.nl. rewrite sapp_cons, sapp_nil.
    cbn [Go.Split_nl]. by rewrite Ascii.eqb_refl.
  - cbn in Ha. apply andb_true_iff in Ha as [Hc Ha].
    rewrite sapp_cons. cbn [Go.Split_nl].
    destruct (Ascii.eqb c Go.newline); [done|]. by rewrite IH.
Qed.

Lemma tree_at_subtree f h : ∀ a t,
  tree_at_fuel f h a = Some t → ∃ l, subtree_fuel f h a = Some l.
Proof.
  induction f as [|f IH]; intros a t H; [done|].
  cbn [tree_at_fuel] in H. cbn [subtree_fuel].
  destruct (h !! a) as [n|] eqn:Ha; [|done]. cbn in H |- *.
  apply bind_Some in H as (kids & Hk & _).
  assert (Hin : ∃ rest, (fix each (cs : list nat) : option (list nat) :=
                           match cs with
                           | [] => Some []
                           | child :: cs' =>
                               l ← subtree_fuel f h child;
                               r ← each cs';
                               Some (l ++ r)
                           end) (children n) = Some rest).
  { clear Ha. revert kids Hk.
    induction (children n) as [|c cs IHcs]; intros kids Hk; [by eexists|].
    apply bind_Some in Hk as (t1 & H1 & Hk).
    apply bind_Some in Hk as (ts & Hts & _).
    destruct (IH _ _ H1) as [l1 ->]. cbn.
    destruct (IHcs _ Hts) as [r ->]. cbn. by eexists. }
  destruct Hin as [rest ->]. cbn. by eexists.
Qed.

Lemma Header_decl : Header = decl +:+ Go.nl.
Proof. reflexivity. Qed.

(** What [GetContent] writes, [NewXmlEditor] reads back: the tree of the
    reloaded document has the tags, attributes, texts and child order of the
    saved one, with logging on or off, and its index is the one a walk over
    the tree builds.  The reloaded editor has logging off and is unmodified,
    whatever the saved one had. *)
Theorem GetContent_NewXmlEditor_roundtrip enum f t path :
  (∀ m, enum m ≡ₚ map_to_list m) →
  tree_of (core f) = Some t → wf_tree t = true →
  ∃ s f' l,
    GetContent enum f = Some s
    ∧ NewXmlEditor path s = Some f'
    ∧ tree_of (core f') = Some t
    ∧ subtree (core f') 0 = Some l
    ∧ root (core f') = Some 0%nat
    ∧ idMap (core f') = index_of (heap (core f')) l ∅
    ∧ logEnabled f' = false ∧ isModified (core f') = false.
Proof.
  intros Henum Ht Hwf. unfold tree_of in Ht.
  destruct (root (core f)) as [r0|] eqn:Hr; [|done].
  change (tree_at_fuel (S (List.length (heap (core f)))) (heap (core f)) r0
          = Some t) in Ht.
  set (xml := Header +:+ indentStr 0 +:+ body enum 0 t +:+ Go.nl).
  assert (Hx : ToXML enum (core f) = Some xml).
  { unfold ToXML. rewrite Hr.
    by rewrite (RoundTrip.serialize_tree enum _ _ _ 0%nat t Ht). }
  assert (Hparse : parseXMLContent xml
                   = Some (ParsedRoot (alloc 0 None t) 0%nat))
    by (by apply RoundTrip.parse_serialized).
  assert (Htree : tree_at (alloc 0 None t) 0 = Some t).
  { unfold tree_at.
    pose proof (RoundTrip.tree_at_alloc t 0%nat None [] []
                  (S (List.length (alloc 0 None t)))) as H.
    rewrite app_nil_r in H. apply H; [done|].
    rewrite ParserFacts.length_alloc. lia. }
  destruct (tree_at_subtree _ _ _ _ Htree) as [l Hl].
  assert (Hne : String.eqb xml "" = false).
  { unfold xml. rewrite Header_decl. by cbn. }
  assert (Hsplit : Go.Split_nl xml
                   = decl :: Go.Split_nl (indentStr 0 +:+ body enum 0 t +:+ Go.nl)).
  { unfold xml. rewrite Header_decl, StringFacts.sapp_assoc.
    by apply Split_nl_line. }
  assert (Hload : ∀ s, Go.Split_nl s = Go.Split_nl xml ∨
                       Go.Split_nl s = "# log" :: Go.Split_nl xml →
            (Go.Split_nl s = Go.Split_nl xml → s = xml) →
            NewXmlEditor path s
            = Some {| core := with_idMap (untouched (alloc 0 None t) 0)
                                (index_of (alloc 0 None t) l ∅);
                      filePath := path; lines := Go.Split_nl s;
                      logEnabled := false |}).
  { intros s Hs Hsame. unfold NewXmlEditor.
    assert (Hcore : buildIdMap (untouched (alloc 0 None t) 0) (Some 0%nat)
                    = Some (with_idMap (untouched (alloc 0 None t) 0)
                              (index_of (alloc 0 None t) l ∅))).
    { unfold buildIdMap. cbn [heap untouched idMap].
      by rewrite (XmlMoreFacts.traverse_subtree _ _ _ _ ∅ Hl). }
    destruct Hs as [Hs|Hs].
    - rewrite Hs, Hsplit. change (0 <? Go.len (decl :: _)) with true.
      change (Go.index (decl :: ?r) 0) with (Some decl). cbn [mbind option_bind].
      change (strings_TrimSpace decl) with (Some decl). cbn [mbind option_bind].
      change (occurs "# log" decl) with false. cbn [mbind option_bind].
      rewrite (Hsame Hs), Hne. cbn [negb mbind option_bind].
      rewrite Hparse. cbn [mbind option_bind]. rewrite Hcore.
      cbn [mbind option_bind]. by rewrite <- Hsplit.
    - rewrite Hs. change (0 <? Go.len ("# log" :: _)) with true.
      change (Go.index ("# log" :: ?r) 0) with (Some "# log").
      cbn [mbind option_bind].
      change (strings_TrimSpace "# log") with (Some "# log").
      cbn [mbind option_bind].
      change (occurs "# log" "# log") with true. cbn [mbind option_bind].
      assert (Go.slice_from ("# log" :: Go.Split_nl xml) 1
              = Some (Go.Split_nl xml)) as ->.
      { apply slice_from_Some. split; [|done].
        unfold Go.len. cbn [length]. lia. }
      cbn [mbind option_bind].
      rewrite TextMoreFacts.Join_Split_nl, Hne. cbn [negb mbind option_bind].
      rewrite Hparse. cbn [mbind option_bind]. rewrite Hcore.
      done. }
  unfold GetContent. rewrite Hr, Hx. cbn [mbind option_bind].
  destruct (logEnabled f).
  - eexists _, _, l. split; [reflexivity|]. rewrite Hload.
    + split; [reflexivity|]. cbn [core logEnabled]. split_and!; try done.
    + right. by apply (Split_nl_line "# log").
    + intros He. exfalso. rewrite (Split_nl_line "# log"), Hsplit in He by done.
      by injection He.
  - eexists _, _, l. split; [reflexivity|]. rewrite Hload; [|by left|done].
    split; [reflexivity|]. cbn [core logEnabled]. split_and!; try done.
Qed.

Lemma GetContent_NewXmlEditor_roundtrip_witness :
  let f := {| core := Samples.doc_chain; filePath := "a.xml";
              lines := []; logEnabled := true |} in
  ∃ s f' l,
    GetContent map_to_list f = Some s
    ∧ NewXmlEditor "b.xml" s = Some f'
    ∧ tree_of (core f')
      = Some (Node "root" {["id" := "root"]} ""
                [Node "a" {["id" := "a"]} ""
                   [Node "c" {["id" := "c"]} "" []]])
    ∧ subtree (core f') 0 = Some l
    ∧ root (core f') = Some 0%nat
    ∧ idMap (core f') = index_of (heap (core f')) l ∅
    ∧ logEnabled f' = false ∧ isModified (core f') = false.
Proof.
  intros f.
  apply (GetContent_NewXmlEditor_roundtrip map_to_list f
           (Node "root" {["id" := "root"]} ""
              [Node "a" {["id" := "a"]} ""
                 [Node "c" {["id" := "c"]} "" []]]) "b.xml").
  - intros m. reflexivity.
  - vm_compute. reflexivity.
  - vm_compute. reflexivity.
Defined.

(** *** The log marker *)

(** Switching logging on puts the marker in front of the lines, unless the
    first line is the marker already, and sets the modified flag; switching
    it off again takes the marker away: the lines are as they were, and tree
    and index were never touched.  Asking for the state the editor is in
    does nothing. *)
Theorem SetLogEnabled_roundtrip f :
  logEnabled f = false →
  (∀ l, head (lines f) = Some l →
        ∃ tl, strings_TrimSpace l = Some tl ∧ tl ≠ "# log") →
  ∃ f1 f2,
    SetLogEnabled f true = Some f1
    ∧ lines f1 = "# log" :: lines f ∧ logEnabled f1 = true
    ∧ IsModified (core f1) = true
    ∧ SetLogEnabled f1 true = Some f1
    ∧ SetLogEnabled f1 false = Some f2
    ∧ lines f2 = lines f ∧ logEnabled f2 = false
    ∧ heap (core f2) = heap (core f) ∧ idMap (core f2) = idMap (core f)
    ∧ root (core f2) = root (core f).
Proof.
  intros Hlog Hfirst. destruct f as [c p ls le]. cbn in *. subst le.
  assert (Hadd : SetLogEnabled {| core := c; filePath := p; lines := ls;
                                  logEnabled := false |} true
                 = Some {| core := MarkAsModified c true; filePath := p;
                           lines := "# log" :: ls; logEnabled := true |}).
  { unfold SetLogEnabled, addLogMarkerInMemory. cbn.
    destruct ls as [|l ls]; [done|].
    destruct (Hfirst l eq_refl) as (tl & Htl & Hne).
    change (Go.len (l :: ls) =? 0) with (Z.pos (Pos.of_succ_nat (List.length ls)) =? 0).
    cbn. change (Go.index (l :: ls) 0) with (Some l). cbn. rewrite Htl. cbn.
    by destruct (String.eqb_spec tl "# log"). }
  rewrite Hadd. eexists _, _. split; [reflexivity|]. cbn.
  split; [done|]. split; [done|]. split; [done|]. split; [done|].
  unfold SetLogEnabled, removeLogMarkerInMemory. cbn.
  change (Go.index ("# log" :: ls) 0) with (Some "# log"). cbn.
  change (strings_TrimSpace "# log") with (Some "# log"). cbn.
  assert (Go.slice_from ("# log" :: ls) 1 = Some ls) as ->.
  { apply slice_from_Some. split; [|done]. unfold Go.len. cbn [length]. lia. }
  cbn. split; [reflexivity|]. cbn. done.
Qed.

Lemma SetLogEnabled_roundtrip_witness :
  let f := {| core := Samples.doc_root; filePath := "a.xml";
              lines := ["<root/>"]; logEnabled := false |} in
  ∃ f1 f2,
    SetLogEnabled f true = Some f1
    ∧ lines f1 = "# log" :: lines f ∧ logEnabled f1 = true
    ∧ IsModified (core f1) = true
    ∧ SetLogEnabled f1 true = Some f1
    ∧ SetLogEnabled f1 false = Some f2
    ∧ lines f2 = lines f ∧ logEnabled f2 = false
    ∧ heap (core f2) = heap (core f) ∧ idMap (core f2) = idMap (core f)
    ∧ root (core f2) = root (core f).
Proof.
  intros f. apply (SetLogEnabled_roundtrip f).
  - reflexivity.
  - intros l [= <-]. exists "<root/>". split; [reflexivity|discriminate].
Defined.

End XmlFileFacts.

(** ** The statistics *)

Module StatisticsFacts.
Import EditorCmd Statistics GoFacts.

Ltac dur := unfold minDuration, maxDuration, whole_seconds, uint64, Second,
              Millisecond, Go.is_int, Go.int_min, Go.int_max in *.

(** On a duration that is not negative and a second below the largest,
    [Round] is the rounding to the nearest second, a half upwards. *)
Lemma Round_Second d :
  0 ≤ d ≤ maxDuration - Second →
  ∃ s, Round d Second = s * Second
     ∧ s * Second ≤ d + 500000000 < (s + 1) * Second.
Proof.
  intros Hd. unfold Round, lessThanHalf.
  change (Second <=? 0) with false. cbn match.
  destruct (Z.ltb_spec d 0); [lia|].
  pose proof (Z.rem_bound_pos d Second) as Hr.
  pose proof (Z.quot_rem' d Second) as Hq.
  assert (Hr' : 0 ≤ Z.rem d Second < Second) by (apply Hr; dur; lia).
  set (r := Z.rem d Second) in *. set (q := Z.quot d Second) in *.
  assert (uint64 r = r) as -> by (dur; apply Z.mod_small; lia).
  assert (uint64 (r + r) = r + r) as -> by (dur; apply Z.mod_small; lia).
  assert (uint64 Second = Second) as -> by reflexivity.
  destruct (Z.ltb_spec (r + r) Second).
  - exists q. unfold Go.sub. rewrite wrap_id by (dur; lia). dur. lia.
  - exists (q + 1). unfold Go.sub, Go.add.
    rewrite (wrap_id (d + Second)) by (dur; lia).
    rewrite wrap_id by (dur; lia).
    destruct (Z.ltb_spec d (d + Second - r)); [|dur; lia]. dur. lia.
Qed.

Lemma Round_negative d :
  Go.is_int d → d < 0 → whole_seconds (Round d Second) ≤ 0.
Proof.
  intros Hd Hneg. unfold Round, lessThanHalf.
  change (Second <=? 0) with false. cbn match.
  destruct (Z.ltb_spec d 0); [|lia].
  assert (Hr' : - Second < Z.rem d Second ≤ 0).
  { pose proof (Z.rem_bound_pos (- d) Second) as Hr.
    rewrite Z.rem_opp_l' in Hr. dur. lia. }
  pose proof (Z.quot_rem' d Second) as Hq.
  set (r := Z.rem d Second) in *. set (q := Z.quot d Second) in *.
  assert (Go.sub 0 r = - r) as -> by (apply wrap_id; dur; lia).
  assert (Hle : ∀ z, z ≤ 0 → whole_seconds z ≤ 0).
  { intros z Hz. unfold whole_seconds. apply Z.quot_le_upper_bound; dur; lia. }
  destruct (_ <? _).
  - apply Hle. unfold Go.add. rewrite wrap_id; dur; lia.
  - destruct (Z.ltb_spec (Go.add (Go.sub d Second) (- r)) d).
    + apply Hle. lia.
    + apply Hle. dur. lia.
Qed.

(** What [formatDuration] shows: "0" seconds for every negative duration;
    otherwise the duration rounded to the second, by its one or two leading
    units, the last of them rounded down: seconds below a minute, minutes
    below an hour, hours and minutes below a day, days and hours from there
    on. *)
Theorem formatDuration_units d :
  Go.is_int d →
  (d < 0 → formatDuration d = "0秒")
  ∧ (0 ≤ d ≤ maxDuration - Second →
     ∃ s, s * Second ≤ d + 500000000 < (s + 1) * Second
       ∧ (s < 60 → formatDuration d = Itoa s +:+ "秒")
       ∧ (60 ≤ s < 3600 →
          ∃ m, 1 ≤ m < 60 ∧ 60 * m ≤ s < 60 * (m + 1)
            ∧ formatDuration d = Itoa m +:+ "分钟")
       ∧ (3600 ≤ s < 86400 →
          ∃ h m, 1 ≤ h < 24 ∧ 0 ≤ m < 60
            ∧ 3600 * h + 60 * m ≤ s < 3600 * h + 60 * (m + 1)
            ∧ formatDuration d
              = Itoa h +:+ "小时" +:+ Itoa m +:+ "分钟")
       ∧ (86400 ≤ s →
          ∃ days h, 1 ≤ days ∧ 0 ≤ h < 24
            ∧ 86400 * days + 3600 * h ≤ s < 86400 * days + 3600 * (h + 1)
            ∧ formatDuration d
              = Itoa days +:+ "天" +:+ Itoa h +:+ "小时")).
Proof.
  intros Hd. split.
  - intros Hneg. pose proof (Round_negative d Hd Hneg) as Hs.
    unfold formatDuration. cbn zeta.
    destruct (Z.ltb_spec (whole_seconds (Round d Second)) 0); [done|].
    assert (whole_seconds (Round d Second) = 0) as -> by lia. done.
  - intros Hr. destruct (Round_Second d Hr) as (s & Hs & Hb).
    assert (Hs0 : 0 ≤ s) by (dur; lia).
    exists s. split; [done|]. unfold formatDuration. rewrite Hs.
    assert (whole_seconds (s * Second) = s) as ->.
    { unfold whole_seconds. apply Z.quot_mul. done. }
    cbn zeta. change (60 * 60) with 3600. change (24 * 3600) with 86400.
    destruct (Z.ltb_spec s 0); [lia|].
    split_and!.
    + intros H60. by destruct (Z.ltb_spec s 60); [|lia].
    + intros H60. destruct (Z.ltb_spec s 60); [lia|].
      destruct (Z.ltb_spec s 3600); [|lia].
      exists (Z.quot s 60). rewrite Z.quot_div_nonneg by lia.
      pose proof (Z.div_mod s 60). pose proof (Z.mod_pos_bound s 60).
      split_and!; try done; lia.
    + intros H60. destruct (Z.ltb_spec s 60); [lia|].
      destruct (Z.ltb_spec s 3600); [lia|].
      destruct (Z.ltb_spec s 86400); [|lia].
      exists (Z.quot s 3600), (Z.quot (Z.rem s 3600) 60).
      rewrite (Z.rem_mod_nonneg s 3600) by lia.
      pose proof (Z.mod_pos_bound s 3600).
      rewrite !Z.quot_div_nonneg by lia.
      pose proof (Z.div_mod s 3600).
      pose proof (Z.div_mod (s mod 3600) 60).
      pose proof (Z.mod_pos_bound (s mod 3600) 60).
      split_and!; try done; lia.
    + intros H60. destruct (Z.ltb_spec s 60); [lia|].
      destruct (Z.ltb_spec s 3600); [lia|].
      destruct (Z.ltb_spec s 86400); [lia|].
      exists (Z.quot s 86400), (Z.quot (Z.rem s 86400) 3600).
      rewrite (Z.rem_mod_nonneg s 86400) by lia.
      pose proof (Z.mod_pos_bound s 86400).
      rewrite !Z.quot_div_nonneg by lia.
      pose proof (Z.div_mod s 86400).
      pose proof (Z.div_mod (s mod 86400) 3600).
      pose proof (Z.mod_pos_bound (s mod 86400) 3600).
      split_and!; try done; lia.
Qed.

Lemma formatDuration_units_witness :
  formatDuration (-1) = "0秒".
Proof.
  apply (formatDuration_units (-1)); [vm_compute; split; discriminate|lia].
Defined.

(** From any state, the activation of a file at [t0] followed by its switch
    or close at [t1], not before [t0]: the file's total is what it carried
    (nothing, after a close) plus the time between the two, the timer is
    idle, closed if the event was a close, and the timers of the other files
    and the warnings are as they were. *)
Theorem Update_accumulates s p t0 t1 (closed : bool) :
  t0 ≤ t1 → (t1 - t0) * Millisecond ≤ maxDuration →
  Go.is_int (carried s p + (t1 - t0) * Millisecond) →
  ∃ s1 s2,
    Update s (activated p t0) = Some s1
    ∧ Update s1 (left closed p t1) = Some s2
    ∧ timers s2 !! p
      = Some {| StartTime := t0;
                TotalTime := carried s p + (t1 - t0) * Millisecond;
                IsActive := false; IsClosed := closed |}
    ∧ carried s2 p
      = (if closed then 0 else carried s p + (t1 - t0) * Millisecond)
    ∧ (∀ q, q ≠ p → timers s2 !! q = timers s !! q)
    ∧ warnCh s2 = warnCh s.
Proof.
  intros Ht Hmax Hint.
  assert (Hsub : Sub t1 t0 = (t1 - t0) * Millisecond).
  { unfold Sub. cbn zeta.
    destruct (Z.ltb_spec ((t1 - t0) * Millisecond) minDuration); [dur; lia|].
    by destruct (Z.ltb_spec maxDuration ((t1 - t0) * Millisecond)); [lia|]. }
  assert (Hs1 : Update s (activated p t0)
                = Some {| timers := <[p := {| StartTime := t0;
                                             TotalTime := carried s p;
                                             IsActive := true;
                                             IsClosed := false |}]> (timers s);
                          warnCh := warnCh s |}).
  { unfold Update, carried. cbn. by destruct (timers s !! p). }
  rewrite Hs1. eexists _, _. split; [reflexivity|].
  unfold Update at 1.
  assert (String.eqb (EventType (left closed p t1)) EventFileActivated = false) as ->
    by (by destruct closed).
  assert (String.eqb (EventType (left closed p t1)) EventFileSwitched
          || String.eqb (EventType (left closed p t1)) EventFileClosed = true) as ->
    by (by destruct closed).
  cbn [FilePath left timers Timestamp]. rewrite lookup_insert_eq.
  cbn [IsActive negb StartTime TotalTime IsClosed]. rewrite Hsub.
  destruct (Z.ltb_spec ((t1 - t0) * Millisecond) 0); [dur; lia|].
  unfold Go.add. rewrite wrap_id by done.
  split; [reflexivity|]. cbn [timers warnCh]. split_and!.
  - rewrite lookup_insert_eq. by destruct closed.
  - unfold carried at 1. cbn [timers]. rewrite lookup_insert_eq.
    by destruct closed.
  - intros q Hq. by rewrite !lookup_insert_ne.
  - done.
Qed.

Lemma Update_accumulates_witness :
  ∃ s1 s2,
    Update NewStatistics (activated "a.txt" 1000) = Some s1
    ∧ Update s1 (left false "a.txt" 4000) = Some s2
    ∧ timers s2 !! "a.txt"
      = Some {| StartTime := 1000;
                TotalTime := carried NewStatistics "a.txt"
                             + (4000 - 1000) * Millisecond;
                IsActive := false; IsClosed := false |}
    ∧ carried s2 "a.txt"
      = (if false then 0
         else carried NewStatistics "a.txt" + (4000 - 1000) * Millisecond)
    ∧ (∀ q, q ≠ "a.txt" → timers s2 !! q = timers NewStatistics !! q)
    ∧ warnCh s2 = warnCh NewStatistics.
Proof.
  apply (Update_accumulates NewStatistics "a.txt" 1000 4000 false);
    [lia | vm_compute; discriminate | vm_compute; split; discriminate].
Defined.

(** A switch or close stamped before the activation of the file: the timer
    stays as it is, still active, and a warning is queued; with ten warnings
    unread, the call never returns. *)
Theorem Update_negative_elapsed s p t1 (closed : bool) timer :
  timers s !! p = Some timer → IsActive timer = true →
  t1 < StartTime timer →
  Update s (left closed p t1)
  = (if Go.len (warnCh s) <? 10
     then Some {| timers := timers s; warnCh := warnCh s ++ [warning p] |}
     else None).
Proof.
  intros Hp Ha Ht. unfold Update.
  assert (String.eqb (EventType (left closed p t1)) EventFileActivated = false) as ->
    by (by destruct closed).
  assert (String.eqb (EventType (left closed p t1)) EventFileSwitched
          || String.eqb (EventType (left closed p t1)) EventFileClosed = true) as ->
    by (by destruct closed).
  cbn [FilePath left Timestamp]. rewrite Hp, Ha. cbn [negb].
  assert (Sub t1 (StartTime timer) < 0).
  { unfold Sub. cbn zeta.
    destruct (Z.ltb_spec ((t1 - StartTime timer) * Millisecond) minDuration);
      [dur; lia|].
    destruct (Z.ltb_spec maxDuration ((t1 - StartTime timer) * Millisecond));
      dur; lia. }
  by destruct (Z.ltb_spec (Sub t1 (StartTime timer)) 0); [|lia].
Qed.

Lemma Update_negative_elapsed_witness :
  Update {| timers := {["a.txt" := {| StartTime := 5; TotalTime := 0;
                                       IsActive := true; IsClosed := false |}]};
            warnCh := replicate 10 "w" |}
         (left false "a.txt" 4)
  = None.
Proof.
  apply (Update_negative_elapsed
           {| timers := {["a.txt" := {| StartTime := 5; TotalTime := 0;
                                        IsActive := true; IsClosed := false |}]};
              warnCh := replicate 10 "w" |}
           "a.txt" 4 false
           {| StartTime := 5; TotalTime := 0; IsActive := true;
              IsClosed := false |}); [reflexivity | reflexivity | cbn; lia].
Defined.

End StatisticsFacts.

(** ** The name of a log file *)

Module LogNameFacts.
Import XmlIO LogName GoFacts TextMoreFacts.

Lemma LastIndex_from_absent sub s : ∀ i,
  occurs sub s = false → LastIndex_from sub s i = -1.
Proof.
  induction s as [|c s IH]; intros i H; cbn in H.
  - apply orb_false_iff in H as [H _]. cbn. by rewrite H.
  - apply orb_false_iff in H as [H H']. cbn [LastIndex_from].
    rewrite (IH _ H'). cbn. cbn in H. by rewrite H.
Qed.

Lemma LastIndex_from_last dir name : ∀ i,
  0 ≤ i → occurs backslash name = false →
  LastIndex_from backslash (dir +:+ backslash +:+ name) i = i + Go.slen dir.
Proof.
  induction dir as [|c dir IH]; intros i Hi H.
  - rewrite sapp_nil. unfold backslash. rewrite sapp_cons, sapp_nil.
    cbn [LastIndex_from]. rewrite (LastIndex_from_absent _ _ _ H).
    cbn. unfold Go.slen. cbn. lia.
  - rewrite sapp_cons. cbn [LastIndex_from]. rewrite IH by (done || lia).
    unfold Go.slen. cbn [String.length].
    destruct (Z.eqb_spec (i + 1 + Z.of_nat (String.length dir)) (-1)); lia.
Qed.

(** [GetAfterLastBackslash] returns what follows the last backslash of a
    path, and the empty string for a path without backslash, such as a path
    written with forward slashes; it never slices out of range. *)
Theorem GetAfterLastBackslash_spec dir name :
  Go.slen (dir +:+ backslash +:+ name) ≤ Go.int_max →
  occurs backslash name = false →
  GetAfterLastBackslash (dir +:+ backslash +:+ name) = Some name
  ∧ GetAfterLastBackslash name = Some EmptyString.
Proof.
  intros Hlen H. unfold GetAfterLastBackslash, LastIndex. cbn zeta. split.
  - rewrite LastIndex_from_last by done.
    unfold Go.slen in *. rewrite !length_sapp in Hlen.
    change (String.length backslash) with 1%nat in *.
    destruct (Z.eqb_spec (0 + Z.of_nat (String.length dir)) (-1)); [lia|].
    unfold Go.add. rewrite wrap_id
      by (unfold Go.is_int, Go.int_min, Go.int_max in *; lia).
    apply sslice_from_Some. unfold Go.slen. rewrite !length_sapp.
    split; [cbn; lia|].
    replace (Z.to_nat (0 + Z.of_nat (String.length dir) + 1))
      with (String.length (dir +:+ backslash))
      by (rewrite length_sapp; cbn; lia).
    by rewrite <- StringFacts.sapp_assoc, sdrop_sapp.
  - by rewrite LastIndex_from_absent.
Qed.

Lemma GetAfterLastBackslash_spec_witness :
  GetAfterLastBackslash ("C:" +:+ backslash +:+ "a.xml") = Some "a.xml"
  ∧ GetAfterLastBackslash "a.xml" = Some EmptyString.
Proof.
  apply (GetAfterLastBackslash_spec "C:" "a.xml");
    [vm_compute; discriminate | reflexivity].
Defined.

End LogNameFacts.
